(** * Shifted-window attention geometry and attention-gated deformable
      convolution of [model.py]: a shallow embedding and its properties.

    Conventions of the embedding.
    - A tensor is its shape together with its elements in row-major
      (contiguous) order; [view] keeps the elements and replaces the
      shape, [permute(...).contiguous()] copies the elements through
      the permuted strides.
    - A Python exception is [None] in the option monad.
    - Integers that index or size something are [nat]; Python integers
      that may be negative (slice bounds, labels, mask entries) are [Z];
      floating-point coordinates and activations are exact rationals. *)

From Stdlib Require Import ZArith QArith Qround Lia.
From stdpp Require Import base tactics option numbers list.

Open Scope nat_scope.

(** ** Row-major tensors *)

Module Tensor.

Record tensor (A : Type) := Tensor { shape : list nat; data : list A }.
Arguments Tensor {A} _ _.
Arguments shape {A} _.
Arguments data {A} _.

(** Number of elements of a shape. *)
Definition numel (s : list nat) : nat := foldr Nat.mul 1 s.

Definition wf {A} (t : tensor A) : Prop := length (data t) = numel (shape t).

(** Multi-index of a flat position, and back. *)
Fixpoint unravel (s : list nat) (i : nat) : list nat :=
  match s with
  | [] => []
  | _ :: s' => (i / numel s') :: unravel s' (i mod numel s')
  end.

Fixpoint ravel (s idx : list nat) : nat :=
  match s, idx with
  | _ :: s', k :: idx' => k * numel s' + ravel s' idx'
  | _, _ => 0
  end.

(** Strides of a contiguous tensor, and the storage offset of a
    multi-index under arbitrary strides. *)
Fixpoint strides (s : list nat) : list nat :=
  match s with
  | [] => []
  | _ :: s' => numel s' :: strides s'
  end.

Fixpoint offset (str idx : list nat) : nat :=
  match str, idx with
  | st :: str', k :: idx' => k * st + offset str' idx'
  | _, _ => 0
  end.

(** [torch.Tensor.view]: an argument is a size or [-1] ([None]), of
    which at most one may be inferred.  With an inferred dimension the
    product of the others must be positive and divide the element
    count; a zero product is rejected as ambiguous. *)
Definition given (args : list (option nat)) : list nat := omap id args.

Definition infer_size (args : list (option nat)) (n : nat) : option (list nat) :=
  let newsize := numel (given args) in
  match length args - length (given args) with
  | 0 => if decide (n = newsize) then Some (given args) else None
  | 1 => if decide (0 < newsize ∧ n mod newsize = 0)
         then Some (map (default (n / newsize)) args) else None
  | _ => None
  end.

Definition view {A} (t : tensor A) (args : list (option nat)) : option (tensor A) :=
  s ← infer_size args (length (data t));
  Some (Tensor s (data t)).

(** [t.permute(dims).contiguous()]: dimension [p] of the result is
    dimension [dims[p]] of [t]; the elements are copied in the row-major
    order of the new shape. *)
Definition is_permutation (dims : list nat) (n : nat) : bool :=
  bool_decide (length dims = n ∧ NoDup dims ∧ Forall (λ d, d < n) dims).

Definition select (dims : list nat) (l : list nat) : list nat :=
  map (λ d, default 0 (l !! d)) dims.

Definition permute {A} (dims : list nat) (t : tensor A) : option (tensor A) :=
  if is_permutation dims (length (shape t)) then
    let s' := select dims (shape t) in
    let str' := select dims (strides (shape t)) in
    d' ← mapM (λ j, data t !! offset str' (unravel s' j)) (seq 0 (numel s'));
    Some (Tensor s' d')
  else None.

(** A single element by multi-index. *)
Definition get {A} (t : tensor A) (idx : list nat) : option A :=
  data t !! ravel (shape t) idx.

End Tensor.

Import Tensor.

(** Python's [a // b] on non-negative integers. *)
Definition floordiv (a b : nat) : option nat :=
  if decide (b = 0) then None else Some (a / b).

(** ** Window geometry *)

(** [window_partition(x, window_size)] *)
Definition window_partition {A} (x : tensor A) (window_size : list nat)
  : option (tensor A) :=
  match shape x, window_size with
  | [B; D; H; W; C], w0 :: w1 :: w2 :: rest =>
      nd ← floordiv D w0;
      nh ← floordiv H w1;
      nw ← floordiv W w2;
      x1 ← view x [Some B; Some nd; Some w0; Some nh; Some w1;
                   Some nw; Some w2; Some C];
      x2 ← permute [0; 1; 3; 5; 2; 4; 6; 7] x1;
      view x2 [None; Some (foldl Nat.mul w0 (w1 :: w2 :: rest)); Some C]
  | _, _ => None
  end.

(** [window_reverse(windows, window_size, B, D, H, W)] *)
Definition window_reverse {A} (windows : tensor A) (window_size : list nat)
    (B D H W : nat) : option (tensor A) :=
  match window_size with
  | w0 :: w1 :: w2 :: _ =>
      nd ← floordiv D w0;
      nh ← floordiv H w1;
      nw ← floordiv W w2;
      x1 ← view windows [Some B; Some nd; Some nh; Some nw;
                         Some w0; Some w1; Some w2; None];
      x2 ← permute [0; 1; 4; 2; 5; 3; 6; 7] x1;
      view x2 [Some B; Some D; Some H; Some W; None]
  | _ => None
  end.

(** [get_window_size(x_size, window_size, shift_size)], with the shift
    given.  The loop walks [range(len(x_size))]; reading [window_size[i]]
    or writing [use_shift_size[i]] out of range raises. *)
Definition get_window_size_step (x_size window_size : list nat)
    (acc : option (list nat * list nat)) (i : nat) : option (list nat * list nat) :=
  '(use_window_size, use_shift_size) ← acc;
  xi ← x_size !! i;
  wi ← window_size !! i;
  if decide (xi ≤ wi) then
    _ ← use_shift_size !! i;
    Some (<[i := xi]> use_window_size, <[i := 0]> use_shift_size)
  else Some (use_window_size, use_shift_size).

Definition get_window_size (x_size window_size shift_size : list nat)
  : option (list nat * list nat) :=
  foldl (get_window_size_step x_size window_size)
        (Some (window_size, shift_size)) (seq 0 (length x_size)).

(** ** The shifted-window attention mask *)

(** Elementwise and indexing primitives of the tensor library used by
    [compute_mask]. *)

(** A tensor given by its value at every multi-index. *)
Definition tabulate {A} (s : list nat) (f : list nat → option A) : option (tensor A) :=
  d ← mapM (λ j, f (unravel s j)) (seq 0 (numel s));
  Some (Tensor s d).

Definition zeros (s : list nat) : tensor Z := Tensor s (replicate (numel s) 0%Z).

(** A Python [slice(start, stop)] with step 1; [None] is an omitted
    bound.  [slice_bounds] is the half-open index range the slice selects
    in a sequence of length [len]: negative bounds count from the end,
    and both bounds are clipped into [0, len]. *)
Definition slice : Type := option Z * option Z.

Definition slice_adjust (len : nat) (v : Z) : nat :=
  if decide (v < 0)%Z then Z.to_nat (Z.max (v + Z.of_nat len) 0)
  else Nat.min (Z.to_nat v) len.

Definition slice_bounds (sl : slice) (len : nat) : nat * nat :=
  (default 0 (slice_adjust len <$> sl.1), default len (slice_adjust len <$> sl.2)).

Definition in_slice (sl : slice) (len i : nat) : bool :=
  let '(lo, hi) := slice_bounds sl len in
  bool_decide (lo ≤ i < hi).

(** [img[:, d, h, w, :] = v] on a five-dimensional tensor. *)
Definition assign_region (img : tensor Z) (d h w : slice) (v : Z) : tensor Z :=
  Tensor (shape img)
    (imap (λ j old,
             match shape img, unravel (shape img) j with
             | [_; D; H; W; _], [_; i; j; k; _] =>
                 if in_slice d D i && in_slice h H j && in_slice w W k
                 then v else old
             | _, _ => old
             end) (data img)).

(** The three slices of one axis:
    [slice(-window), slice(-window, -shift), slice(-shift, None)]. *)
Definition axis_slices (window shift : nat) : list slice :=
  [ (None, Some (- Z.of_nat window)%Z);
    (Some (- Z.of_nat window)%Z, Some (- Z.of_nat shift)%Z);
    (Some (- Z.of_nat shift)%Z, None) ].

(** The triple loop that labels the 27 regions with a running counter. *)
Definition label_regions (img : tensor Z) (sd sh sw : list slice) : tensor Z * Z :=
  foldl (λ st d,
    foldl (λ st h,
      foldl (λ '(img, cnt) w, (assign_region img d h w cnt, (cnt + 1)%Z))
            st sw)
      st sh)
    (img, 0%Z) sd.

(** [t.squeeze(-1)] and [t.unsqueeze(k)]. *)
Definition squeeze_last {A} (t : tensor A) : tensor A :=
  match reverse (shape t) with
  | 1 :: rs => Tensor (reverse rs) (data t)
  | _ => t
  end.

Definition unsqueeze {A} (k : nat) (t : tensor A) : tensor A :=
  Tensor (take k (shape t) ++ 1 :: drop k (shape t)) (data t).

(** Broadcasting [a - b] of two tensors of the same rank: an axis of
    extent 1 is read at index 0 whatever the index of the result. *)
Definition broadcast_shape (sa sb : list nat) : option (list nat) :=
  if decide (length sa = length sb) then
    mapM (λ '(n, m), if decide (n = m) then Some n
                     else if decide (n = 1) then Some m
                     else if decide (m = 1) then Some n
                     else None) (zip sa sb)
  else None.

Definition broadcast_index (s idx : list nat) : list nat :=
  zip_with (λ n k, if decide (n = 1) then 0 else k) s idx.

Definition broadcast_sub (a b : tensor Z) : option (tensor Z) :=
  s ← broadcast_shape (shape a) (shape b);
  tabulate s (λ idx,
    x ← get a (broadcast_index (shape a) idx);
    y ← get b (broadcast_index (shape b) idx);
    Some (x - y)%Z).

(** [t.masked_fill(mask, v)] *)
Definition masked_fill (t : tensor Z) (mask : list bool) (v : Z) : tensor Z :=
  Tensor (shape t) (zip_with (λ x (m : bool), if m then v else x) (data t) mask).

Definition ne_zero (t : tensor Z) : list bool := (λ x, bool_decide (x ≠ 0%Z)) <$> data t.
Definition eq_zero (t : tensor Z) : list bool := (λ x, bool_decide (x = 0%Z)) <$> data t.

Inductive device := cpu | cuda (index : nat).

(** [compute_mask(D, H, W, window_size, shift_size, device)], the body
    under the cache decorator.  Labels and mask entries are small
    integers held in floating point; they are integers here. *)
Definition compute_mask (D H W : nat) (window_size shift_size : list nat)
    (dev : device) : option (tensor Z) :=
  match window_size, shift_size with
  | w0 :: w1 :: w2 :: _, s0 :: s1 :: s2 :: _ =>
      let img_mask := zeros [1; D; H; W; 1] in
      let img_mask :=
        (label_regions img_mask (axis_slices w0 s0) (axis_slices w1 s1)
                       (axis_slices w2 s2)).1 in
      mask_windows ← window_partition img_mask window_size;
      let mask_windows := squeeze_last mask_windows in
      attn_mask ← broadcast_sub (unsqueeze 1 mask_windows) (unsqueeze 2 mask_windows);
      Some (masked_fill (masked_fill attn_mask (ne_zero attn_mask) (-100))
                        (eq_zero attn_mask) 0)
  | _, _ => None
  end.

(** ** The relative position index of a window *)

Definition arange (n : nat) : tensor Z := Tensor [n] (Z.of_nat <$> seq 0 n).

(** [torch.meshgrid(a, b, c)] of three vectors, in [ij] indexing. *)
Definition meshgrid3 (a b c : tensor Z) : option (tensor Z * tensor Z * tensor Z) :=
  match shape a, shape b, shape c with
  | [la], [lb], [lc] =>
      ga ← tabulate [la; lb; lc] (λ idx, i ← idx !! 0; get a [i]);
      gb ← tabulate [la; lb; lc] (λ idx, j ← idx !! 1; get b [j]);
      gc ← tabulate [la; lb; lc] (λ idx, k ← idx !! 2; get c [k]);
      Some (ga, gb, gc)
  | _, _, _ => None
  end.

(** [torch.stack((x, y, z))] along a new leading axis. *)
Definition stack3 {A} (x y z : tensor A) : option (tensor A) :=
  if decide (shape x = shape y ∧ shape y = shape z)
  then Some (Tensor (3 :: shape x) (data x ++ data y ++ data z))
  else None.

(** [torch.flatten(t, k)]: the axes from [k] on become one. *)
Definition flatten_from {A} (k : nat) (t : tensor A) : tensor A :=
  Tensor (take k (shape t) ++ [numel (drop k (shape t))]) (data t).

(** In-place update [t[..., k] = f(t[..., k])] of one slot of the last
    axis. *)
Definition map_last (k : nat) (f : Z → Z) (t : tensor Z) : tensor Z :=
  Tensor (shape t)
    (imap (λ j x,
             if decide (unravel (shape t) j !! (length (shape t) - 1) = Some k)
             then f x else x)
          (data t)).

(** [t.sum(-1)] *)
Definition sum_last (t : tensor Z) : option (tensor Z) :=
  match reverse (shape t) with
  | n :: rs =>
      tabulate (reverse rs) (λ idx,
        xs ← mapM (λ k, get t (idx ++ [k])) (seq 0 n);
        Some (foldr Z.add 0%Z xs))
  | [] => None
  end.

(** The [relative_position_index] buffer built by the constructors of
    [SelfWindowAttention3D] and [CrossWindowAttention3D] (the two
    constructors build it by the same statements). *)
Definition relative_position_index (window_size : list nat) : option (tensor Z) :=
  match window_size with
  | w0 :: w1 :: w2 :: _ =>
      let coords_d := arange w0 in
      let coords_h := arange w1 in
      let coords_w := arange w2 in
      '(gd, gh, gw) ← meshgrid3 coords_d coords_h coords_w;
      coords ← stack3 gd gh gw;
      let coords_flatten := flatten_from 1 coords in
      relative_coords ← broadcast_sub (unsqueeze 2 coords_flatten)
                                      (unsqueeze 1 coords_flatten);
      relative_coords ← permute [1; 2; 0] relative_coords;
      let z0 := Z.of_nat w0 in
      let z1 := Z.of_nat w1 in
      let z2 := Z.of_nat w2 in
      let relative_coords := map_last 0 (λ x, x + (z0 - 1))%Z relative_coords in
      let relative_coords := map_last 1 (λ x, x + (z1 - 1))%Z relative_coords in
      let relative_coords := map_last 2 (λ x, x + (z2 - 1))%Z relative_coords in
      let relative_coords :=
        map_last 0 (λ x, x * ((2 * z1 - 1) * (2 * z2 - 1)))%Z relative_coords in
      let relative_coords := map_last 1 (λ x, x * (2 * z2 - 1))%Z relative_coords in
      sum_last relative_coords
  | _ => None
  end.

(** ** Windowed self-attention: the head split *)

(** Shape of [nn.Linear(in_features, out_features)] applied to a tensor
    of shape [s]: the last extent must be [in_features]. *)
Definition linear_shape (in_features out_features : nat) (s : list nat)
  : option (list nat) :=
  match reverse s with
  | c :: rs =>
      if decide (c = in_features) then Some (reverse (out_features :: rs)) else None
  | [] => None
  end.

(** The first statement of [SelfWindowAttention3D.forward] at the level
    of shapes:
    [self.qkv(x).reshape(B_, N, 3, num_heads, C // num_heads).permute(2, 0, 3, 1, 4)]
    for a module built with [dim] and [num_heads]. *)
Definition qkv_heads_shape (dim num_heads : nat) (x_shape : list nat)
  : option (list nat) :=
  match x_shape with
  | [B_; N; C] =>
      y ← linear_shape dim (dim * 3) x_shape;
      head_dim ← floordiv C num_heads;
      s ← infer_size [Some B_; Some N; Some 3; Some num_heads; Some head_dim]
                     (numel y);
      Some (select [2; 0; 3; 1; 4] s)
  | _ => None
  end.

(** ** The multi-modal transformer block: attention stage *)

Section SwinTransformerBlock3D.

(** Window tensors and the attention modules a block owns; each module
    is the function its parameters determine. *)
Context {windows mask : Type}.

Record block_modules := BlockModules {
  self_attn_t1 : windows → option mask → windows;
  self_attn_t1ce : windows → option mask → windows;
  self_attn_t2 : windows → option mask → windows;
  self_attn_flair : windows → option mask → windows;
  cross_attn_1 : windows → windows → option mask → windows;
  cross_attn_2 : windows → windows → option mask → windows;
}.

Variable add : windows → windows → windows.

(** The four conditional expressions of [forward_part1] that compute
    [attn_windows_t1], [attn_windows_t1ce], [attn_windows_t2] and
    [attn_windows_flair]. *)
Definition attention_stage (self : block_modules)
    (t1_windows t1ce_windows t2_windows flair_windows : windows)
    (attn_mask : option mask) (cross : bool)
  : windows * windows * windows * windows :=
  let attn_windows_t1 :=
    if negb cross then self_attn_t1 self t1_windows attn_mask
    else add (self_attn_t1 self t1_windows attn_mask)
             (cross_attn_1 self t1_windows t1ce_windows attn_mask) in
  let attn_windows_t1ce :=
    if negb cross then self_attn_t1ce self t1ce_windows attn_mask
    else add (self_attn_t1ce self t1ce_windows attn_mask)
             (cross_attn_1 self t1ce_windows t1_windows attn_mask) in
  let attn_windows_t2 :=
    if negb cross then self_attn_t2 self t2_windows attn_mask
    else add (self_attn_t2 self t2_windows attn_mask)
             (cross_attn_2 self t2_windows flair_windows attn_mask) in
  let attn_windows_flair :=
    if negb cross then self_attn_flair self flair_windows attn_mask
    else add (self_attn_flair self flair_windows attn_mask)
             (cross_attn_2 self flair_windows t2_windows attn_mask) in
  (attn_windows_t1, attn_windows_t1ce, attn_windows_t2, attn_windows_flair).

End SwinTransformerBlock3D.

(** ** Calls and exceptions *)

Inductive exn :=
  | TypeError_too_many_positional
  | TypeError_multiple_values
  | TypeError_unexpected_keyword
  | TypeError_missing_argument
  | ValueError_unpack
  | AttributeError_append.

Inductive result (A : Type) := Ok (a : A) | Raise (e : exn).
Arguments Ok {A} _.
Arguments Raise {A} _.

Global Instance result_ret : MRet result := λ A a, Ok a.
Global Instance result_bind : MBind result := λ A B f r,
  match r with Ok a => f a | Raise e => Raise e end.

(** Parameter names of [SwinTransformerBlock3D.forward]. *)
Inductive param := p_t1 | p_t1ce | p_t2 | p_flair | p_mask_matrix | p_cross.

Global Instance param_eq_dec : EqDecision param.
Proof. solve_decision. Defined.

Section call.
Context {V : Type}.

Fixpoint keyword (kwargs : list (param * V)) (p : param) : option V :=
  match kwargs with
  | [] => None
  | (q, v) :: kwargs' => if decide (q = p) then Some v else keyword kwargs' p
  end.

(** Binding of positional and keyword arguments to the parameters of a
    function without defaults: the values in parameter order, or the
    [TypeError] of the call. *)
Definition bind_args (params : list param) (args : list V)
    (kwargs : list (param * V)) : result (list V) :=
  if decide (length params < length args) then Raise TypeError_too_many_positional
  else if decide (Exists (λ kv, kv.1 ∉ params) kwargs)
  then Raise TypeError_unexpected_keyword
  else if decide (Exists (λ kv, kv.1 ∈ take (length args) params) kwargs)
  then Raise TypeError_multiple_values
  else match mapM (keyword kwargs) (drop (length args) params) with
       | Some rest => Ok (args ++ rest)
       | None => Raise TypeError_missing_argument
       end.
End call.

(** ** A stage of stacked blocks *)

Section BasicLayer.
Context {tensor mask block : Type}.

(** Values a Python name of [BasicLayer.forward] can hold. *)
Inductive value :=
  | VTensor (t : tensor)
  | VMask (m : mask)
  | VBool (b : bool)
  | VList (l : list tensor).

(** Tensor operations of the stage, and the body of a block's
    [forward] on its bound arguments (in parameter order), returning
    the tuple it yields. *)
Variable rearrange_in rearrange_out : tensor → tensor.
Variable cat_dim1 : list tensor → tensor.
Variable stage_mask : tensor → mask.
Variable reshape_bdhw : tensor → tensor → tensor.
Variable downsample : option (tensor → tensor).
Variable block_body : block → list value → result (list value).

Definition SwinTransformerBlock3D_forward_params : list param :=
  [p_t1; p_t1ce; p_t2; p_flair; p_mask_matrix; p_cross].

(** Calling the block: [nn.Module.__call__] passes the arguments on to
    [forward]. *)
Definition call_block (blk : block) (args : list value)
    (kwargs : list (param * value)) : result (list value) :=
  bound ← bind_args SwinTransformerBlock3D_forward_params args kwargs;
  block_body blk bound.

(** The names the loop of [forward] reads and rebinds. *)
Record stage_state := StageState {
  extract_feature : value;
  st_t1 : tensor; st_t1ce : tensor; st_t2 : tensor; st_flair : tensor;
}.

(** One iteration of the loop as written:
    [extract_feature, t1_t1ce, t1_t2, t1_flair = blk(t1_t1ce, t1_t2, t1_flair, attn_mask, cross=...)]. *)
Definition loop_body (attn_mask : mask) (len : nat) (st : stage_state)
    (depth : nat) (blk : block) : result stage_state :=
  let t1_t1ce := cat_dim1 [st_t1 st; st_t1ce st] in
  let t1_t2 := cat_dim1 [st_t1 st; st_t2 st] in
  let t1_flair := cat_dim1 [st_t1 st; st_flair st] in
  r ← call_block blk
        [VTensor t1_t1ce; VTensor t1_t2; VTensor t1_flair; VMask attn_mask]
        [(p_cross, VBool (bool_decide (depth = len - 1)))];
  match r with
  | [ef; _; _; _] =>
      Ok (StageState ef (st_t1 st) (st_t1ce st) (st_t2 st) (st_flair st))
  | _ => Raise ValueError_unpack
  end.

(** One iteration of the loop left in the source as a comment:
    [t1, t1ce, t2, flair = blk(t1, t1ce, t2, flair, attn_mask, cross=...)]. *)
Definition commented_loop_body (attn_mask : mask) (len : nat) (st : stage_state)
    (depth : nat) (blk : block) : result stage_state :=
  r ← call_block blk
        [VTensor (st_t1 st); VTensor (st_t1ce st); VTensor (st_t2 st);
         VTensor (st_flair st); VMask attn_mask]
        [(p_cross, VBool (bool_decide (depth = len - 1)))];
  match r with
  | [VTensor a; VTensor b; VTensor c; VTensor d] =>
      Ok (StageState (extract_feature st) a b c d)
  | _ => Raise ValueError_unpack
  end.

Fixpoint run_loop (body : stage_state → nat → block → result stage_state)
    (st : stage_state) (depth : nat) (blocks : list block) : result stage_state :=
  match blocks with
  | [] => Ok st
  | blk :: blocks' =>
      st' ← body st depth blk;
      run_loop body st' (S depth) blocks'
  end.

(** [BasicLayer.forward(t1, t1ce, t2, flair, extract_feature)], with
    the loop given by [body]. *)
Definition BasicLayer_forward_with
    (body : mask → nat → stage_state → nat → block → result stage_state)
    (blocks : list block) (t1 t1ce t2 flair : tensor) (features : list tensor)
  : result (value * tensor * tensor * tensor * tensor) :=
  let shape_of := t1 in
  let t1 := rearrange_in t1 in
  let t1ce := rearrange_in t1ce in
  let t2 := rearrange_in t2 in
  let flair := rearrange_in flair in
  let attn_mask := stage_mask t1 in
  st ← run_loop (body attn_mask (length blocks))
                (StageState (VList features) t1 t1ce t2 flair) 0 blocks;
  ef ← match extract_feature st with
       | VList l =>
           Ok (VList (l ++ [cat_dim1 [rearrange_out (st_t1 st);
                                      rearrange_out (st_t1ce st);
                                      rearrange_out (st_t2 st);
                                      rearrange_out (st_flair st)]]))
       | _ => Raise AttributeError_append
       end;
  let finish x :=
    let x := reshape_bdhw shape_of x in
    rearrange_out (match downsample with Some f => f x | None => x end) in
  Ok (ef, finish (st_t1 st), finish (st_t1ce st), finish (st_t2 st),
      finish (st_flair st)).

Definition BasicLayer_forward := BasicLayer_forward_with loop_body.
Definition BasicLayer_forward_commented := BasicLayer_forward_with commented_loop_body.

End BasicLayer.

(** ** The mask cache *)

Global Instance device_eq_dec : EqDecision device.
Proof. solve_decision. Defined.

(** [functools.lru_cache(maxsize)] around a function [f] that may raise:
    the entries, most recently used first, and the hit and miss counters
    of [cache_info()]. *)
Section lru_cache.
Context {K V : Type} `{EqDecision K}.
Variable f : K → option V.
Variable maxsize : nat.

Record cache := Cache {
  entries : list (K * V);
  hits : nat;
  misses : nat;
}.

Definition cache_empty : cache := Cache [] 0 0.

Fixpoint cache_get (k : K) (l : list (K * V)) : option V :=
  match l with
  | [] => None
  | (k', v) :: l' => if decide (k' = k) then Some v else cache_get k l'
  end.

Definition cache_del (k : K) (l : list (K * V)) : list (K * V) :=
  filter (λ kv, kv.1 ≠ k) l.

(** A call of the decorated function: a hit returns the stored value
    and makes the entry the most recent; a miss calls [f], stores the
    result in front and drops the least recently used entry beyond
    [maxsize]; an exception of [f] leaves the cache as it was. *)
Definition cached_call (c : cache) (k : K) : option V * cache :=
  match cache_get k (entries c) with
  | Some v =>
      (Some v, Cache ((k, v) :: cache_del k (entries c)) (hits c + 1) (misses c))
  | None =>
      match f k with
      | Some v =>
          (Some v, Cache (take maxsize ((k, v) :: entries c)) (hits c) (misses c + 1))
      | None => (None, c)
      end
  end.

Definition run_calls (c : cache) (ks : list K) : cache :=
  foldl (λ c k, (cached_call c k).2) c ks.

Definition cache_wf (c : cache) : Prop :=
  NoDup (entries c).*1 ∧ length (entries c) ≤ maxsize.
End lru_cache.








(** ** Attention-gated deformable convolution *)

(** Scalar primitives on rationals: the comparison behind [lt] and [gt],
    [torch.clamp(v, lo, hi)] (first raised to [lo], then cut at [hi]) and
    [Tensor.long()], which truncates toward zero. *)
Definition Qlt_bool (a b : Q) : bool := negb (Qle_bool b a).

Definition clamp (v lo hi : Q) : Q :=
  let v := if Qlt_bool v lo then lo else v in
  if Qlt_bool hi v then hi else v.

Definition long (q : Q) : Z := Z.quot (Qnum q) (Z.pos (Qden q)).

(** [a * b] with broadcasting, for two tensors of the same rank. *)
Definition broadcast_mul (a b : tensor Q) : option (tensor Q) :=
  s ← broadcast_shape (shape a) (shape b);
  tabulate s (λ idx,
    x ← get a (broadcast_index (shape a) idx);
    y ← get b (broadcast_index (shape b) idx);
    Some (x * y)%Q).

(** [nn.ConstantPad3d(padding, 0)] on a five-dimensional tensor: the
    last three axes grow by [padding] on both sides. *)
Definition zero_padding (padding : nat) (x : tensor Q) : option (tensor Q) :=
  match shape x with
  | [b; c; h; w; d] =>
      tabulate [b; c; h + 2 * padding; w + 2 * padding; d + 2 * padding]
        (λ idx,
           match idx with
           | [bi; ci; i; j; k] =>
               if decide (padding ≤ i < h + padding ∧ padding ≤ j < w + padding
                          ∧ padding ≤ k < d + padding)
               then get x [bi; ci; i - padding; j - padding; k - padding]
               else Some 0%Q
           | _ => None
           end)
  | _ => None
  end.

(** A convolution with a 1x1x1 kernel ([nn.Conv3d(cin, cout, kernel_size=1)]):
    [weight] holds one row of [cin] coefficients per output channel. *)
Definition dot (w xs : list Q) : Q := foldr Qplus 0%Q (zip_with Qmult w xs).

Definition conv1x1x1_at (weight : list (list Q)) (bias : option (list Q))
    (o : nat) (xs : list Q) : option Q :=
  w ← weight !! o;
  b ← match bias with Some bs => bs !! o | None => Some 0%Q end;
  if decide (length w = length xs) then Some (dot w xs + b)%Q else None.

Definition conv1x1x1 (weight : list (list Q)) (bias : option (list Q))
    (x : tensor Q) : option (tensor Q) :=
  match shape x with
  | [b; cin; h; w; d] =>
      tabulate [b; length weight; h; w; d]
        (λ idx,
           match idx with
           | [bi; o; i; j; k] =>
               xs ← mapM (λ m, get x [bi; m; i; j; k]) (seq 0 cin);
               conv1x1x1_at weight bias o xs
           | _ => None
           end)
  | _ => None
  end.

Inductive mode := deformable | regular.

(** The two corners of a sample point along one axis. *)
Inductive side := small | large.

Section AttDeformConv3d.

(** The hyper-parameters and the learned sub-modules of the layer; each
    sub-module is the function its parameters determine. *)
Variables kernel_size stride padding : nat.
Variable conv_se offset_conv_kernel att : tensor Q → option (tensor Q).
Variable conv_kernel_weight : list (list Q).
Variable conv_kernel_bias : option (list Q).

(** [range(-(kernel_size - 1) // 2, (kernel_size - 1) // 2 + 1)] *)
Definition tap_range : list Z :=
  let lo := (- (Z.of_nat kernel_size - 1) / 2)%Z in
  let hi := ((Z.of_nat kernel_size - 1) / 2 + 1)%Z in
  (λ t, lo + Z.of_nat t)%Z <$> seq 0 (Z.to_nat (hi - lo)).

(** [_get_p_n]: the three [ij]-meshgrids of the tap range, flattened and
    concatenated: (x1, ..., xN, y1, ..., yN, z1, ..., zN). *)
Definition _get_p_n : list Z :=
  let r := tap_range in
  (a ← r; b ← r; c ← r; [a]) ++ (a ← r; b ← r; c ← r; [b])
    ++ (a ← r; b ← r; c ← r; [c]).

(** [_get_p_0] at channel [ch] and position [(i, j, k)]: the meshgrids
    of [range(1, h + 1)], [range(1, w + 1)], [range(1, d + 1)], each
    repeated over [N] channels. *)
Definition _get_p_0 (N ch i j k : nat) : Z :=
  if decide (ch < N) then (Z.of_nat i + 1)%Z
  else if decide (ch < 2 * N) then (Z.of_nat j + 1)%Z
  else (Z.of_nat k + 1)%Z.

(** [_get_p]: one entry of [p_0 + p_n + offset]; reshaping [p_n] to
    [(1, 3 * N, 1, 1, 1)] needs [3 * N] entries. *)
Definition _get_p (offset : tensor Q) (bi ch i j k : nat) : option Q :=
  match shape offset with
  | [_; c3; _; _; _] =>
      let N := c3 / 3 in
      if decide (length _get_p_n = 3 * N) then
        pn ← _get_p_n !! ch;
        o ← get offset [bi; ch; i; j; k];
        Some (inject_Z (_get_p_0 N ch i j k) + inject_Z pn + o)%Q
      else None
  | _ => None
  end.

(** One coordinate of a corner: [floor(p)] or [floor(p) + 1], clamped
    to [[0, size - 1]] and converted by [long()]. *)
Definition q_corner (size : nat) (sd : side) (p : Q) : Z :=
  let q_sss := inject_Z (Qfloor p) in
  match sd with
  | small => long (clamp q_sss 0 (inject_Z (Z.of_nat size - 1)))
  | large => long (clamp (q_sss + 1) 0 (inject_Z (Z.of_nat size - 1)))
  end.

(** One coordinate of the sample point after the border mask and the
    clamp: where [p] lies within [padding] of either end of the axis it
    is replaced by [floor_p]. *)
Definition border_mask (size : nat) (p : Q) : Q :=
  if Qlt_bool p (inject_Z (Z.of_nat padding))
     || Qlt_bool (inject_Z (Z.of_nat size - 1 - Z.of_nat padding)) p
  then 1%Q else 0%Q.

Definition p_clamped (size : nat) (p : Q) : Q :=
  let mask := border_mask size p in
  let floor_p := (p - (p - inject_Z (Qfloor p)))%Q in
  clamp (p * (1 - mask) + floor_p * mask) 0 (inject_Z (Z.of_nat size - 1)).

(** One factor of a trilinear weight. *)
Definition g_factor (size : nat) (sd : side) (p : Q) : Q :=
  match sd with
  | small => (1 + (inject_Z (q_corner size small p) - p_clamped size p))%Q
  | large => (1 - (inject_Z (q_corner size large p) - p_clamped size p))%Q
  end.

(** [_get_x_q]: the flattened index of a corner and the element that
    [gather] reads from [x.view(b, c, -1)]. *)
Definition _get_x_q_index (padded_w padded_d : nat) (qx qy qz : Z) : Z :=
  (qx * Z.of_nat padded_w * Z.of_nat padded_d + qy * Z.of_nat padded_d + qz)%Z.

Definition _get_x_q (x : tensor Q) (bi ci : nat) (qx qy qz : Z) : option Q :=
  match shape x with
  | [_; c; h; w; d] =>
      let index := _get_x_q_index w d qx qy qz in
      if decide (0 ≤ index < Z.of_nat (h * w * d))%Z
      then data x !! ((bi * c + ci) * (h * w * d) + Z.to_nat index)
      else None
  | _ => None
  end.

(** One element [x_offset[bi, ci, i, j, k, n]] of the interpolated
    samples, at position [(i, j, k)] of the strided grid. *)
Definition x_offset_at (offset x : tensor Q) (bi ci i j k n : nat) : option Q :=
  match shape offset, shape x with
  | [_; c3; _; _; _], [_; _; h; w; d] =>
      let N := c3 / 3 in
      px ← _get_p offset bi n (i * stride) (j * stride) (k * stride);
      py ← _get_p offset bi (N + n) (i * stride) (j * stride) (k * stride);
      pz ← _get_p offset bi (2 * N + n) (i * stride) (j * stride) (k * stride);
      let x_q sx sy sz :=
        _get_x_q x bi ci (q_corner h sx px) (q_corner w sy py) (q_corner d sz pz) in
      let g sx sy sz := (g_factor h sx px * g_factor w sy py * g_factor d sz pz)%Q in
      x_q_sss ← x_q small small small;
      x_q_lll ← x_q large large large;
      x_q_ssl ← x_q small small large;
      x_q_sls ← x_q small large small;
      x_q_sll ← x_q small large large;
      x_q_lss ← x_q large small small;
      x_q_lsl ← x_q large small large;
      x_q_lls ← x_q large large small;
      Some (g small small small * x_q_sss + g large large large * x_q_lll
            + g small small large * x_q_ssl + g small large small * x_q_sls
            + g small large large * x_q_sll + g large small small * x_q_lss
            + g large small large * x_q_lsl + g large large small * x_q_lls)%Q
  | _, _ => None
  end.

(** [_reshape_x_offset(x_offset, ks)] *)
Definition _reshape_x_offset (x_offset : tensor Q) : option (tensor Q) :=
  match shape x_offset with
  | [b; c; h; w; d; N] =>
      x_offset ← permute [0; 1; 5; 2; 3; 4] x_offset;
      view x_offset [Some b; Some (c * N); Some h; Some w; Some d]
  | _ => None
  end.

(** The part of [forward] that follows the computation of [offset] and
    the padding of [x]: sampling on the grid strided by [stride], then
    the 1x1x1 projection.  A zero [stride] is a zero slice step. *)
Definition sample (offset x : tensor Q) : option (tensor Q) :=
  match shape offset, shape x with
  | [b; c3; h; w; d], [_; c; _; _; _] =>
      if decide (stride = 0) then None else
      let N := c3 / 3 in
      let strided n := (n + stride - 1) / stride in
      _ ← view x [Some b; Some c; None];
      x_offset ← tabulate [b; c; strided h; strided w; strided d; N]
        (λ idx,
           match idx with
           | [bi; ci; i; j; k; n] => x_offset_at offset x bi ci i j k n
           | _ => None
           end);
      x_offset ← _reshape_x_offset x_offset;
      conv1x1x1 conv_kernel_weight conv_kernel_bias x_offset
  | _, _ => None
  end.

(** [AttDeformConv3d.forward(x)] in either mode. *)
Definition AttDeformConv3d_forward (m : mode) (x : tensor Q) : option (tensor Q) :=
  x ← conv_se x;
  offset ← match m with
           | deformable =>
               offset ← offset_conv_kernel x;
               a ← att offset;
               broadcast_mul offset a
           | regular =>
               match shape x with
               | [b; c; h; w; d] =>
                   let s := [b; 3 * kernel_size ^ 3; h; w; d] in
                   Some (Tensor s (replicate (numel s) 0%Q))
               | _ => None
               end
           end;
  x ← (if decide (padding = 0) then Some x else zero_padding padding x);
  sample offset x.

End AttDeformConv3d.

(** A dense convolution with a cubic kernel, zero padding and a stride,
    as the sum over the taps of the zero-padded input: the coefficient
    of tap [(a, b, c)] of input channel [ci] for output channel [o] is
    entry [((ci * ks + a) * ks + b) * ks + c] of row [o] of [weight]. *)
Definition conv3d (kernel_size stride padding : nat) (weight : list (list Q))
    (bias : option (list Q)) (x : tensor Q) : option (tensor Q) :=
  match shape x with
  | [b; c; h; w; d] =>
      if decide (stride = 0 ∨ h + 2 * padding < kernel_size
                 ∨ w + 2 * padding < kernel_size ∨ d + 2 * padding < kernel_size)
      then None else
      let out n := (n + 2 * padding - kernel_size) / stride + 1 in
      xp ← zero_padding padding x;
      tabulate [b; length weight; out h; out w; out d]
        (λ idx,
           match idx with
           | [bi; o; i; j; k] =>
               xs ← mapM (λ m,
                       match unravel [c; kernel_size; kernel_size; kernel_size] m with
                       | [ci; ta; tb; tc] =>
                           get xp [bi; ci; i * stride + ta; j * stride + tb;
                                   k * stride + tc]
                       | _ => None
                       end)
                     (seq 0 (c * kernel_size ^ 3));
               conv1x1x1_at weight bias o xs
           | _ => None
           end)
  | _ => None
  end.

(** Equality of rational tensors up to the value of their entries. *)
Definition tensor_Qeq (t1 t2 : tensor Q) : Prop :=
  shape t1 = shape t2 ∧ Forall2 Qeq (data t1) (data t2).

(** ** The geometry of a transformer block *)

(** Python's [a % b] on non-negative integers. *)
Definition pymod (a b : nat) : option nat :=
  if decide (b = 0) then None else Some (a mod b).

(** [F.pad(x, (0, 0, pad_l, pad_r, pad_t, pad_b, pad_d0, pad_d1))] on a
    tensor of shape [(B, D, H, W, C)]: the pairs pad the axes from the
    last one backwards, with zeros. *)
Definition F_pad (x : tensor Q) (pad_l pad_r pad_t pad_b pad_d0 pad_d1 : nat)
  : option (tensor Q) :=
  match shape x with
  | [B; D; H; W; C] =>
      tabulate [B; pad_d0 + D + pad_d1; pad_t + H + pad_b; pad_l + W + pad_r; C]
        (λ idx,
           match idx with
           | [b; i; j; k; c] =>
               if decide (pad_d0 ≤ i < pad_d0 + D ∧ pad_t ≤ j < pad_t + H
                          ∧ pad_l ≤ k < pad_l + W)
               then get x [b; i - pad_d0; j - pad_t; k - pad_l; c]
               else Some 0%Q
           | _ => None
           end)
  | _ => None
  end.

(** [torch.roll(x, shifts=(s0, s1, s2), dims=(1, 2, 3))] on a tensor of
    rank five: entry [i] of a rolled axis of extent [n] is entry
    [(i - shift) mod n] of the source. *)
Definition roll_axis (n : nat) (shift : Z) (i : nat) : nat :=
  Z.to_nat ((Z.of_nat i - shift) mod Z.of_nat n).

Definition roll (x : tensor Q) (s0 s1 s2 : Z) : option (tensor Q) :=
  match shape x with
  | [B; D; H; W; C] =>
      tabulate [B; D; H; W; C]
        (λ idx,
           match idx with
           | [b; i; j; k; c] =>
               get x [b; roll_axis D s0 i; roll_axis H s1 j; roll_axis W s2 k; c]
           | _ => None
           end)
  | _ => None
  end.

(** [x[:, :D, :H, :W, :].contiguous()] on a tensor of rank five. *)
Definition crop (x : tensor Q) (D H W : nat) : option (tensor Q) :=
  match shape x with
  | [B; Dp; Hp; Wp; C] =>
      tabulate [B; D `min` Dp; H `min` Hp; W `min` Wp; C]
        (λ idx,
           match idx with
           | [b; i; j; k; c] => get x [b; i; j; k; c]
           | _ => None
           end)
  | _ => None
  end.

Section BottleneckBlock3D.

(** The configured window and shift of the block, its normalisation and
    its attention module. *)
Context {mask : Type}.
Variables self_window_size self_shift_size : list nat.
Variable norm_1 : tensor Q → option (tensor Q).
Variable self_attn_x : tensor Q → option mask → option (tensor Q).

(** [BottleneckBlock3D.forward_part1(x, mask_matrix, cross)]; the four
    streams of [SwinTransformerBlock3D.forward_part1] go through the
    same statements. *)
Definition BottleneckBlock3D_forward_part1 (x : tensor Q) (mask_matrix : mask)
  : option (tensor Q) :=
  match shape x with
  | [B; D; H; W; C] =>
      '(window_size, shift_size) ←
        get_window_size [D; H; W] self_window_size self_shift_size;
      match window_size, shift_size with
      | w0 :: w1 :: w2 :: _, s0 :: s1 :: s2 :: _ =>
          x ← norm_1 x;
          d ← pymod D w0; pad_d1 ← pymod (w0 - d) w0;
          h ← pymod H w1; pad_b ← pymod (w1 - h) w1;
          w ← pymod W w2; pad_r ← pymod (w2 - w) w2;
          x ← F_pad x 0 pad_r 0 pad_b 0 pad_d1;
          match shape x with
          | [_; Dp; Hp; Wp; _] =>
              let shifted := existsb (λ i, bool_decide (0 < i)) shift_size in
              shifted_x ←
                (if shifted
                 then roll x (- Z.of_nat s0) (- Z.of_nat s1) (- Z.of_nat s2)
                 else Some x);
              let attn_mask := if shifted then Some mask_matrix else None in
              x_windows ← window_partition shifted_x window_size;
              attn_windows_x ← self_attn_x x_windows attn_mask;
              attn_windows_x ←
                view attn_windows_x (None :: (Some <$> window_size) ++ [Some C]);
              shifted_x ← window_reverse attn_windows_x window_size B Dp Hp Wp;
              x ← (if shifted
                   then roll shifted_x (Z.of_nat s0) (Z.of_nat s1) (Z.of_nat s2)
                   else Some shifted_x);
              if decide (0 < pad_d1 ∨ 0 < pad_r ∨ 0 < pad_b)
              then crop x D H W else Some x
          | _ => None
          end
      | _, _ => None
      end
  | _ => None
  end.

End BottleneckBlock3D.


(** ** Construction of the blocks of a stage *)

(** The shift of block [i] of a stage: [(0, 0, 0)] for even [i] and
    [tuple(w // 2 for w in window_size)] for odd [i]. *)
Definition BasicLayer_block_shift (window_size : list Z) (i : nat) : list Z :=
  if decide (i mod 2 = 0) then [0; 0; 0]%Z else (λ w, w / 2)%Z <$> window_size.

(** The three assertions of [SwinTransformerBlock3D.__init__] and
    [BottleneckBlock3D.__init__]; a failed assertion or a missing entry
    raises. *)
Definition block_init_asserts (window_size shift_size : list Z) : option unit :=
  match window_size, shift_size with
  | w0 :: w1 :: w2 :: _, s0 :: s1 :: s2 :: _ =>
      if decide ((0 ≤ s0 < w0)%Z ∧ (0 ≤ s1 < w1)%Z ∧ (0 ≤ s2 < w2)%Z)
      then Some () else None
  | _, _ => None
  end.

(** ** The positional encoding *)



(** ** The patch embedding *)

(** Unpacking a tensor into two names iterates its first axis, which
    must have extent 2; each name gets a tensor of one axis less. *)
Definition unpack2 (s : list nat) : option (list nat * list nat) :=
  match s with
  | 2 :: rest => Some (rest, rest)
  | _ => None
  end.

Section PatchEmbed3D.

(** The patch size, the shape of the tensor that [self.proj], a
    [Conv_Stem], returns for an input of a given shape, whether the
    module has a normalisation layer, and its [embed_dim]. *)
Variable patch_size : list nat.
Variable proj : list nat → option (list nat).
Variable has_norm : bool.
Variable embed_dim : nat.

(** One of the three conditional paddings:
    [if n % p != 0: x = F.pad(x, (..., 0, p - n % p))]. *)
Definition pad_to_patch (n p : nat) : option nat :=
  r ← pymod n p;
  if decide (r ≠ 0) then Some (n + (p - r)) else Some n.

(** [PatchEmbed3D.forward] at the level of shapes: the shapes of the two
    tensors it returns.  With a normalisation layer, [x.size(2)],
    [x.size(3)] and [x.size(4)] must exist; [flatten(2)] and the two
    transpositions keep the elements, the layer normalises the axis of
    extent [x.size(1)], and the final [view] infers the leading extent. *)
Definition PatchEmbed3D_forward_shape (x : list nat)
  : option (list nat * list nat) :=
  match x with
  | [B; C; D; H; W] =>
      p2 ← patch_size !! 2; W ← pad_to_patch W p2;
      p1 ← patch_size !! 1; H ← pad_to_patch H p1;
      p0 ← patch_size !! 0; D ← pad_to_patch D p0;
      y ← proj [B; C; D; H; W];
      '(x_2, x) ← unpack2 y;
      if has_norm then
        match x with
        | a :: b :: D :: H :: W :: rest =>
            if decide (b = embed_dim) then
              s ← infer_size [None; Some embed_dim; Some D; Some H; Some W] (numel x);
              Some (x_2, s)
            else None
        | _ => None
        end
      else Some (x_2, x)
  | _ => None
  end.

End PatchEmbed3D.

(** ** Soundness of the cache *)


(** ** The stochastic-depth schedule *)

(** A Python list slice [l[a:b]] with non-negative bounds. *)
Definition py_slice {A} (l : list A) (a b : nat) : list A := take (b - a) (drop a l).

(** The rates that [Encoder.__init__] hands to stage [i_layer]:
    [dpr[sum(depths[:i_layer]):sum(depths[:i_layer + 1])]]. *)
Definition layer_drop_path {A} (depths : list nat) (dpr : list A) (i_layer : nat)
  : list A :=
  py_slice dpr (sum_list (take i_layer depths)) (sum_list (take (i_layer + 1) depths)).

(** ** The mask inside windowed attention *)

(** Broadcasting of two shapes of any ranks: the shorter one is aligned
    to the right. *)
Definition broadcast_shapes (sa sb : list nat) : option (list nat) :=
  let n := length sa `max` length sb in
  broadcast_shape (replicate (n - length sa) 1 ++ sa)
                  (replicate (n - length sb) 1 ++ sb).

(** The masked branch of [SelfWindowAttention3D.forward] and
    [CrossWindowAttention3D.forward] at the level of shapes, for scores
    [attn] of shape [(B_, num_heads, N, N)]:
    [attn.view(B_ // nW, nW, num_heads, N, N) + mask.unsqueeze(1).unsqueeze(0)]
    and then [view(-1, num_heads, N, N)]. *)
Definition masked_attn_shape (num_heads B_ N : nat) (mask : list nat)
  : option (list nat) :=
  nW ← mask !! 0;
  q ← floordiv B_ nW;
  attn ← infer_size (Some <$> [q; nW; num_heads; N; N]) (numel [B_; num_heads; N; N]);
  attn ← broadcast_shapes attn (1 :: take 1 mask ++ 1 :: drop 1 mask);
  infer_size [None; Some num_heads; Some N; Some N] (numel attn).

(** ** The four modalities *)

(** [x[:, k, :, :, :]] on a five-dimensional tensor. *)
Definition select_channel {A} (x : tensor A) (k : nat) : option (tensor A) :=
  match shape x with
  | [B; C; D; H; W] =>
      if decide (k < C) then
        tabulate [B; D; H; W]
          (λ idx,
             match idx with
             | [b; d; h; w] => get x [b; k; d; h; w]
             | _ => None
             end)
      else None
  | _ => None
  end.

(** [torch.cat(ts, dim=1)]: the tensors agree in every extent but the
    second; entry [c] of the second axis of the result is found in the
    first tensor whose channels reach it. *)
Fixpoint cat1_get {A} (ts : list (tensor A)) (b c : nat) (rest : list nat) : option A :=
  match ts with
  | [] => None
  | t :: ts' =>
      match shape t with
      | _ :: Ct :: _ =>
          if decide (c < Ct) then get t (b :: c :: rest)
          else cat1_get ts' b (c - Ct) rest
      | _ => None
      end
  end.

Definition torch_cat1 {A} (ts : list (tensor A)) : option (tensor A) :=
  match ts with
  | t :: _ =>
      match shape t with
      | B :: _ :: rest =>
          if forallb (λ t', bool_decide (take 1 (shape t') = [B]
                                         ∧ drop 2 (shape t') = rest
                                         ∧ 2 ≤ length (shape t'))) ts then
            let C := sum_list ((λ t', default 0 (shape t' !! 1)) <$> ts) in
            tabulate (B :: C :: rest)
              (λ idx,
                 match idx with
                 | b :: c :: rest' => cat1_get ts b c rest'
                 | _ => None
                 end)
          else None
      | _ => None
      end
  | [] => None
  end.

Section extract.
Context {A R : Type}.

(** The encoder, as the function of the four modalities it computes. *)
Variable encoder : tensor A → tensor A → tensor A → tensor A → option R.

(** [extract.forward(inputs)] *)
Definition extract_forward (inputs : tensor A) : option (tensor A * R) :=
  t1 ← unsqueeze 1 <$> select_channel inputs 0;
  t1ce ← unsqueeze 1 <$> select_channel inputs 1;
  t2 ← unsqueeze 1 <$> select_channel inputs 2;
  flair ← unsqueeze 1 <$> select_channel inputs 3;
  z ← encoder t1 t1ce t2 flair;
  z0 ← torch_cat1 [t1; t1ce; t2; flair];
  Some (z0, z).

End extract.

(** ** The multi-modal transformer block *)

Section SwinTransformerBlock3D_streams.

(** The configured window and shift of the block and its modules.  A
    window value is a tensor or the exception its computation raised
    ([None]); [add] is the sum of two attention outputs. *)
Context {mask : Type}.
Variables self_window_size self_shift_size : list nat.
Variables norm_t1_1 norm_t1ce_1 norm_t2_1 norm_flair_1 : tensor Q → option (tensor Q).
Variable self : @block_modules (option (tensor Q)) mask.
Variable add : option (tensor Q) → option (tensor Q) → option (tensor Q).

(** [SwinTransformerBlock3D.forward_part1(t1, t1ce, t2, flair,
    mask_matrix, cross)].  The window, the paddings and the channel
    count come from [t1]; the padded extents are read off the padded
    [t1]. *)
Definition SwinTransformerBlock3D_forward_part1 (t1 t1ce t2 flair : tensor Q)
    (mask_matrix : mask) (cross : bool)
  : option (tensor Q * tensor Q * tensor Q * tensor Q) :=
  match shape t1 with
  | [B; D; H; W; C] =>
      '(window_size, shift_size) ←
        get_window_size [D; H; W] self_window_size self_shift_size;
      match window_size, shift_size with
      | w0 :: w1 :: w2 :: _, s0 :: s1 :: s2 :: _ =>
          t1 ← norm_t1_1 t1;
          t1ce ← norm_t1ce_1 t1ce;
          t2 ← norm_t2_1 t2;
          flair ← norm_flair_1 flair;
          d ← pymod D w0; pad_d1 ← pymod (w0 - d) w0;
          h ← pymod H w1; pad_b ← pymod (w1 - h) w1;
          w ← pymod W w2; pad_r ← pymod (w2 - w) w2;
          t1 ← F_pad t1 0 pad_r 0 pad_b 0 pad_d1;
          t1ce ← F_pad t1ce 0 pad_r 0 pad_b 0 pad_d1;
          t2 ← F_pad t2 0 pad_r 0 pad_b 0 pad_d1;
          flair ← F_pad flair 0 pad_r 0 pad_b 0 pad_d1;
          match shape t1 with
          | [_; Dp; Hp; Wp; _] =>
              let shifted := existsb (λ i, bool_decide (0 < i)) shift_size in
              let shift x :=
                if shifted
                then roll x (- Z.of_nat s0) (- Z.of_nat s1) (- Z.of_nat s2)
                else Some x in
              shifted_t1 ← shift t1;
              shifted_t1ce ← shift t1ce;
              shifted_t2 ← shift t2;
              shifted_flair ← shift flair;
              let attn_mask := if shifted then Some mask_matrix else None in
              t1_windows ← window_partition shifted_t1 window_size;
              t1ce_windows ← window_partition shifted_t1ce window_size;
              t2_windows ← window_partition shifted_t2 window_size;
              flair_windows ← window_partition shifted_flair window_size;
              let '(attn_windows_t1, attn_windows_t1ce,
                    attn_windows_t2, attn_windows_flair) :=
                attention_stage add self (Some t1_windows) (Some t1ce_windows)
                                (Some t2_windows) (Some flair_windows) attn_mask cross in
              attn_windows_t1 ← attn_windows_t1;
              attn_windows_t1ce ← attn_windows_t1ce;
              attn_windows_t2 ← attn_windows_t2;
              attn_windows_flair ← attn_windows_flair;
              let merged := None :: (Some <$> window_size) ++ [Some C] in
              attn_windows_t1 ← view attn_windows_t1 merged;
              attn_windows_t1ce ← view attn_windows_t1ce merged;
              attn_windows_t2 ← view attn_windows_t2 merged;
              attn_windows_flair ← view attn_windows_flair merged;
              shifted_t1 ← window_reverse attn_windows_t1 window_size B Dp Hp Wp;
              shifted_t1ce ← window_reverse attn_windows_t1ce window_size B Dp Hp Wp;
              shifted_t2 ← window_reverse attn_windows_t2 window_size B Dp Hp Wp;
              shifted_flair ← window_reverse attn_windows_flair window_size B Dp Hp Wp;
              let unshift x :=
                if shifted
                then roll x (Z.of_nat s0) (Z.of_nat s1) (Z.of_nat s2)
                else Some x in
              t1 ← unshift shifted_t1;
              t1ce ← unshift shifted_t1ce;
              t2 ← unshift shifted_t2;
              flair ← unshift shifted_flair;
              if decide (0 < pad_d1 ∨ 0 < pad_r ∨ 0 < pad_b)
              then
                t1 ← crop t1 D H W;
                t1ce ← crop t1ce D H W;
                t2 ← crop t2 D H W;
                flair ← crop flair D H W;
                Some (t1, t1ce, t2, flair)
              else Some (t1, t1ce, t2, flair)
          | _ => None
          end
      | _, _ => None
      end
  | _ => None
  end.

End SwinTransformerBlock3D_streams.

(* ==== END OF DEFINITIONS ==== *)

(** * Properties *)

(** ** Index arithmetic of row-major tensors *)

Lemma numel_app s1 s2 : numel (s1 ++ s2) = numel s1 * numel s2.
Proof. induction s1 as [|n s1 IH]; simpl; [lia | rewrite IH; lia]. Qed.

Lemma length_unravel s i : length (unravel s i) = length s.
Proof. revert i; induction s as [|n s IH]; intros i; simpl; [done | by rewrite IH]. Qed.

Lemma unravel_bounded s i : i < numel s → Forall2 lt (unravel s i) s.
Proof.
  revert i; induction s as [|n s IH]; intros i Hi; simpl in *; [constructor|].
  assert (Hpos : 0 < numel s) by (destruct (numel s); lia).
  constructor.
  - apply Nat.Div0.div_lt_upper_bound. lia.
  - apply IH, Nat.mod_upper_bound. lia.
Qed.

Lemma ravel_unravel s i : i < numel s → ravel s (unravel s i) = i.
Proof.
  revert i; induction s as [|n s IH]; intros i Hi; simpl in *; [lia|].
  assert (Hpos : 0 < numel s) by (destruct (numel s); lia).
  rewrite IH by (apply Nat.mod_upper_bound; lia).
  pose proof (Nat.div_mod_eq i (numel s)). lia.
Qed.

Lemma ravel_bounded s idx : Forall2 lt idx s → ravel s idx < numel s.
Proof.
  revert idx; induction s as [|n s IH]; intros idx H; inversion H; subst; simpl; [lia|].
  match goal with H : Forall2 lt _ s |- _ => apply IH in H end. nia.
Qed.

Lemma unravel_ravel s idx : Forall2 lt idx s → unravel s (ravel s idx) = idx.
Proof.
  revert idx; induction s as [|n s IH]; intros idx H; inversion H; subst; simpl; [done|].
  match goal with H : Forall2 lt _ s |- _ =>
    pose proof (ravel_bounded _ _ H) as Hb; pose proof (IH _ H) as Hr end.
  f_equal.
  - rewrite Nat.div_add_l by lia. rewrite Nat.div_small by done. lia.
  - rewrite Nat.add_comm, Nat.Div0.mod_add, Nat.mod_small by done. done.
Qed.

Lemma offset_strides s idx : offset (strides s) idx = ravel s idx.
Proof.
  revert idx; induction s as [|n s IH]; intros [|k idx]; simpl; try done.
  by rewrite IH.
Qed.

Lemma mapM_lookup_seq {A} (l : list A) (f : nat → nat) n :
  n = length l → (∀ j, j < n → f j = j) →
  mapM (λ j, l !! f j) (seq 0 n) = Some l.
Proof.
  intros -> Hf. apply mapM_Some. apply Forall2_same_length_lookup_2.
  - by rewrite length_seq.
  - intros i x y Hx Hy. apply lookup_seq in Hx as [-> Hlt]. simpl.
    by rewrite Hf.
Qed.

(** ** What [view] and [permute] return *)

Lemma given_Some (s : list nat) : given (Some <$> s) = s.
Proof. unfold given. induction s as [|a s IH]; csimpl; [done | by f_equal]. Qed.

Lemma map_default_Some (s : list nat) (c : nat) : map (default c) (Some <$> s) = s.
Proof. induction s as [|a s IH]; csimpl; [done | by f_equal]. Qed.

Lemma infer_size_all (s : list nat) n :
  n = numel s → infer_size (Some <$> s) n = Some s.
Proof.
  intros ->. unfold infer_size.
  rewrite given_Some, length_fmap, Nat.sub_diag. by rewrite decide_True.
Qed.

Lemma view_all {A} (t : tensor A) (s : list nat) :
  length (data t) = numel s → view t (Some <$> s) = Some (Tensor s (data t)).
Proof. intros H. unfold view. by rewrite (infer_size_all s _ H). Qed.

Lemma permute_Some {A} dims (t t' : tensor A) :
  permute dims t = Some t' →
  shape t' = select dims (shape t) ∧
  length (data t') = numel (shape t') ∧
  ∀ j, j < numel (shape t') →
    data t' !! j
    = data t !! offset (select dims (strides (shape t))) (unravel (shape t') j).
Proof.
  unfold permute. destruct (is_permutation _ _); [|done].
  destruct (mapM _ _) as [d'|] eqn:E; [|done]. simpl. intros [= <-]. simpl.
  apply mapM_Some in E. split; [done|].
  pose proof (Forall2_length _ _ _ E) as Hlen. rewrite length_seq in Hlen.
  split; [done|]. intros j Hj.
  destruct (lookup_lt_is_Some_2 d' j) as [y Hy]; [lia|].
  assert (Hs : seq 0 (numel (select dims (shape t))) !! j = Some j)
    by (apply lookup_seq; lia).
  rewrite Hy. symmetry. exact (Forall2_lookup_lr _ _ _ _ _ _ E Hs Hy).
Qed.

Lemma permute_is_Some {A} dims (t : tensor A) :
  is_permutation dims (length (shape t)) = true →
  (∀ j, j < numel (select dims (shape t)) →
     offset (select dims (strides (shape t))) (unravel (select dims (shape t)) j)
     < length (data t)) →
  is_Some (permute dims t).
Proof.
  intros Hp Hb. unfold permute. rewrite Hp.
  destruct (mapM _ _) as [d'|] eqn:E; [by eexists|].
  exfalso. apply eq_None_not_Some in E. apply E. apply mapM_is_Some.
  apply Forall_forall. intros j Hj%elem_of_seq.
  apply lookup_lt_is_Some_2, Hb. lia.
Qed.

(** ** Partition and reverse *)

(** The two permutations of the eight window axes read each other's
    storage: copying through the strides of one is indexing the source
    at the multi-index rearranged by the other. *)
Lemma offset_partition_perm s0 s1 s2 s3 s4 s5 s6 s7 i0 i1 i2 i3 i4 i5 i6 i7 :
  offset (select [0; 1; 3; 5; 2; 4; 6; 7] (strides [s0; s1; s2; s3; s4; s5; s6; s7]))
         [i0; i1; i2; i3; i4; i5; i6; i7]
  = ravel [s0; s1; s2; s3; s4; s5; s6; s7] [i0; i1; i4; i2; i5; i3; i6; i7].
Proof. simpl. lia. Qed.

Lemma offset_reverse_perm s0 s1 s2 s3 s4 s5 s6 s7 i0 i1 i2 i3 i4 i5 i6 i7 :
  offset (select [0; 1; 4; 2; 5; 3; 6; 7] (strides [s0; s1; s2; s3; s4; s5; s6; s7]))
         [i0; i1; i2; i3; i4; i5; i6; i7]
  = ravel [s0; s1; s2; s3; s4; s5; s6; s7] [i0; i1; i3; i5; i2; i4; i6; i7].
Proof. simpl. lia. Qed.

Ltac list8 H i0 i1 i2 i3 i4 i5 i6 i7 :=
  match type of H with
  | Forall2 _ ?l _ =>
      let Hl := fresh "Hl" in
      pose proof (Forall2_length _ _ _ H) as Hl;
      destruct l as [|i0 [|i1 [|i2 [|i3 [|i4 [|i5 [|i6 [|i7 [|? ?]]]]]]]]];
      try discriminate Hl; clear Hl
  end.

Ltac forall2_inv H :=
  repeat match type of H with
         | Forall2 _ (_ :: _) (_ :: _) =>
             let H1 := fresh "Hlt" in
             apply Forall2_cons_1 in H as [H1 H]
         end.

Lemma partition_source_bounded s0 s1 s2 s3 s4 s5 s6 s7 j :
  j < numel [s0; s1; s3; s5; s2; s4; s6; s7] →
  offset (select [0; 1; 3; 5; 2; 4; 6; 7] (strides [s0; s1; s2; s3; s4; s5; s6; s7]))
         (unravel [s0; s1; s3; s5; s2; s4; s6; s7] j)
  < numel [s0; s1; s2; s3; s4; s5; s6; s7].
Proof.
  intros Hj. pose proof (unravel_bounded _ _ Hj) as Hb.
  list8 Hb i0 i1 i2 i3 i4 i5 i6 i7.
  rewrite offset_partition_perm. apply ravel_bounded.
  forall2_inv Hb. repeat (apply Forall2_cons_2; [done|]). apply Forall2_nil_2.
Qed.

Lemma reverse_source_bounded s0 s1 s2 s3 s4 s5 s6 s7 j :
  j < numel [s0; s1; s4; s2; s5; s3; s6; s7] →
  offset (select [0; 1; 4; 2; 5; 3; 6; 7] (strides [s0; s1; s2; s3; s4; s5; s6; s7]))
         (unravel [s0; s1; s4; s2; s5; s3; s6; s7] j)
  < numel [s0; s1; s2; s3; s4; s5; s6; s7].
Proof.
  intros Hj. pose proof (unravel_bounded _ _ Hj) as Hb.
  list8 Hb i0 i1 i2 i3 i4 i5 i6 i7.
  rewrite offset_reverse_perm. apply ravel_bounded.
  forall2_inv Hb. repeat (apply Forall2_cons_2; [done|]). apply Forall2_nil_2.
Qed.

(** Reading the partitioned storage back through the reverse permutation
    visits the original positions in order. *)
Lemma reverse_after_partition s0 s1 s2 s3 s4 s5 s6 s7 m :
  m < numel [s0; s1; s2; s3; s4; s5; s6; s7] →
  offset (select [0; 1; 3; 5; 2; 4; 6; 7] (strides [s0; s1; s2; s3; s4; s5; s6; s7]))
    (unravel [s0; s1; s3; s5; s2; s4; s6; s7]
       (offset (select [0; 1; 4; 2; 5; 3; 6; 7]
                  (strides [s0; s1; s3; s5; s2; s4; s6; s7]))
               (unravel [s0; s1; s2; s3; s4; s5; s6; s7] m)))
  = m.
Proof.
  intros Hm. pose proof (unravel_bounded _ _ Hm) as Hb.
  pose proof (ravel_unravel _ _ Hm) as Hr.
  list8 Hb i0 i1 i2 i3 i4 i5 i6 i7.
  rewrite offset_reverse_perm, unravel_ravel.
  - by rewrite offset_partition_perm.
  - forall2_inv Hb. repeat (apply Forall2_cons_2; [done|]). apply Forall2_nil_2.
Qed.

Lemma view_infer_last {A} (t : tensor A) (s : list nat) (c : nat) :
  0 < numel s → length (data t) = numel s * c →
  view t ((Some <$> s) ++ [None]) = Some (Tensor (s ++ [c]) (data t)).
Proof.
  intros Hpos Hlen. unfold view, infer_size.
  assert (E : given ((Some <$> s) ++ [None]) = s).
  { unfold given. rewrite omap_app. fold (given (Some <$> s)).
    rewrite given_Some. csimpl. apply app_nil_r. }
  rewrite E, length_app, length_fmap. simpl.
  replace (length s + 1 - length s) with 1 by lia.
  rewrite (Nat.mul_comm (numel s)) in Hlen.
  rewrite decide_True by (split; [done | rewrite Hlen; apply Nat.Div0.mod_mul]).
  simpl. do 2 f_equal. rewrite map_app, Hlen, Nat.div_mul by lia. simpl.
  f_equal. apply map_default_Some.
Qed.

Lemma view_infer_first {A} (t : tensor A) (s : list nat) (n : nat) :
  0 < numel s → length (data t) = n * numel s →
  view t (None :: (Some <$> s)) = Some (Tensor (n :: s) (data t)).
Proof.
  intros Hpos Hlen. unfold view, infer_size.
  assert (E : given (None :: (Some <$> s)) = s) by apply given_Some.
  rewrite E. cbn [length]. rewrite length_fmap.
  replace (S (length s) - length s) with 1 by lia.
  rewrite decide_True by (split; [done | rewrite Hlen; apply Nat.Div0.mod_mul]).
  cbn [mbind option_bind map default]. do 2 f_equal.
  rewrite map_default_Some, Hlen, Nat.div_mul by lia. done.
Qed.

(** ** Window partition succeeds on padded volumes *)

Lemma window_partition_Some {A} (x : tensor A) B nd nh nw C w0 w1 w2 :
  wf x → shape x = [B; nd * w0; nh * w1; nw * w2; C] →
  0 < w0 → 0 < w1 → 0 < w2 → 0 < C →
  ∃ d',
    window_partition x [w0; w1; w2]
    = Some (Tensor [B * nd * nh * nw; w0 * w1 * w2; C] d') ∧
    length d' = length (data x) ∧
    ∀ j, j < length d' →
      d' !! j
      = data x !! offset (select [0; 1; 3; 5; 2; 4; 6; 7]
                            (strides [B; nd; w0; nh; w1; nw; w2; C]))
                         (unravel [B; nd; nh; nw; w0; w1; w2; C] j).
Proof.
  destruct x as [s d]. unfold wf. simpl. intros Hwf -> H0 H1 H2 HC.
  unfold window_partition. simpl. unfold floordiv.
  rewrite !decide_False by lia. simpl. rewrite !Nat.div_mul by lia.
  assert (Hv : view (Tensor [B; nd * w0; nh * w1; nw * w2; C] d)
                 [Some B; Some nd; Some w0; Some nh; Some w1; Some nw; Some w2; Some C]
               = Some (Tensor [B; nd; w0; nh; w1; nw; w2; C] d)).
  { refine (view_all (Tensor _ d) [B; nd; w0; nh; w1; nw; w2; C] _).
    simpl in *. lia. }
  rewrite Hv. simpl.
  destruct (permute_is_Some [0; 1; 3; 5; 2; 4; 6; 7]
              (Tensor [B; nd; w0; nh; w1; nw; w2; C] d)) as [x2 Hx2].
  { done. }
  { simpl shape. simpl data. intros j Hj.
    replace (length d) with (numel [B; nd; w0; nh; w1; nw; w2; C])
      by (simpl in *; lia).
    by apply partition_source_bounded. }
  rewrite Hx2. simpl.
  apply permute_Some in Hx2 as (Hs & Hl & Hd). simpl in Hs.
  rewrite Hs in Hl, Hd.
  assert (Hv2 : view x2 [None; Some (w0 * w1 * w2); Some C]
                = Some (Tensor [B * nd * nh * nw; w0 * w1 * w2; C] (data x2))).
  { refine (view_infer_first x2 [w0 * w1 * w2; C] _ _ _); simpl in *; nia. }
  rewrite Hv2. exists (data x2). split; [done|].
  split; [simpl in *; lia|]. intros j Hj. apply Hd. lia.
Qed.

Lemma window_reverse_partition_mult {A} (x : tensor A) B nd nh nw C w0 w1 w2 :
  wf x → shape x = [B; nd * w0; nh * w1; nw * w2; C] →
  0 < B → 0 < nd → 0 < nh → 0 < nw → 0 < C →
  0 < w0 → 0 < w1 → 0 < w2 →
  window_partition x [w0; w1; w2]
    ≫= (λ windows, window_reverse windows [w0; w1; w2]
                      B (nd * w0) (nh * w1) (nw * w2))
  = Some x.
Proof.
  intros Hwf Hs HB Hnd Hnh Hnw HC H0 H1 H2.
  destruct (window_partition_Some x B nd nh nw C w0 w1 w2)
    as (d' & -> & Hl & Hd); try done.
  destruct x as [s d]. unfold wf in Hwf. cbn [shape data] in *. subst s.
  unfold window_reverse, floordiv.
  rewrite !decide_False by lia. simpl. rewrite !Nat.div_mul by lia.
  assert (Hn : 0 < B * nd * nh * nw * w0 * w1 * w2)
    by (repeat apply Nat.mul_pos_pos; done).
  assert (Hv : view (Tensor [B * nd * nh * nw; w0 * w1 * w2; C] d')
                 [Some B; Some nd; Some nh; Some nw; Some w0; Some w1; Some w2; None]
               = Some (Tensor [B; nd; nh; nw; w0; w1; w2; C] d')).
  { refine (view_infer_last (Tensor _ d') [B; nd; nh; nw; w0; w1; w2] C _ _);
      simpl in *; lia. }
  rewrite Hv. simpl.
  destruct (permute_is_Some [0; 1; 4; 2; 5; 3; 6; 7]
              (Tensor [B; nd; nh; nw; w0; w1; w2; C] d')) as [x3 Hx3].
  { done. }
  { simpl shape. simpl data. intros j Hj.
    replace (length d') with (numel [B; nd; nh; nw; w0; w1; w2; C])
      by (simpl in *; lia).
    by apply reverse_source_bounded. }
  rewrite Hx3. simpl.
  apply permute_Some in Hx3 as (Hs3 & Hl3 & Hd3). simpl in Hs3.
  rewrite Hs3 in Hl3, Hd3. simpl data in Hd3.
  assert (Hv3 : view x3 [Some B; Some (nd * w0); Some (nh * w1); Some (nw * w2); None]
                = Some (Tensor [B; nd * w0; nh * w1; nw * w2; C] (data x3))).
  { refine (view_infer_last x3 [B; nd * w0; nh * w1; nw * w2] C _ _);
      simpl in *; lia. }
  rewrite Hv3. do 2 f_equal.
  apply list_eq. intros m.
  destruct (decide (m < length d)) as [Hm|Hm].
  - assert (Hm8 : m < numel [B; nd; w0; nh; w1; nw; w2; C]) by (simpl in *; lia).
    rewrite Hd3 by done.
    rewrite Hd.
    + by rewrite reverse_after_partition.
    + rewrite Hl, Hwf.
      replace (numel [B; nd * w0; nh * w1; nw * w2; C])
        with (numel [B; nd; nh; nw; w0; w1; w2; C]) by (simpl; lia).
      apply reverse_source_bounded. simpl in *. lia.
  - rewrite !lookup_ge_None_2; [done | lia | simpl in *; lia].
Qed.

(** C1 (amended).  For every non-empty tensor [x] of shape
    [(B, D, H, W, C)] (all five extents at least 1) and every window
    size [(w0, w1, w2)] of positive integers dividing [D], [H] and [W],
    [window_reverse (window_partition x ws) ws B D H W] returns [x]
    itself: same shape, same elements in the same order. *)
Theorem window_reverse_partition {A} (x : tensor A) B D H W C w0 w1 w2 :
  wf x → shape x = [B; D; H; W; C] →
  0 < B → 0 < D → 0 < H → 0 < W → 0 < C →
  0 < w0 → 0 < w1 → 0 < w2 →
  D mod w0 = 0 → H mod w1 = 0 → W mod w2 = 0 →
  window_partition x [w0; w1; w2]
    ≫= (λ windows, window_reverse windows [w0; w1; w2] B D H W)
  = Some x.
Proof.
  intros Hwf Hs HB HD HH HW HC H0 H1 H2 Hd Hh Hw.
  apply Nat.Div0.div_exact in Hd, Hh, Hw.
  rewrite (Nat.mul_comm w0) in Hd. rewrite (Nat.mul_comm w1) in Hh.
  rewrite (Nat.mul_comm w2) in Hw.
  rewrite Hd, Hh, Hw in Hs |- *.
  apply (window_reverse_partition_mult x B (D / w0) (H / w1) (W / w2) C);
    try done; destruct (D / w0), (H / w1), (W / w2); lia.
Qed.

Lemma window_reverse_partition_witness :
  let x := Tensor [1; 2; 4; 2; 1] (seq 0 16) in
  window_partition x [2; 2; 1]
    ≫= (λ windows, window_reverse windows [2; 2; 1] 1 2 4 2)
  = Some x.
Proof.
  apply (window_reverse_partition (Tensor [1; 2; 4; 2; 1] (seq 0 16))
           1 2 4 2 1 2 2 1); try reflexivity; lia.
Defined.

(** C1 as stated fails on tensors without elements: with [C = 0] the
    inferred leading dimension of [view(-1, Wd*Wh*Ww, C)] is ambiguous
    and [window_partition] raises. *)
Lemma window_reverse_partition_empty :
  ¬ (∀ (x : tensor Z) B D H W C w0 w1 w2,
       wf x → shape x = [B; D; H; W; C] →
       0 < w0 → 0 < w1 → 0 < w2 →
       D mod w0 = 0 → H mod w1 = 0 → W mod w2 = 0 →
       window_partition x [w0; w1; w2]
         ≫= (λ windows, window_reverse windows [w0; w1; w2] B D H W)
       = Some x).
Proof.
  intros Hall.
  specialize (Hall (Tensor [1; 1; 1; 1; 0] []) 1 1 1 1 0 1 1 1).
  discriminate Hall; try reflexivity; lia.
Qed.

(** ** Effective window and shift *)

(** C7.  [get_window_size] decides each of the three axes on its own:
    where the extent is at most the configured window, the effective
    window is the extent and the effective shift is 0; elsewhere both
    keep their configured values.  The effective window never exceeds
    the extent. *)
Theorem get_window_size_axes (x0 x1 x2 w0 w1 w2 s0 s1 s2 : nat) :
  let window x w := if decide (x ≤ w) then x else w in
  let shift x w s := if decide (x ≤ w) then 0 else s in
  get_window_size [x0; x1; x2] [w0; w1; w2] [s0; s1; s2]
  = Some ([window x0 w0; window x1 w1; window x2 w2],
          [shift x0 w0 s0; shift x1 w1 s1; shift x2 w2 s2])
  ∧ window x0 w0 ≤ x0 ∧ window x1 w1 ≤ x1 ∧ window x2 w2 ≤ x2.
Proof.
  unfold get_window_size, get_window_size_step. simpl.
  repeat case_decide; simpl; repeat split; try done; lia.
Qed.

(** ** The attention mask *)

Lemma tabulate_Some {A} s (f : list nat → option A) t :
  tabulate s f = Some t →
  shape t = s ∧ length (data t) = numel s ∧
  ∀ j, j < numel s → data t !! j = f (unravel s j).
Proof.
  unfold tabulate. destruct (mapM _ _) as [d|] eqn:E; [|done].
  simpl. intros [= <-]. simpl. apply mapM_Some in E.
  pose proof (Forall2_length _ _ _ E) as Hlen. rewrite length_seq in Hlen.
  repeat split; [done|]. intros j Hj.
  destruct (lookup_lt_is_Some_2 d j) as [y Hy]; [lia|].
  assert (Hs : seq 0 (numel s) !! j = Some j) by (apply lookup_seq; lia).
  rewrite Hy. symmetry. exact (Forall2_lookup_lr _ _ _ _ _ _ E Hs Hy).
Qed.

Lemma tabulate_is_Some {A} s (f : list nat → option A) :
  (∀ j, j < numel s → is_Some (f (unravel s j))) → is_Some (tabulate s f).
Proof.
  intros Hf. unfold tabulate.
  destruct (mapM _ _) as [d|] eqn:E; [by eexists|].
  exfalso. apply eq_None_not_Some in E. apply E, mapM_is_Some.
  apply Forall_forall. intros j Hj%elem_of_seq.
  apply Hf. lia.
Qed.

Lemma assign_region_shape img d h w v : shape (assign_region img d h w v) = shape img.
Proof. done. Qed.

Lemma assign_region_length img d h w v :
  length (data (assign_region img d h w v)) = length (data img).
Proof. simpl. apply length_imap. Qed.

Lemma label_regions_shape img sd sh sw :
  shape (label_regions img sd sh sw).1 = shape img ∧
  length (data (label_regions img sd sh sw).1) = length (data img).
Proof.
  unfold label_regions. generalize 0%Z. intros cnt.
  revert img cnt. induction sd as [|d sd IHd]; intros img cnt; simpl; [done|].
  match goal with |- context [foldl _ (foldl ?f (img, cnt) sh) sd] =>
    assert (Hsh : ∀ st, shape (foldl f st sh).1 = shape st.1 ∧
                        length (data (foldl f st sh).1) = length (data st.1)) end.
  { clear IHd. induction sh as [|h sh IHh]; intros st; simpl; [done|].
    destruct (IHh (foldl (λ '(img0, cnt0) w,
                     (assign_region img0 d h w cnt0, (cnt0 + 1)%Z)) st sw))
      as [-> ->].
    clear IHh. revert st. induction sw as [|w sw IHw]; intros [i c]; simpl; [done|].
    destruct (IHw (assign_region i d h w c, (c + 1)%Z)) as [-> ->].
    simpl. split; [done | apply length_imap]. }
  destruct (foldl _ (img, cnt) sh) as [img' cnt'] eqn:E.
  destruct (IHd img' cnt') as [-> ->].
  specialize (Hsh (img, cnt)). rewrite E in Hsh. done.
Qed.

Lemma masked_fill_twice (t : tensor Z) :
  data (masked_fill (masked_fill t (ne_zero t) (-100)) (eq_zero t) 0)
  = (λ v, if decide (v = 0%Z) then 0%Z else (-100)%Z) <$> data t.
Proof.
  unfold masked_fill, ne_zero, eq_zero. simpl.
  induction (data t) as [|v l IH]; csimpl; [done|]. f_equal; [|done].
  repeat case_bool_decide; case_decide; done.
Qed.

Lemma broadcast_shape_pairwise N V :
  broadcast_shape [N; 1; V] [N; V; 1] = Some [N; V; V].
Proof.
  unfold broadcast_shape. simpl.
  repeat (case_decide; simpl; subst); try done; lia.
Qed.

Lemma pairwise_operands (d : list Z) N V n i j :
  n < N → i < V → j < V →
  get (Tensor [N; 1; V] d) (broadcast_index [N; 1; V] [n; i; j]) = d !! (n * V + j) ∧
  get (Tensor [N; V; 1] d) (broadcast_index [N; V; 1] [n; i; j]) = d !! (n * V + i).
Proof.
  intros Hn Hi Hj. unfold get, broadcast_index. simpl.
  split; repeat case_decide; f_equal; nia.
Qed.

Lemma unravel3 N V f :
  f < N * V * V →
  ∃ n i j, unravel [N; V; V] f = [n; i; j] ∧ n < N ∧ i < V ∧ j < V ∧
           f = n * (V * V) + i * V + j.
Proof.
  intros Hf.
  assert (Hf' : f < numel [N; V; V]) by (simpl; lia).
  pose proof (unravel_bounded _ _ Hf') as Hb.
  pose proof (ravel_unravel _ _ Hf') as Hr.
  destruct (unravel [N; V; V] f) as [|n [|i [|j [|? ?]]]];
    try (apply Forall2_length in Hb; discriminate Hb).
  exists n, i, j. forall2_inv Hb. simpl in Hr. repeat split; try done. lia.
Qed.

(** The mask built from a tensor of per-window labels. *)
Lemma mask_of_labels (d : list Z) N V :
  length d = N * V →
  ∃ m,
    (attn_mask ← broadcast_sub (unsqueeze 1 (squeeze_last (Tensor [N; V; 1] d)))
                               (unsqueeze 2 (squeeze_last (Tensor [N; V; 1] d)));
     Some (masked_fill (masked_fill attn_mask (ne_zero attn_mask) (-100))
                       (eq_zero attn_mask) 0)) = Some m ∧
    shape m = [N; V; V] ∧ length (data m) = N * V * V ∧
    ∀ n i j, n < N → i < V → j < V →
      ∃ a b, d !! (n * V + i) = Some a ∧ d !! (n * V + j) = Some b ∧
             data m !! (n * (V * V) + i * V + j)
             = Some (if decide (a = b) then 0%Z else (-100)%Z).
Proof.
  intros Hlen. unfold squeeze_last, unsqueeze, broadcast_sub. simpl.
  change (reverse [N; V; 1]) with [1; V; N]. simpl.
  change (reverse [V; N]) with [N; V]. simpl.
  rewrite broadcast_shape_pairwise. simpl.
  match goal with |- context [tabulate ?s ?f] =>
    destruct (tabulate_is_Some s f) as [t Ht] end.
  { intros f Hf. simpl in Hf.
    destruct (unravel3 N V f) as (n & i & j & -> & Hn & Hi & Hj & _); [lia|].
    cbv beta.
    destruct (pairwise_operands d N V n i j) as [E1 E2]; try done.
    unfold broadcast_index in E1, E2. simpl in E1, E2. rewrite E1, E2.
    destruct (lookup_lt_is_Some_2 d (n * V + j)) as [x ->]; [nia|].
    destruct (lookup_lt_is_Some_2 d (n * V + i)) as [y ->]; [nia|].
    by eexists. }
  rewrite Ht. simpl. eexists. split; [done|].
  apply tabulate_Some in Ht as (Hs & Hl & Hd).
  split; [done|]. rewrite masked_fill_twice, length_fmap.
  split; [simpl in Hl; lia|].
  intros n i j Hn Hi Hj.
  destruct (lookup_lt_is_Some_2 d (n * V + i)) as [a Ha]; [nia|].
  destruct (lookup_lt_is_Some_2 d (n * V + j)) as [b Hb]; [nia|].
  exists a, b. repeat split; try done.
  rewrite list_lookup_fmap.
  assert (Hb3 : Forall2 lt [n; i; j] [N; V; V])
    by (repeat (apply Forall2_cons_2; [done|]); apply Forall2_nil_2).
  replace (n * (V * V) + i * V + j) with (ravel [N; V; V] [n; i; j])
    by (simpl; lia).
  rewrite Hd by (by apply ravel_bounded).
  rewrite unravel_ravel by done.
  cbv beta.
  destruct (pairwise_operands d N V n i j) as [E1 E2]; try done.
  unfold broadcast_index in E1, E2. simpl in E1, E2. rewrite E1, E2.
  rewrite Ha, Hb. simpl. f_equal.
  repeat case_decide; try done; lia.
Qed.

(** [m.transpose(-1, -2)] of a rank-3 tensor whose trailing square is
    symmetric is [m] again. *)
Lemma transpose_of_symmetric {A} (m : tensor A) N V :
  shape m = [N; V; V] → length (data m) = N * V * V →
  (∀ n i j, n < N → i < V → j < V →
     data m !! (n * (V * V) + i * V + j) = data m !! (n * (V * V) + j * V + i)) →
  permute [0; 2; 1] m = Some m.
Proof.
  destruct m as [s d]. simpl. intros -> Hlen Hsym.
  assert (Hsrc : ∀ f, f < numel [N; V; V] →
            ∃ n i j, n < N ∧ i < V ∧ j < V ∧ f = n * (V * V) + i * V + j ∧
              offset (select [0; 2; 1] (strides [N; V; V])) (unravel [N; V; V] f)
              = n * (V * V) + j * V + i).
  { intros f Hf.
    destruct (unravel3 N V f) as (n & i & j & -> & Hn & Hi & Hj & E);
      [simpl in Hf; lia|].
    exists n, i, j. repeat split; try done. simpl. lia. }
  destruct (permute_is_Some [0; 2; 1] (Tensor [N; V; V] d)) as [t Ht].
  { done. }
  { simpl shape. simpl data.
    change (select [0; 2; 1] [N; V; V]) with [N; V; V].
    intros f Hf. destruct (Hsrc f Hf) as (n & i & j & Hn & Hi & Hj & _ & ->). nia. }
  rewrite Ht. f_equal.
  apply permute_Some in Ht as (Hs & Hl & Hd).
  destruct t as [s' d']. cbn [shape data] in *.
  change (select [0; 2; 1] [N; V; V]) with [N; V; V] in *. subst s'. f_equal.
  apply list_eq. intros f.
  destruct (decide (f < length d)) as [Hf|Hf].
  - assert (Hf' : f < numel [N; V; V]) by (simpl; lia).
    destruct (Hsrc f Hf') as (n & i & j & Hn & Hi & Hj & E & Eo).
    rewrite Hd, Eo by (simpl in *; lia). rewrite E. symmetry. by apply Hsym.
  - rewrite !lookup_ge_None_2; [done | lia | simpl in *; lia].
Qed.

Lemma compute_mask_unfold D H W w0 w1 w2 s0 s1 s2 dev :
  compute_mask D H W [w0; w1; w2] [s0; s1; s2] dev
  = window_partition
      (label_regions (zeros [1; D; H; W; 1]) (axis_slices w0 s0)
                     (axis_slices w1 s1) (axis_slices w2 s2)).1 [w0; w1; w2]
    ≫= λ mw,
      attn_mask ← broadcast_sub (unsqueeze 1 (squeeze_last mw))
                                (unsqueeze 2 (squeeze_last mw));
      Some (masked_fill (masked_fill attn_mask (ne_zero attn_mask) (-100))
                        (eq_zero attn_mask) 0).
Proof. reflexivity. Qed.

Lemma compute_mask_mult nd nh nw w0 w1 w2 s0 s1 s2 dev :
  0 < w0 → 0 < w1 → 0 < w2 →
  ∃ mask labels,
    compute_mask (nd * w0) (nh * w1) (nw * w2) [w0; w1; w2] [s0; s1; s2] dev
    = Some mask ∧
    window_partition
      (label_regions (zeros [1; nd * w0; nh * w1; nw * w2; 1]) (axis_slices w0 s0)
                     (axis_slices w1 s1) (axis_slices w2 s2)).1 [w0; w1; w2]
    = Some labels ∧
    shape mask = [nd * nh * nw; w0 * w1 * w2; w0 * w1 * w2] ∧ wf mask ∧
    Forall (λ v, v = 0%Z ∨ v = (-100)%Z) (data mask) ∧
    (∀ n i j, n < nd * nh * nw → i < w0 * w1 * w2 → j < w0 * w1 * w2 →
       ∃ a b, get labels [n; i; 0] = Some a ∧ get labels [n; j; 0] = Some b ∧
              get mask [n; i; j] = Some (if decide (a = b) then 0%Z else (-100)%Z)) ∧
    permute [0; 2; 1] mask = Some mask.
Proof.
  intros H0 H1 H2. rewrite compute_mask_unfold.
  destruct (label_regions_shape (zeros [1; nd * w0; nh * w1; nw * w2; 1])
              (axis_slices w0 s0) (axis_slices w1 s1) (axis_slices w2 s2))
    as [Hs Hl].
  remember (label_regions (zeros [1; nd * w0; nh * w1; nw * w2; 1])
              (axis_slices w0 s0) (axis_slices w1 s1) (axis_slices w2 s2)).1
    as labelled eqn:El.
  clear El. cbn [zeros shape data] in Hs, Hl.
  rewrite length_replicate in Hl.
  remember (nd * nh * nw) as N eqn:EN.
  remember (w0 * w1 * w2) as V eqn:EV.
  assert (Hwf : wf labelled) by (unfold wf; by rewrite Hl, Hs).
  destruct (window_partition_Some labelled 1 nd nh nw 1 w0 w1 w2
              Hwf Hs H0 H1 H2 Nat.lt_0_1) as (d & Hp & Hld & _).
  replace (1 * nd * nh * nw) with N in Hp by lia.
  rewrite <- EV in Hp.
  assert (Hlen : length d = N * V).
  { rewrite Hld, Hl. cbn [numel foldr]. lia. }
  destruct (mask_of_labels d N V Hlen) as (m & Hm & Hsm & Hlm & Hent).
  assert (Hfill : Forall (λ v, v = 0%Z ∨ v = (-100)%Z) (data m)).
  { apply Forall_lookup. intros f v Hv.
    assert (Hf : f < N * V * V) by (rewrite <- Hlm; by eapply lookup_lt_Some).
    destruct (unravel3 N V f Hf) as (n & i & j & _ & Hn & Hi & Hj & ->).
    destruct (Hent n i j Hn Hi Hj) as (a & b & _ & _ & E).
    rewrite E in Hv. injection Hv as <-. case_decide; auto. }
  exists m, (Tensor [N; V; 1] d).
  split; [rewrite Hp; exact Hm|].
  split; [done|]. split; [done|].
  split; [unfold wf; rewrite Hsm, Hlm; cbn [numel foldr]; lia|].
  split; [done|]. split.
  - intros n i j Hn Hi Hj.
    destruct (Hent n i j Hn Hi Hj) as (a & b & Ha & Hb & E).
    exists a, b. unfold get. rewrite Hsm. cbn [shape data ravel numel foldr].
    split_and!; [rewrite <- Ha | rewrite <- Hb | rewrite <- E]; f_equal; lia.
  - apply (transpose_of_symmetric m N V Hsm Hlm).
    intros n i j Hn Hi Hj.
    destruct (Hent n i j Hn Hi Hj) as (a & b & Ha & Hb & ->).
    destruct (Hent n j i Hn Hj Hi) as (b' & a' & Hb' & Ha' & ->).
    rewrite Ha in Ha'. rewrite Hb in Hb'. injection Ha' as <-. injection Hb' as <-.
    f_equal. repeat case_decide; congruence.
Qed.



(** ** The relative position index *)

Lemma get_arange n i : i < n → get (arange n) [i] = Some (Z.of_nat i).
Proof.
  intros Hi. unfold get, arange. cbn [shape data ravel numel foldr].
  replace (i * 1 + 0) with i by lia.
  rewrite list_lookup_fmap, lookup_seq_lt by done. done.
Qed.

Lemma unravel3_inv a b c f :
  f < a * b * c →
  ∃ i j k, unravel [a; b; c] f = [i; j; k] ∧ i < a ∧ j < b ∧ k < c ∧
           f = ravel [a; b; c] [i; j; k].
Proof.
  intros Hf.
  assert (Hf' : f < numel [a; b; c]) by (cbn [numel foldr]; lia).
  pose proof (unravel_bounded _ _ Hf') as Hb.
  pose proof (ravel_unravel _ _ Hf') as Hr.
  destruct (unravel [a; b; c] f) as [|i [|j [|k [|? ?]]]];
    try (apply Forall2_length in Hb; discriminate Hb).
  exists i, j, k. forall2_inv Hb. done.
Qed.

(** The three coordinate grids of a window, read at a flat position. *)
Lemma meshgrid3_arange w0 w1 w2 :
  ∃ gd gh gw,
    meshgrid3 (arange w0) (arange w1) (arange w2) = Some (gd, gh, gw) ∧
    shape gd = [w0; w1; w2] ∧ shape gh = [w0; w1; w2] ∧ shape gw = [w0; w1; w2] ∧
    length (data gd) = w0 * w1 * w2 ∧ length (data gh) = w0 * w1 * w2 ∧
    length (data gw) = w0 * w1 * w2 ∧
    ∀ f i j k, unravel [w0; w1; w2] f = [i; j; k] → f < w0 * w1 * w2 →
      data gd !! f = Some (Z.of_nat i) ∧ data gh !! f = Some (Z.of_nat j) ∧
      data gw !! f = Some (Z.of_nat k).
Proof.
  unfold meshgrid3. cbn [arange shape].
  assert (Hb : ∀ f, f < numel [w0; w1; w2] →
            ∃ i j k, unravel [w0; w1; w2] f = [i; j; k] ∧ i < w0 ∧ j < w1 ∧ k < w2).
  { intros f Hf. destruct (unravel3_inv w0 w1 w2 f) as (i & j & k & E & ? & ? & ? & _).
    - cbn [numel foldr] in Hf. lia.
    - by exists i, j, k. }
  destruct (tabulate_is_Some [w0; w1; w2]
              (λ idx, i ← idx !! 0; get (arange w0) [i])) as [gd Hgd].
  { intros f Hf. destruct (Hb f Hf) as (i & j & k & -> & ? & ? & ?).
    cbn [lookup list_lookup mbind option_bind]. rewrite get_arange by done. by eexists. }
  destruct (tabulate_is_Some [w0; w1; w2]
              (λ idx, j ← idx !! 1; get (arange w1) [j])) as [gh Hgh].
  { intros f Hf. destruct (Hb f Hf) as (i & j & k & -> & ? & ? & ?).
    cbn [lookup list_lookup mbind option_bind]. rewrite get_arange by done. by eexists. }
  destruct (tabulate_is_Some [w0; w1; w2]
              (λ idx, k ← idx !! 2; get (arange w2) [k])) as [gw Hgw].
  { intros f Hf. destruct (Hb f Hf) as (i & j & k & -> & ? & ? & ?).
    cbn [lookup list_lookup mbind option_bind]. rewrite get_arange by done. by eexists. }
  fold (arange w0) (arange w1) (arange w2).
  rewrite Hgd, Hgh, Hgw. cbn [mbind option_bind].
  apply tabulate_Some in Hgd as (Hsd & Hld & Hd).
  apply tabulate_Some in Hgh as (Hsh & Hlh & Hh).
  apply tabulate_Some in Hgw as (Hsw & Hlw & Hw).
  exists gd, gh, gw. cbn [numel foldr] in Hld, Hlh, Hlw.
  split_and!; try done; try lia.
  intros f i j k E Hf.
  assert (Hf' : f < numel [w0; w1; w2]) by (cbn [numel foldr]; lia).
  destruct (Hb f Hf') as (i' & j' & k' & E' & ? & ? & ?).
  rewrite E in E'. injection E' as <- <- <-.
  rewrite Hd, Hh, Hw by done. rewrite E.
  cbn [lookup list_lookup mbind option_bind].
  rewrite !get_arange by done. done.
Qed.

Lemma broadcast_shape_rows M V :
  broadcast_shape [M; V; 1] [M; 1; V] = Some [M; V; V].
Proof.
  unfold broadcast_shape. simpl.
  repeat (case_decide; simpl; subst); try done; lia.
Qed.

Lemma rows_operands (d : list Z) M V c i j :
  c < M → i < V → j < V →
  get (Tensor [M; V; 1] d) (broadcast_index [M; V; 1] [c; i; j]) = d !! (c * V + i) ∧
  get (Tensor [M; 1; V] d) (broadcast_index [M; 1; V] [c; i; j]) = d !! (c * V + j).
Proof.
  intros Hc Hi Hj. unfold get, broadcast_index. simpl.
  split; repeat case_decide; f_equal; nia.
Qed.

(** [cf[:, :, None] - cf[:, None, :]] of a matrix [cf] with [M] rows. *)
Lemma pairwise_sub_rows (d : list Z) M V :
  length d = M * V →
  ∃ t,
    broadcast_sub (unsqueeze 2 (Tensor [M; V] d)) (unsqueeze 1 (Tensor [M; V] d))
    = Some t ∧
    shape t = [M; V; V] ∧ length (data t) = M * V * V ∧
    ∀ c i j, c < M → i < V → j < V →
      ∃ a b, d !! (c * V + i) = Some a ∧ d !! (c * V + j) = Some b ∧
             data t !! ravel [M; V; V] [c; i; j] = Some (a - b)%Z.
Proof.
  intros Hlen. unfold unsqueeze, broadcast_sub.
  cbn [shape data take drop app].
  rewrite broadcast_shape_rows. cbn [mbind option_bind].
  match goal with |- context [tabulate ?s ?f] =>
    destruct (tabulate_is_Some s f) as [t Ht] end.
  { intros f Hf. cbn [numel foldr] in Hf.
    destruct (unravel3_inv M V V f) as (c & i & j & -> & Hc & Hi & Hj & _); [lia|].
    cbv beta.
    destruct (rows_operands d M V c i j) as [-> ->]; try done.
    destruct (lookup_lt_is_Some_2 d (c * V + i)) as [x ->]; [nia|].
    destruct (lookup_lt_is_Some_2 d (c * V + j)) as [y ->]; [nia|].
    by eexists. }
  exists t. split; [done|].
  apply tabulate_Some in Ht as (Hs & Hl & Hd).
  split; [done|]. split; [cbn [numel foldr] in Hl; lia|].
  intros c i j Hc Hi Hj.
  destruct (lookup_lt_is_Some_2 d (c * V + i)) as [a Ha]; [nia|].
  destruct (lookup_lt_is_Some_2 d (c * V + j)) as [b Hb]; [nia|].
  exists a, b. split_and!; try done.
  assert (Hb3 : Forall2 lt [c; i; j] [M; V; V])
    by (repeat (apply Forall2_cons_2; [done|]); apply Forall2_nil_2).
  rewrite Hd by (by apply ravel_bounded).
  rewrite unravel_ravel by done. cbv beta.
  destruct (rows_operands d M V c i j) as [-> ->]; try done.
  by rewrite Ha, Hb.
Qed.

Lemma map_last_shape k g t : shape (map_last k g t) = shape t.
Proof. done. Qed.

Lemma map_last_lookup3 k g (t : tensor Z) A B C i j c :
  shape t = [A; B; C] → i < A → j < B → c < C →
  data (map_last k g t) !! ravel [A; B; C] [i; j; c]
  = (λ x, if decide (c = k) then g x else x) <$> data t !! ravel [A; B; C] [i; j; c].
Proof.
  intros Hs Hi Hj Hc. unfold map_last. cbn [data]. rewrite list_lookup_imap, Hs.
  assert (Hb3 : Forall2 lt [i; j; c] [A; B; C])
    by (repeat (apply Forall2_cons_2; [done|]); apply Forall2_nil_2).
  rewrite unravel_ravel by done. cbn [length Nat.sub lookup list_lookup].
  destruct (data t !! _) as [x|]; [|done]. cbn [fmap option_fmap option_map].
  f_equal. repeat case_decide; try done; congruence.
Qed.

(** [t.permute(1, 2, 0).contiguous()] of a rank-3 tensor. *)
Lemma offset_permute_120 M V i j c :
  offset (select [1; 2; 0] (strides [M; V; V])) [i; j; c] = ravel [M; V; V] [c; i; j].
Proof. simpl. lia. Qed.

Lemma permute_120 {A} (t : tensor A) M V :
  shape t = [M; V; V] → length (data t) = M * V * V →
  ∃ t', permute [1; 2; 0] t = Some t' ∧ shape t' = [V; V; M] ∧
        length (data t') = V * V * M ∧
        ∀ i j c, i < V → j < V → c < M →
          data t' !! ravel [V; V; M] [i; j; c] = data t !! ravel [M; V; V] [c; i; j].
Proof.
  destruct t as [s d]. cbn [shape data]. intros -> Hlen.
  destruct (permute_is_Some [1; 2; 0] (Tensor [M; V; V] d)) as [t' Ht'].
  { done. }
  { cbn [shape data]. change (select [1; 2; 0] [M; V; V]) with [V; V; M].
    intros f Hf. cbn [numel foldr] in Hf.
    destruct (unravel3_inv V V M f) as (i & j & c & -> & Hi & Hj & Hc & _); [lia|].
    rewrite offset_permute_120.
    replace (length d) with (numel [M; V; V]) by (cbn [numel foldr]; lia).
    apply ravel_bounded.
    repeat (apply Forall2_cons_2; [done|]); apply Forall2_nil_2. }
  exists t'. split; [done|].
  apply permute_Some in Ht' as (Hs & Hl & Hd). cbn [shape data] in Hs, Hd.
  change (select [1; 2; 0] [M; V; V]) with [V; V; M] in Hs.
  rewrite Hs in Hl, Hd.
  split; [done|]. split; [cbn [numel foldr] in Hl; lia|].
  intros i j c Hi Hj Hc.
  assert (Hb3 : Forall2 lt [i; j; c] [V; V; M])
    by (repeat (apply Forall2_cons_2; [done|]); apply Forall2_nil_2).
  rewrite Hd by (by apply ravel_bounded).
  by rewrite unravel_ravel, offset_permute_120.
Qed.

(** [t.sum(-1)] of a rank-3 tensor whose last axis has three slots. *)
Lemma sum_last3 (t : tensor Z) N (v : nat → nat → nat → Z) :
  shape t = [N; N; 3] →
  (∀ i j c, i < N → j < N → c < 3 →
     data t !! ravel [N; N; 3] [i; j; c] = Some (v i j c)) →
  ∃ r, sum_last t = Some r ∧ shape r = [N; N] ∧ length (data r) = N * N ∧
       ∀ i j, i < N → j < N →
         data r !! (i * N + j) = Some (v i j 0%nat + v i j 1%nat + v i j 2%nat)%Z.
Proof.
  intros Hs Hv. unfold sum_last. rewrite Hs.
  change (reverse [N; N; 3]) with [3; N; N]. cbv iota beta.
  change (reverse [N; N]) with [N; N].
  assert (Hrow : ∀ i j, i < N → j < N →
            (xs ← mapM (λ k, get t ([i; j] ++ [k])) (seq 0 3);
             Some (foldr Z.add 0%Z xs)) = Some (v i j 0%nat + v i j 1%nat + v i j 2%nat)%Z).
  { intros i j Hi Hj. unfold get. rewrite Hs.
    cbn [seq mapM app mbind option_bind mret option_ret].
    rewrite !Hv by (done || lia).
    cbn [mbind option_bind mret option_ret foldr fmap option_fmap option_map].
    f_equal. lia. }
  assert (Hidx : ∀ f, f < numel [N; N] →
            ∃ i j, unravel [N; N] f = [i; j] ∧ i < N ∧ j < N ∧ f = i * N + j).
  { intros f Hf. pose proof (unravel_bounded _ _ Hf) as Hb.
    pose proof (ravel_unravel _ _ Hf) as Hr.
    destruct (unravel [N; N] f) as [|i [|j [|? ?]]];
      try (apply Forall2_length in Hb; discriminate Hb).
    exists i, j. forall2_inv Hb. cbn [ravel numel foldr] in Hr.
    split_and!; try done. lia. }
  match goal with |- context [tabulate ?s ?f] =>
    destruct (tabulate_is_Some s f) as [r Hr] end.
  { intros f Hf. destruct (Hidx f Hf) as (i & j & -> & Hi & Hj & _).
    rewrite (Hrow i j Hi Hj). by eexists. }
  exists r. split; [done|].
  apply tabulate_Some in Hr as (Hsr & Hlr & Hd).
  split; [done|]. split; [cbn [numel foldr] in Hlr; lia|].
  intros i j Hi Hj.
  assert (Hf : i * N + j < numel [N; N]) by (cbn [numel foldr]; nia).
  rewrite Hd by done.
  destruct (Hidx _ Hf) as (i' & j' & E & Hi' & Hj' & Eq).
  assert (Hb2 : Forall2 lt [i; j] [N; N])
    by (repeat (apply Forall2_cons_2; [done|]); apply Forall2_nil_2).
  pose proof (unravel_ravel _ _ Hb2) as Hu. cbn [ravel numel foldr] in Hu.
  replace (i * (N * 1) + (j * 1 + 0)) with (i * N + j) in Hu by lia.
  rewrite Hu. by apply Hrow.
Qed.

Lemma index_entry_range (w0 w1 w2 di hi wi dj hj wj : nat) :
  di < w0 → hi < w1 → wi < w2 → dj < w0 → hj < w1 → wj < w2 →
  (0 ≤ (Z.of_nat di - Z.of_nat dj + (Z.of_nat w0 - 1))
         * ((2 * Z.of_nat w1 - 1) * (2 * Z.of_nat w2 - 1))
       + (Z.of_nat hi - Z.of_nat hj + (Z.of_nat w1 - 1)) * (2 * Z.of_nat w2 - 1)
       + (Z.of_nat wi - Z.of_nat wj + (Z.of_nat w2 - 1))
     < (2 * Z.of_nat w0 - 1) * (2 * Z.of_nat w1 - 1) * (2 * Z.of_nat w2 - 1))%Z.
Proof.
  intros. 
  set (a := (Z.of_nat di - Z.of_nat dj + (Z.of_nat w0 - 1))%Z).
  set (b := (Z.of_nat hi - Z.of_nat hj + (Z.of_nat w1 - 1))%Z).
  set (c := (Z.of_nat wi - Z.of_nat wj + (Z.of_nat w2 - 1))%Z).
  set (P0 := (2 * Z.of_nat w0 - 1)%Z).
  set (P1 := (2 * Z.of_nat w1 - 1)%Z).
  set (P2 := (2 * Z.of_nat w2 - 1)%Z).
  assert (0 ≤ a ≤ P0 - 1)%Z by (unfold a, P0; lia).
  assert (0 ≤ b ≤ P1 - 1)%Z by (unfold b, P1; lia).
  assert (0 ≤ c ≤ P2 - 1)%Z by (unfold c, P2; lia).
  assert (0 ≤ b * P2 ≤ (P1 - 1) * P2)%Z by nia.
  assert (0 ≤ a * (P1 * P2) ≤ (P0 - 1) * (P1 * P2))%Z by nia.
  nia.
Qed.

(** The stacked, flattened coordinates: row [c] of [coords_flatten]
    holds coordinate [c] of every window position. *)
Lemma coords_flatten_lookup (dd dh dw : list Z) N c f :
  length dd = N → length dh = N → length dw = N → c < 3 → f < N →
  (dd ++ dh ++ dw) !! (c * N + f)
  = match c with 0 => dd !! f | 1 => dh !! f | _ => dw !! f end.
Proof.
  intros Hd Hh Hw Hc Hf.
  destruct c as [|[|[|c]]]; [| | |lia].
  - by rewrite lookup_app_l by lia.
  - rewrite lookup_app_r by lia. rewrite lookup_app_l by lia. f_equal. lia.
  - rewrite lookup_app_r by lia. rewrite lookup_app_r by lia. f_equal. lia.
Qed.

(** C8.  For every window size [(w0, w1, w2)] the relative position
    index is a square table over the [w0 * w1 * w2] window positions;
    the entry for positions [i] and [j] is built from their coordinate
    differences, each shifted by the window extent minus one, mixed with
    strides [(2 w1 - 1)(2 w2 - 1)] and [(2 w2 - 1)]; and every entry
    lies in [[0, (2 w0 - 1)(2 w1 - 1)(2 w2 - 1))]. *)
Theorem relative_position_index_range (w0 w1 w2 : nat) :
  ∃ t,
    relative_position_index [w0; w1; w2] = Some t ∧
    shape t = [w0 * w1 * w2; w0 * w1 * w2] ∧ wf t ∧
    (∀ i j di hi wi dj hj wj,
       i < w0 * w1 * w2 → j < w0 * w1 * w2 →
       unravel [w0; w1; w2] i = [di; hi; wi] →
       unravel [w0; w1; w2] j = [dj; hj; wj] →
       get t [i; j]
       = Some ((Z.of_nat di - Z.of_nat dj + (Z.of_nat w0 - 1))
                 * ((2 * Z.of_nat w1 - 1) * (2 * Z.of_nat w2 - 1))
               + (Z.of_nat hi - Z.of_nat hj + (Z.of_nat w1 - 1))
                 * (2 * Z.of_nat w2 - 1)
               + (Z.of_nat wi - Z.of_nat wj + (Z.of_nat w2 - 1)))%Z) ∧
    Forall (λ v, 0 ≤ v < (2 * Z.of_nat w0 - 1) * (2 * Z.of_nat w1 - 1)
                           * (2 * Z.of_nat w2 - 1))%Z (data t).
Proof.
  destruct (meshgrid3_arange w0 w1 w2)
    as (gd & gh & gw & Hm & Hsd & Hsh & Hsw & Hld & Hlh & Hlw & Hg).
  remember (w0 * w1 * w2) as N eqn:EN.
  unfold relative_position_index. rewrite Hm.
  cbn [mbind option_bind]. unfold stack3.
  rewrite decide_True by (by rewrite Hsd, Hsh, Hsw).
  cbn [mbind option_bind]. unfold flatten_from. cbn [shape data]. rewrite Hsd.
  cbn [take drop app].
  replace (numel [w0; w1; w2]) with N by (cbn [numel foldr]; lia).
  set (cf := data gd ++ data gh ++ data gw).
  assert (Hcf : length cf = 3 * N) by (unfold cf; rewrite !length_app; lia).
  destruct (pairwise_sub_rows cf 3 N Hcf) as (rel & -> & Hsrel & Hlrel & Hrel).
  cbn [mbind option_bind].
  destruct (permute_120 rel 3 N Hsrel Hlrel) as (rc & -> & Hsrc & Hlrc & Hrc).
  cbn [mbind option_bind].
  set (z0 := Z.of_nat w0). set (z1 := Z.of_nat w1). set (z2 := Z.of_nat w2).
  (* coordinate [c] of position [f] *)
  set (coord := λ (c f : nat), Z.of_nat (default 0 (unravel [w0; w1; w2] f !! c))).
  assert (Hcoord : ∀ c f, c < 3 → f < N → cf !! (c * N + f) = Some (coord c f)).
  { intros c f Hc Hf. unfold cf.
    rewrite (coords_flatten_lookup _ _ _ N) by done.
    destruct (unravel3_inv w0 w1 w2 f) as (i & j & k & E & _); [lia|].
    destruct (Hg f i j k E) as (H0 & H1 & H2); [lia|].
    unfold coord. rewrite E.
    destruct c as [|[|[|c]]]; [done|done|done|lia]. }
  set (v := λ (i j c : nat),
         let x := (coord c i - coord c j)%Z in
         match c with
         | 0 => ((x + (z0 - 1)) * ((2 * z1 - 1) * (2 * z2 - 1)))%Z
         | 1 => ((x + (z1 - 1)) * (2 * z2 - 1))%Z
         | _ => (x + (z2 - 1))%Z
         end).
  match goal with |- context [sum_last ?t] =>
    destruct (sum_last3 t N v) as (r & Hr & Hsr & Hlr & Hd) end.
  { by rewrite !map_last_shape. }
  { intros i j c Hi Hj Hc.
    rewrite !map_last_lookup3 by (by rewrite ?map_last_shape).
    rewrite Hrc by done.
    destruct (Hrel c i j Hc Hi Hj) as (a & b & Ha & Hb & ->).
    rewrite Hcoord in Ha, Hb by done.
    injection Ha as <-. injection Hb as <-.
    cbn [fmap option_fmap option_map]. f_equal. unfold v.
    destruct c as [|[|[|c]]]; [| | |lia];
      repeat (case_decide; try lia; try done). }
  exists r. split; [done|]. split; [done|].
  split; [unfold wf; rewrite Hsr, Hlr; cbn [numel foldr]; lia|].
  assert (Hent : ∀ i j di hi wi dj hj wj, i < N → j < N →
            unravel [w0; w1; w2] i = [di; hi; wi] →
            unravel [w0; w1; w2] j = [dj; hj; wj] →
            data r !! (i * N + j)
            = Some ((Z.of_nat di - Z.of_nat dj + (z0 - 1))
                      * ((2 * z1 - 1) * (2 * z2 - 1))
                    + (Z.of_nat hi - Z.of_nat hj + (z1 - 1)) * (2 * z2 - 1)
                    + (Z.of_nat wi - Z.of_nat wj + (z2 - 1)))%Z).
  { intros i j di hi wi dj hj wj Hi Hj Ei Ej.
    rewrite Hd by done. unfold v, coord. rewrite Ei, Ej. done. }
  split.
  - intros i j di hi wi dj hj wj Hi Hj Ei Ej.
    unfold get. rewrite Hsr. cbn [ravel numel foldr].
    replace (i * (N * 1) + (j * 1 + 0)) with (i * N + j) by lia.
    by apply Hent.
  - apply Forall_lookup. intros f x Hx.
    assert (Hf : f < numel [N; N])
      by (cbn [numel foldr]; apply lookup_lt_Some in Hx; lia).
    pose proof (unravel_bounded _ _ Hf) as Hb.
    pose proof (ravel_unravel _ _ Hf) as Hrv.
    destruct (unravel [N; N] f) as [|i [|j [|? ?]]];
      try (apply Forall2_length in Hb; discriminate Hb).
    forall2_inv Hb. cbn [ravel numel foldr] in Hrv.
    destruct (unravel3_inv w0 w1 w2 i) as (di & hi & wi & Ei & ? & ? & ? & _); [lia|].
    destruct (unravel3_inv w0 w1 w2 j) as (dj & hj & wj & Ej & ? & ? & ? & _); [lia|].
    pose proof (Hent i j di hi wi dj hj wj Hlt Hlt0 Ei Ej) as E.
    replace (i * N + j) with f in E by lia.
    rewrite E in Hx. injection Hx as <-.
    by apply index_entry_range.
Qed.

(** ** The head split of windowed self-attention *)

Lemma qkv_heads_shape_unfold dim num_heads B_ N :
  0 < num_heads →
  qkv_heads_shape dim num_heads [B_; N; dim]
  = s ← infer_size [Some B_; Some N; Some 3; Some num_heads; Some (dim / num_heads)]
                   (numel [B_; N; dim * 3]);
    Some (select [2; 0; 3; 1; 4] s).
Proof.
  intros Hh. unfold qkv_heads_shape, linear_shape, floordiv.
  rewrite (eq_refl : reverse [B_; N; dim] = [dim; N; B_]).
  rewrite (decide_True (P := dim = dim)) by reflexivity.
  rewrite (eq_refl : reverse [dim * 3; N; B_] = [B_; N; dim * 3]).
  rewrite (decide_False (P := num_heads = 0)) by lia. reflexivity.
Qed.

Lemma infer_size_given (s : list nat) n :
  infer_size (Some <$> s) n = if decide (n = numel s) then Some s else None.
Proof.
  unfold infer_size. rewrite given_Some, length_fmap, Nat.sub_diag. done.
Qed.

(** C9 (amended).  For a module with [num_heads > 0] heads and every
    non-empty input of shape [(B_, N, dim)], the reshape of the fused
    query/key/value projection into heads raises exactly when [dim] is
    not divisible by [num_heads]. *)
Theorem qkv_heads_shape_fails_iff dim num_heads B_ N :
  0 < num_heads → 0 < B_ → 0 < N →
  qkv_heads_shape dim num_heads [B_; N; dim] = None ↔ dim mod num_heads ≠ 0.
Proof.
  intros Hh HB HN. rewrite qkv_heads_shape_unfold by done.
  rewrite (infer_size_given [B_; N; 3; num_heads; dim / num_heads]).
  cbn [numel foldr]. rewrite <- Nat.Div0.div_exact.
  assert (Hpos : 0 < B_ * N) by (by apply Nat.mul_pos_pos).
  case_decide as E; cbn [mbind option_bind]; split; try done.
  - intros Hne. exfalso. apply Hne. nia.
  - intros _ Hd. apply E. rewrite Hd at 1. lia.
Qed.

Lemma qkv_heads_shape_fails_iff_witness :
  qkv_heads_shape 6 4 [2; 8; 6] = None ↔ 6 mod 4 ≠ 0.
Proof.
  exact (qkv_heads_shape_fails_iff 6 4 2 8 ltac:(lia) ltac:(lia) ltac:(lia)).
Defined.

(** C9 as stated fails on an empty batch: no element has to fit the
    heads, and the reshape succeeds although [dim] is odd. *)
Lemma qkv_heads_shape_empty_batch :
  ¬ (∀ dim num_heads B_ N,
       0 < num_heads → dim mod num_heads ≠ 0 →
       qkv_heads_shape dim num_heads [B_; N; dim] = None).
Proof.
  intros Hall. specialize (Hall 3 2 0 1).
  discriminate Hall; [lia | done].
Qed.

(** ** The attention stage of the multi-modal block *)


(** ** A stage of stacked blocks *)

Section BasicLayer_properties.
Context {tensor mask block : Type}.
Variable rearrange_in rearrange_out : tensor → tensor.
Variable cat_dim1 : list tensor → tensor.
Variable stage_mask : tensor → mask.
Variable reshape_bdhw : tensor → tensor → tensor.
Variable downsample : option (tensor → tensor).
Variable block_body : block → list (@value tensor mask) → result (list (@value tensor mask)).

(** Four positional arguments and [cross] leave [mask_matrix] without a
    value. *)
Lemma call_block_four_positional blk (a b c d v : @value tensor mask) :
  call_block block_body blk [a; b; c; d] [(p_cross, v)]
  = Raise TypeError_missing_argument.
Proof. reflexivity. Qed.

(** The call of the loop left as a comment binds every parameter: the
    block receives the four current streams, the mask and the flag. *)
Lemma call_block_five_positional blk (a b c d m v : @value tensor mask) :
  call_block block_body blk [a; b; c; d; m] [(p_cross, v)]
  = block_body blk [a; b; c; d; m; v].
Proof. reflexivity. Qed.

(** C2 (the code at a stage with at least one block).  The first
    iteration of the loop of [BasicLayer.forward] raises a [TypeError]:
    no block is ever run, and no stream is updated. *)
Theorem BasicLayer_forward_raises blk blocks (t1 t1ce t2 flair : tensor) features :
  BasicLayer_forward rearrange_in rearrange_out cat_dim1 stage_mask reshape_bdhw
    downsample block_body (blk :: blocks) t1 t1ce t2 flair features
  = Raise TypeError_missing_argument.
Proof. reflexivity. Qed.

(** The loop left as a comment threads the streams: each block is run
    on the streams its predecessor produced, and the features list is
    left to the code after the loop. *)
Lemma commented_loop_threads attn_mask len st depth blk blocks :
  run_loop (commented_loop_body block_body attn_mask len) st depth (blk :: blocks)
  = (r ← block_body blk
           [VTensor (st_t1 st); VTensor (st_t1ce st); VTensor (st_t2 st);
            VTensor (st_flair st); VMask attn_mask;
            VBool (bool_decide (depth = len - 1))];
     match r with
     | [VTensor a; VTensor b; VTensor c; VTensor d] =>
         run_loop (commented_loop_body block_body attn_mask len)
                  (StageState (extract_feature st) a b c d) (S depth) blocks
     | _ => Raise ValueError_unpack
     end).
Proof.
  cbn [run_loop]. unfold commented_loop_body.
  rewrite call_block_five_positional.
  destruct (block_body blk _) as [r|e]; [|done]. cbn [mbind result_bind].
  repeat (match goal with
          | |- context [match ?x with _ => _ end] => destruct x; try done
          end).
Qed.

End BasicLayer_properties.

(** ** The mask cache *)

Section lru_cache_properties.
Context {K V : Type} `{EqDecision K}.
Variable f : K → option V.
Variable maxsize : nat.

Lemma cache_get_None k (l : list (K * V)) : cache_get k l = None ↔ k ∉ l.*1.
Proof.
  induction l as [|[k' v] l IH]; csimpl.
  - split; [intros _; apply not_elem_of_nil | done].
  - rewrite not_elem_of_cons. case_decide; subst.
    + split; [done | intros [? _]; done].
    + rewrite IH. split; [intros ?; split; [congruence | done] | intros [_ ?]; done].
Qed.


Lemma cache_get_elem k v (l : list (K * V)) : cache_get k l = Some v → (k, v) ∈ l.
Proof.
  induction l as [|[k' v'] l IH]; csimpl; [done|].
  case_decide; subst.
  - intros [= ->]. apply elem_of_cons. by left.
  - intros Hg. apply elem_of_cons. right. by apply IH.
Qed.

Lemma cache_del_keys k (l : list (K * V)) x :
  x ∈ (cache_del k l).*1 ↔ x ∈ l.*1 ∧ x ≠ k.
Proof.
  unfold cache_del. rewrite !list_elem_of_fmap. split.
  - intros ([k' v] & -> & [Hne Hin]%list_elem_of_filter). split; [|done].
    by exists (k', v).
  - intros [([k' v] & -> & Hin) Hne]. exists (k', v). split; [done|].
    by apply list_elem_of_filter.
Qed.

Lemma cache_del_NoDup k (l : list (K * V)) : NoDup l.*1 → NoDup (cache_del k l).*1.
Proof.
  induction l as [|[k' v] l IH]; csimpl; [done|].
  intros [Hk' Hnd]%NoDup_cons. unfold cache_del. rewrite filter_cons.
  case_decide; csimpl; [|by apply IH].
  apply NoDup_cons. split; [|by apply IH].
  intros Hin. apply Hk'. by apply cache_del_keys in Hin as [? _].
Qed.


End lru_cache_properties.

Section lru_cache_retention.
Context {K V : Type} `{EqDecision K}.
Variable f : K → option V.
Variable maxsize : nat.







End lru_cache_retention.

Section lru_cache_wf.
Context {K V : Type} `{EqDecision K}.
Variable f : K → option V.
Variable maxsize : nat.

Lemma cache_del_length (k : K) (l : list (K * V)) :
  k ∈ l.*1 → S (length (cache_del k l)) ≤ length l.
Proof.
  induction l as [|[k' v] l IH]; csimpl; intros Hin.
  - by apply elem_of_nil in Hin.
  - unfold cache_del. rewrite filter_cons. cbn [fst].
    pose proof (length_filter (λ kv : K * V, kv.1 ≠ k) l) as Hle.
    case_decide as Hne; cbn [length].
    + apply elem_of_cons in Hin as [->|Hin]; [done|].
      apply IH in Hin. unfold cache_del in Hin. lia.
    + lia.
Qed.

Lemma cached_call_wf (c : @cache K V) (k : K) :
  cache_wf maxsize c → cache_wf maxsize (cached_call f maxsize c k).2.
Proof.
  intros [Hnd Hlen]. unfold cached_call.
  destruct (cache_get k (entries c)) as [v|] eqn:Hg.
  - split; cbn [snd entries].
    + rewrite fmap_cons. apply NoDup_cons. split; [|by apply cache_del_NoDup].
      intros Hin. by apply cache_del_keys in Hin as [_ ?].
    + cbn [length]. etrans; [apply cache_del_length|done].
      apply cache_get_elem in Hg. apply list_elem_of_fmap. by exists (k, v).
  - destruct (f k) as [v|]; [|done]. apply cache_get_None in Hg.
    split; cbn [snd entries].
    + rewrite fmap_take. eapply sublist_NoDup; [|apply sublist_take].
      rewrite fmap_cons. by apply NoDup_cons.
    + rewrite length_take. lia.
Qed.

Lemma run_calls_wf (c : @cache K V) (ks : list K) :
  cache_wf maxsize c → cache_wf maxsize (run_calls f maxsize c ks).
Proof.
  revert c. induction ks as [|k ks IH]; intros c Hwf; [done|].
  unfold run_calls. cbn [foldl]. by apply IH, cached_call_wf.
Qed.

Lemma cache_empty_wf : cache_wf maxsize (@cache_empty K V).
Proof. split; cbn; [constructor | lia]. Qed.

End lru_cache_wf.




(** ** Tensors given by their entries *)

Lemma tabulate_get {A} s (f : list nat → option A) t idx :
  tabulate s f = Some t → Forall2 lt idx s → get t idx = f idx.
Proof.
  intros Ht Hidx. destruct (tabulate_Some _ _ _ Ht) as (Hs & Hl & Hd).
  unfold get. rewrite Hs, Hd by (by apply ravel_bounded).
  by rewrite unravel_ravel.
Qed.

Lemma tabulate_wf {A} s (f : list nat → option A) t :
  tabulate s f = Some t → shape t = s ∧ wf t.
Proof.
  intros Ht. destruct (tabulate_Some _ _ _ Ht) as (Hs & Hl & Hd).
  split; [done|]. unfold wf. by rewrite Hs.
Qed.

Lemma get_is_Some {A} (t : tensor A) idx :
  wf t → Forall2 lt idx (shape t) → is_Some (get t idx).
Proof.
  intros Hwf Hidx. unfold get. apply lookup_lt_is_Some. rewrite Hwf.
  by apply ravel_bounded.
Qed.

Lemma mapM_rel {A B C} (R : B → C → Prop) (f : A → option B) (g : A → option C) l :
  (∀ x, x ∈ l → option_Forall2 R (f x) (g x)) →
  option_Forall2 (Forall2 R) (mapM f l) (mapM g l).
Proof.
  induction l as [|x l IH]; intros H.
  - constructor. constructor.
  - cbn [mapM]. destruct (H x) as [y z Hyz|]; [left|..].
    + cbn [mbind option_bind].
      destruct IH as [ys zs Hyzs|]; [intros; apply H; by right|..].
      * constructor. by constructor.
      * constructor.
    + constructor.
Qed.

Lemma tabulate_rel {A B} (R : A → B → Prop) s f g :
  (∀ idx, Forall2 lt idx s → option_Forall2 R (f idx) (g idx)) →
  option_Forall2 (λ t1 t2, shape t1 = shape t2 ∧ Forall2 R (data t1) (data t2))
                 (tabulate s f) (tabulate s g).
Proof.
  intros H. unfold tabulate.
  destruct (mapM_rel R (λ j, f (unravel s j)) (λ j, g (unravel s j)) (seq 0 (numel s)))
    as [ys zs Hyz|].
  - intros j Hj. apply H, unravel_bounded. apply elem_of_seq in Hj. lia.
  - constructor. done.
  - constructor.
Qed.

(** ** Attention-gated deformable convolution *)

Lemma Qlt_bool_iff a b : Qlt_bool a b = true ↔ (a < b)%Q.
Proof.
  unfold Qlt_bool. rewrite negb_true_iff.
  destruct (Qle_bool b a) eqn:E.
  - apply Qle_bool_iff in E. split; [done|]. intros Hlt.
    exfalso. apply (Qlt_not_le _ _ Hlt E).
  - split; [intros _|done]. apply Qnot_le_lt. intros Hle.
    apply Qle_bool_iff in Hle. congruence.
Qed.

Lemma Qlt_bool_false a b : Qlt_bool a b = false ↔ (b <= a)%Q.
Proof.
  destruct (Qlt_bool a b) eqn:E.
  - apply Qlt_bool_iff in E. split; [done|]. intros Hle.
    exfalso. apply (Qlt_not_le _ _ E Hle).
  - split; [intros _|done]. apply Qnot_lt_le. intros Hlt.
    apply Qlt_bool_iff in Hlt. congruence.
Qed.

Lemma clamp_cases v lo hi :
  (lo <= hi)%Q →
  ((v < lo)%Q ∧ clamp v lo hi = lo) ∨
  ((lo <= v)%Q ∧ (v <= hi)%Q ∧ clamp v lo hi = v) ∨
  ((hi < v)%Q ∧ clamp v lo hi = hi).
Proof.
  intros Hlh. unfold clamp.
  destruct (Qlt_bool v lo) eqn:E1.
  - apply Qlt_bool_iff in E1. left. split; [done|].
    destruct (Qlt_bool hi lo) eqn:E2; [|done].
    apply Qlt_bool_iff in E2. exfalso. apply (Qlt_not_le _ _ E2 Hlh).
  - apply Qlt_bool_false in E1. right.
    destruct (Qlt_bool hi v) eqn:E2.
    + apply Qlt_bool_iff in E2. by right.
    + apply Qlt_bool_false in E2. by left.
Qed.

Lemma long_inject q z : (q == inject_Z z)%Q → long q = z.
Proof.
  unfold Qeq, long. cbn [inject_Z Qnum Qden]. intros H.
  rewrite Z.mul_1_r in H. rewrite H. apply Z.quot_mul. done.
Qed.

Lemma clamp_inject v z lo hi :
  (v == inject_Z z)%Q → (lo ≤ hi)%Z →
  (clamp v (inject_Z lo) (inject_Z hi) == inject_Z (Z.min (Z.max z lo) hi))%Q.
Proof.
  intros Hv Hlh.
  destruct (clamp_cases v (inject_Z lo) (inject_Z hi)) as [[H ->]|[(H1 & H2 & ->)|[H ->]]].
  - by rewrite <- Zle_Qle.
  - setoid_rewrite Hv in H. rewrite <- Zlt_Qlt in H. f_equiv. lia.
  - setoid_rewrite Hv in H1. setoid_rewrite Hv in H2.
    rewrite <- Zle_Qle in H1, H2. setoid_rewrite Hv. f_equiv. lia.
  - setoid_rewrite Hv in H. rewrite <- Zlt_Qlt in H. f_equiv. lia.
Qed.

Lemma long_clamp v z lo hi :
  (v == inject_Z z)%Q → (lo ≤ hi)%Z →
  long (clamp v (inject_Z lo) (inject_Z hi)) = Z.min (Z.max z lo) hi.
Proof. intros. apply long_inject. by apply clamp_inject. Qed.

Lemma lookup_bind_const {A B} (l : list A) (g : A → list B) m i j :
  (∀ x, length (g x) = m) → j < m →
  (l ≫= g) !! (i * m + j) = l !! i ≫= λ x, g x !! j.
Proof.
  intros Hg Hj. revert i. induction l as [|x l IH]; intros i; [done|].
  cbn [mbind list_bind]. change (x ← l; g x) with (l ≫= g). destruct i as [|i].
  - cbn [lookup list_lookup Nat.mul Nat.add mbind option_bind].
    apply lookup_app_l. by rewrite Hg.
  - rewrite lookup_app_r by (rewrite Hg; lia). rewrite Hg.
    replace (S i * m + j - m) with (i * m + j) by lia. apply IH.
Qed.

Lemma length_bind_const {A B} (l : list A) (g : A → list B) m :
  (∀ x, length (g x) = m) → length (l ≫= g) = length l * m.
Proof.
  intros Hg. induction l as [|x l IH]; [done|].
  cbn [mbind list_bind]. change (x ← l; g x) with (l ≫= g).
  rewrite length_app, Hg, IH. cbn [length]. lia.
Qed.

Ltac idx_bounded :=
  repeat match goal with |- Forall2 _ _ _ => constructor end; try lia.

Ltac forall2_list H :=
  repeat match type of H with
         | Forall2 _ ?l (_ :: _) =>
             let i := fresh "i" in
             let l' := fresh "l" in
             let H1 := fresh "Hlt" in
             destruct l as [|i l']; [by apply Forall2_length in H|];
             apply Forall2_cons_1 in H as [H1 H]
         | Forall2 _ ?l [] => apply Forall2_nil_inv_r in H as ->
         end.

Lemma zero_padding_Some p (x : tensor Q) b c h w d :
  wf x → shape x = [b; c; h; w; d] →
  ∃ xp, zero_padding p x = Some xp ∧
        shape xp = [b; c; h + 2 * p; w + 2 * p; d + 2 * p] ∧ wf xp ∧
        ∀ bi ci i j k, bi < b → ci < c → i < h + 2 * p → j < w + 2 * p →
                       k < d + 2 * p →
          get xp [bi; ci; i; j; k]
          = if decide (p ≤ i < h + p ∧ p ≤ j < w + p ∧ p ≤ k < d + p)
            then get x [bi; ci; i - p; j - p; k - p] else Some 0%Q.
Proof.
  intros Hwf Hs. unfold zero_padding. rewrite Hs.
  match goal with |- context [tabulate ?s ?f] =>
    destruct (tabulate_is_Some s f) as [xp Hxp] end.
  { intros j Hj. apply unravel_bounded in Hj. forall2_list Hj.
    case_decide; [|done]. apply get_is_Some; [done|].
    rewrite Hs. idx_bounded. }
  exists xp. destruct (tabulate_wf _ _ _ Hxp) as [Hsp Hwp].
  split_and!; [done..|].
  intros bi ci i j k ?????. rewrite (tabulate_get _ _ _ _ Hxp); [done|].
  idx_bounded.
Qed.

Section AttDeformConv3d_properties.
Variables kernel_size stride padding : nat.

Lemma q_corner_small size p :
  0 < size →
  q_corner size small p = Z.min (Z.max (Qfloor p) 0) (Z.of_nat size - 1).
Proof.
  intros. unfold q_corner. apply (long_clamp _ _ 0); [reflexivity|lia].
Qed.

Lemma q_corner_large size p :
  0 < size →
  q_corner size large p = Z.min (Z.max (Qfloor p + 1) 0) (Z.of_nat size - 1).
Proof.
  intros. unfold q_corner. apply (long_clamp _ _ 0); [|lia].
  rewrite inject_Z_plus. reflexivity.
Qed.

Lemma q_corner_range size sd p :
  0 < size → (0 ≤ q_corner size sd p ≤ Z.of_nat size - 1)%Z.
Proof.
  intros. destruct sd; [rewrite q_corner_small|rewrite q_corner_large]; lia.
Qed.

Lemma _get_x_q_index_range h w d qx qy qz :
  (0 ≤ qx ≤ Z.of_nat h - 1)%Z → (0 ≤ qy ≤ Z.of_nat w - 1)%Z →
  (0 ≤ qz ≤ Z.of_nat d - 1)%Z →
  (0 ≤ _get_x_q_index w d qx qy qz < Z.of_nat (h * w * d))%Z.
Proof.
  intros Hx Hy Hz. unfold _get_x_q_index.
  rewrite !Nat2Z.inj_mul.
  set (H := Z.of_nat h) in *. set (W := Z.of_nat w) in *. set (D := Z.of_nat d) in *.
  assert (0 ≤ qx * W + qy ≤ H * W - 1)%Z as Hxy by nia.
  replace (qx * W * D + qy * D + qz)%Z with ((qx * W + qy) * D + qz)%Z by ring.
  nia.
Qed.

Lemma _get_x_q_Some (x : tensor Q) b c h w d bi ci qx qy qz :
  wf x → shape x = [b; c; h; w; d] → bi < b → ci < c →
  (0 ≤ qx ≤ Z.of_nat h - 1)%Z → (0 ≤ qy ≤ Z.of_nat w - 1)%Z →
  (0 ≤ qz ≤ Z.of_nat d - 1)%Z →
  _get_x_q x bi ci qx qy qz
  = data x !! ravel [b; c; h; w; d] [bi; ci; Z.to_nat qx; Z.to_nat qy; Z.to_nat qz]
  ∧ is_Some (_get_x_q x bi ci qx qy qz).
Proof.
  intros Hwf Hs Hb Hc Hx Hy Hz. unfold _get_x_q. rewrite Hs.
  pose proof (_get_x_q_index_range h w d qx qy qz Hx Hy Hz) as Hi.
  rewrite decide_True by done.
  assert ((bi * c + ci) * (h * w * d) + Z.to_nat (_get_x_q_index w d qx qy qz)
          = ravel [b; c; h; w; d] [bi; ci; Z.to_nat qx; Z.to_nat qy; Z.to_nat qz]) as ->.
  { unfold _get_x_q_index. cbn [ravel numel foldr].
    replace (qx * Z.of_nat w * Z.of_nat d + qy * Z.of_nat d + qz)%Z
      with (Z.of_nat (Z.to_nat qx * w * d + Z.to_nat qy * d + Z.to_nat qz)) by lia.
    rewrite Nat2Z.id. lia. }
  split; [done|]. apply lookup_lt_is_Some. rewrite Hwf, Hs.
  apply ravel_bounded. idx_bounded.
Qed.

Lemma corner_gather_Some (x : tensor Q) b c h w d bi ci px py pz sx sy sz :
  wf x → shape x = [b; c; h; w; d] → bi < b → ci < c →
  0 < h → 0 < w → 0 < d →
  is_Some (_get_x_q x bi ci (q_corner h sx px) (q_corner w sy py) (q_corner d sz pz)).
Proof. intros. eapply _get_x_q_Some; eauto using q_corner_range. Qed.

Lemma x_offset_at_Some (offset x : tensor Q) b c h w d b' c3 h' w' d'
    bi ci i j k n :
  wf x → shape x = [b; c; h; w; d] → shape offset = [b'; c3; h'; w'; d'] →
  bi < b → ci < c → 0 < h → 0 < w → 0 < d →
  is_Some (_get_p kernel_size offset bi n (i * stride) (j * stride) (k * stride)) →
  is_Some (_get_p kernel_size offset bi (c3 / 3 + n)
             (i * stride) (j * stride) (k * stride)) →
  is_Some (_get_p kernel_size offset bi (2 * (c3 / 3) + n)
             (i * stride) (j * stride) (k * stride)) →
  is_Some (x_offset_at kernel_size stride padding offset x bi ci i j k n).
Proof.
  intros Hwf Hs Hso Hb Hc Hh Hw Hd.
  pose proof (λ px py pz sx sy sz,
                corner_gather_Some x b c h w d bi ci px py pz sx sy sz
                                   Hwf Hs Hb Hc Hh Hw Hd) as Hq.
  unfold x_offset_at. rewrite Hs, Hso.
  intros [px ->] [py ->] [pz ->].
  cbn [mbind option_bind]. cbv zeta.
  destruct (Hq px py pz small small small) as [? ->].
  destruct (Hq px py pz large large large) as [? ->].
  destruct (Hq px py pz small small large) as [? ->].
  destruct (Hq px py pz small large small) as [? ->].
  destruct (Hq px py pz small large large) as [? ->].
  destruct (Hq px py pz large small small) as [? ->].
  destruct (Hq px py pz large small large) as [? ->].
  destruct (Hq px py pz large large small) as [? ->].
  done.
Qed.

(** X1.  Whatever the sample point, every corner's flattened index lies
    within the flattened volume and the gather reads an element; so the
    interpolated sample is defined as soon as its three coordinates
    are. *)
Theorem gather_index_in_bounds (offset x : tensor Q) b c h w d b' c3 h' w' d'
    bi ci i j k n :
  wf x → shape x = [b; c; h; w; d] → shape offset = [b'; c3; h'; w'; d'] →
  bi < b → ci < c → 0 < h → 0 < w → 0 < d →
  (∀ px py pz sx sy sz,
     let qx := q_corner h sx px in
     let qy := q_corner w sy py in
     let qz := q_corner d sz pz in
     (0 ≤ _get_x_q_index w d qx qy qz < Z.of_nat (h * w * d))%Z
     ∧ is_Some (_get_x_q x bi ci qx qy qz))
  ∧ (is_Some (_get_p kernel_size offset bi n (i * stride) (j * stride) (k * stride)) →
     is_Some (_get_p kernel_size offset bi (c3 / 3 + n)
                (i * stride) (j * stride) (k * stride)) →
     is_Some (_get_p kernel_size offset bi (2 * (c3 / 3) + n)
                (i * stride) (j * stride) (k * stride)) →
     is_Some (x_offset_at kernel_size stride padding offset x bi ci i j k n)).
Proof.
  intros Hwf Hs Hso Hb Hc Hh Hw Hd. split.
  - intros px py pz sx sy sz. cbv zeta. split.
    + apply _get_x_q_index_range; by apply q_corner_range.
    + by eapply corner_gather_Some.
  - by eapply x_offset_at_Some.
Qed.



Lemma length_tap_range : length (tap_range kernel_size) = kernel_size.
Proof.
  unfold tap_range. rewrite length_fmap, length_seq.
  cbv zeta. Z.div_mod_to_equations. lia.
Qed.

Lemma lookup_tap_range a :
  a < kernel_size →
  tap_range kernel_size !! a
  = Some (- (Z.of_nat kernel_size - 1) / 2 + Z.of_nat a)%Z.
Proof.
  intros Ha. unfold tap_range. rewrite list_lookup_fmap, lookup_seq_lt; [done|].
  cbv zeta. Z.div_mod_to_equations. lia.
Qed.

Lemma lookup_meshgrid (f : Z → Z → Z → Z) a b c :
  a < kernel_size → b < kernel_size → c < kernel_size →
  let r := tap_range kernel_size in
  let lo := (- (Z.of_nat kernel_size - 1) / 2)%Z in
  (x ← r; y ← r; z ← r; [f x y z]) !! ((a * kernel_size + b) * kernel_size + c)
  = Some (f (lo + Z.of_nat a) (lo + Z.of_nat b) (lo + Z.of_nat c))%Z.
Proof.
  intros Ha Hb Hc r lo.
  assert (∀ x y, length (z ← r; [f x y z]) = kernel_size) as H1.
  { intros. rewrite (length_bind_const _ _ 1) by done.
    unfold r. rewrite length_tap_range. lia. }
  assert (∀ x, length (y ← r; z ← r; [f x y z]) = kernel_size * kernel_size) as H2.
  { intros. rewrite (length_bind_const _ _ kernel_size) by done.
    unfold r. by rewrite length_tap_range. }
  replace ((a * kernel_size + b) * kernel_size + c)
    with (a * (kernel_size * kernel_size) + (b * kernel_size + c)) by lia.
  rewrite (lookup_bind_const r _ (kernel_size * kernel_size)); [|done|nia].
  unfold r at 1. rewrite lookup_tap_range by done. cbn [mbind option_bind].
  rewrite (lookup_bind_const r _ kernel_size); [|done|done].
  unfold r at 1. rewrite lookup_tap_range by done. cbn [mbind option_bind].
  replace c with (c * 1 + 0) at 1 by lia.
  rewrite (lookup_bind_const r _ 1); [|done|lia].
  unfold r. rewrite lookup_tap_range by done. done.
Qed.

Lemma length_meshgrid (f : Z → Z → Z → Z) :
  let r := tap_range kernel_size in
  length (x ← r; y ← r; z ← r; [f x y z]) = kernel_size ^ 3.
Proof.
  intros r.
  rewrite (length_bind_const _ _ (kernel_size * kernel_size)).
  - unfold r. rewrite length_tap_range. cbn [Nat.pow]. lia.
  - intros. rewrite (length_bind_const _ _ kernel_size).
    + unfold r. by rewrite length_tap_range.
    + intros. rewrite (length_bind_const _ _ 1) by done.
      unfold r. rewrite length_tap_range. lia.
Qed.

Lemma length__get_p_n : length (_get_p_n kernel_size) = 3 * kernel_size ^ 3.
Proof.
  unfold _get_p_n. cbv zeta.
  pose proof (length_meshgrid (λ x _ _, x)) as L1.
  pose proof (length_meshgrid (λ _ y _, y)) as L2.
  pose proof (length_meshgrid (λ _ _ z, z)) as L3.
  cbv zeta in L1, L2, L3. rewrite !length_app, L1, L2, L3. lia.
Qed.

Lemma _get_p_n_entries (a b c : nat) :
  a < kernel_size → b < kernel_size → c < kernel_size →
  let N := kernel_size ^ 3 in
  let n := (a * kernel_size + b) * kernel_size + c in
  let lo := (- (Z.of_nat kernel_size - 1) / 2)%Z in
  length (_get_p_n kernel_size) = 3 * N ∧ n < N ∧
  _get_p_n kernel_size !! n = Some (lo + Z.of_nat a)%Z ∧
  _get_p_n kernel_size !! (N + n) = Some (lo + Z.of_nat b)%Z ∧
  _get_p_n kernel_size !! (2 * N + n) = Some (lo + Z.of_nat c)%Z.
Proof.
  intros Ha Hb Hc N n lo. unfold _get_p_n. cbv zeta.
  assert (n < N) as Hn.
  { unfold n, N. cbn [Nat.pow]. nia. }
  pose proof (length_meshgrid (λ x _ _, x)) as L1.
  pose proof (length_meshgrid (λ _ y _, y)) as L2.
  pose proof (length_meshgrid (λ _ _ z, z)) as L3.
  cbv zeta in L1, L2, L3. fold N in L1, L2, L3.
  split_and!.
  - rewrite !length_app, L1, L2, L3. lia.
  - done.
  - rewrite lookup_app_l by (rewrite L1; done).
    apply (lookup_meshgrid (λ x _ _, x)); done.
  - rewrite lookup_app_r by (rewrite L1; lia).
    rewrite lookup_app_l by (rewrite L1, L2; lia).
    rewrite L1. replace (N + n - N) with n by lia.
    apply (lookup_meshgrid (λ _ y _, y)); done.
  - rewrite lookup_app_r by (rewrite L1; lia).
    rewrite lookup_app_r by (rewrite L1, L2; lia).
    rewrite L1, L2. replace (2 * N + n - N - N) with n by lia.
    apply (lookup_meshgrid (λ _ _ z, z)); done.
Qed.

(** A sample point with integer coordinates within the volume: the small
    corner is the point itself and carries the whole weight; the large
    corner has weight 0, except on the last index of the axis, where
    the clamp makes it the same index again. *)
Lemma axis_integer size p z :
  0 < size → (p == inject_Z z)%Q → (0 ≤ z ≤ Z.of_nat size - 1)%Z →
  q_corner size small p = z ∧
  q_corner size large p = Z.min (z + 1) (Z.of_nat size - 1) ∧
  (g_factor padding size small p == 1)%Q ∧
  (g_factor padding size large p == if decide (z < Z.of_nat size - 1)%Z then 0 else 1)%Q.
Proof.
  intros Hs Hp Hz.
  assert (Qfloor p = z) as Hfl by (rewrite Hp; apply Qfloor_Z).
  assert (q_corner size small p = z) as Hqs by (rewrite q_corner_small, Hfl; lia).
  assert (q_corner size large p = Z.min (z + 1) (Z.of_nat size - 1)) as Hql
    by (rewrite q_corner_large, Hfl; lia).
  assert (p_clamped padding size p == inject_Z z)%Q as Hpc.
  { unfold p_clamped. cbv zeta. rewrite Hfl.
    generalize (border_mask padding size p). intros m.
    rewrite (clamp_inject _ z 0); [f_equiv; lia| |lia].
    setoid_rewrite Hp. ring. }
  split_and!; [done..| |].
  - unfold g_factor. rewrite Hqs. setoid_rewrite Hpc. ring.
  - unfold g_factor. rewrite Hql. setoid_rewrite Hpc.
    case_decide.
    + rewrite Z.min_l by lia. rewrite inject_Z_plus. change (inject_Z 1) with 1%Q. ring.
    + rewrite Z.min_r by lia. replace (Z.of_nat size - 1)%Z with z by lia. ring.
Qed.

(** X5.  [_get_p_n] has [3 * kernel_size ^ 3] entries; tap [(a, b, c)], in
    row-major order, is displaced by [lo + a], [lo + b], [lo + c] along
    the three axes, with [lo = -(kernel_size - 1) // 2]. *)
Theorem _get_p_n_layout (a b c : nat) :
  a < kernel_size → b < kernel_size → c < kernel_size →
  let N := kernel_size ^ 3 in
  let n := (a * kernel_size + b) * kernel_size + c in
  let lo := (- (Z.of_nat kernel_size - 1) / 2)%Z in
  length (_get_p_n kernel_size) = 3 * N ∧ n < N ∧
  _get_p_n kernel_size !! n = Some (lo + Z.of_nat a)%Z ∧
  _get_p_n kernel_size !! (N + n) = Some (lo + Z.of_nat b)%Z ∧
  _get_p_n kernel_size !! (2 * N + n) = Some (lo + Z.of_nat c)%Z.
Proof. apply _get_p_n_entries. Qed.

End AttDeformConv3d_properties.

(** *** Regular mode with a 3x3x3 kernel and padding 1 *)

Lemma get_replicate {A} (s idx : list nat) (v : A) :
  Forall2 lt idx s → get (Tensor s (replicate (numel s) v)) idx = Some v.
Proof.
  intros H. unfold get. cbn [shape data].
  apply lookup_replicate_2. by apply ravel_bounded.
Qed.

Lemma _get_p_regular b h w d bi i j k a0 a1 a2 :
  bi < b → i < h → j < w → k < d → a0 < 3 → a1 < 3 → a2 < 3 →
  let offset := Tensor [b; 81; h; w; d] (replicate (numel [b; 81; h; w; d]) 0%Q) in
  let n := (a0 * 3 + a1) * 3 + a2 in
  (∃ px, _get_p 3 offset bi n i j k = Some px
         ∧ (px == inject_Z (Z.of_nat (i + a0)))%Q) ∧
  (∃ py, _get_p 3 offset bi (27 + n) i j k = Some py
         ∧ (py == inject_Z (Z.of_nat (j + a1)))%Q) ∧
  (∃ pz, _get_p 3 offset bi (2 * 27 + n) i j k = Some pz
         ∧ (pz == inject_Z (Z.of_nat (k + a2)))%Q).
Proof.
  intros Hb Hi Hj Hk H0 H1 H2 offset n.
  destruct (_get_p_n_entries 3 a0 a1 a2 H0 H1 H2) as (HL & Hn & E0 & E1 & E2).
  cbv zeta in *. change (3 ^ 3) with 27 in *. fold n in Hn, E0, E1, E2.
  change (- (Z.of_nat 3 - 1) / 2)%Z with (-1)%Z in *.
  unfold _get_p. cbn [shape offset]. change (81 / 3) with 27.
  rewrite decide_True by done.
  rewrite E0, E1, E2. cbn [mbind option_bind].
  unfold offset. rewrite !get_replicate by (idx_bounded).
  cbn [mbind option_bind]. unfold _get_p_0.
  split_and!; eexists; (split; [reflexivity|]).
  - rewrite decide_True by lia.
    rewrite <- !inject_Z_plus, Qplus_0_r. f_equiv. lia.
  - rewrite decide_False, decide_True by lia.
    rewrite <- !inject_Z_plus, Qplus_0_r. f_equiv. lia.
  - rewrite !decide_False by lia.
    rewrite <- !inject_Z_plus, Qplus_0_r. f_equiv. lia.
Qed.

(** With zero offsets every sample is the tap of the zero-padded input
    it is centred on: the small corner is the tap itself, and each other
    corner either has weight 0 or lies on the zero border. *)
Lemma x_offset_at_regular stride (x xp : tensor Q) b c h w d bi ci i j k a0 a1 a2 :
  wf x → shape x = [b; c; h; w; d] → zero_padding 1 x = Some xp →
  bi < b → ci < c → i * stride < h → j * stride < w → k * stride < d →
  a0 < 3 → a1 < 3 → a2 < 3 →
  let offset := Tensor [b; 81; h; w; d] (replicate (numel [b; 81; h; w; d]) 0%Q) in
  ∃ v v',
    x_offset_at 3 stride 1 offset xp bi ci i j k ((a0 * 3 + a1) * 3 + a2) = Some v ∧
    get xp [bi; ci; i * stride + a0; j * stride + a1; k * stride + a2] = Some v' ∧
    (v == v')%Q.
Proof.
  intros Hwf Hs Hzp Hb Hc Hi Hj Hk H0 H1 H2 offset.
  destruct (zero_padding_Some 1 x b c h w d Hwf Hs) as (xp' & E & Hsp & Hwp & Hget).
  rewrite E in Hzp. injection Hzp as <-.
  change (2 * 1) with 2 in *.
  destruct (_get_p_regular b h w d bi (i * stride) (j * stride) (k * stride)
              a0 a1 a2 Hb Hi Hj Hk H0 H1 H2)
    as ((px & Epx & Hpx) & (py & Epy & Hpy) & (pz & Epz & Hpz)).
  cbv zeta in Epx, Epy, Epz. fold offset in Epx, Epy, Epz.
  unfold x_offset_at. rewrite Hsp. cbn [shape offset]. change (81 / 3) with 27.
  rewrite Epx, Epy, Epz. cbn [mbind option_bind]. cbv zeta.
  destruct (axis_integer 1 (h + 2) px _ ltac:(lia) Hpx ltac:(lia))
    as (Hsx & Hlx & Hgsx & Hglx).
  destruct (axis_integer 1 (w + 2) py _ ltac:(lia) Hpy ltac:(lia))
    as (Hsy & Hly & Hgsy & Hgly).
  destruct (axis_integer 1 (d + 2) pz _ ltac:(lia) Hpz ltac:(lia))
    as (Hsz & Hlz & Hgsz & Hglz).
  set (qx sd := q_corner (h + 2) sd px) in *.
  set (qy sd := q_corner (w + 2) sd py) in *.
  set (qz sd := q_corner (d + 2) sd pz) in *.
  set (gx sd := g_factor 1 (h + 2) sd px) in *.
  set (gy sd := g_factor 1 (w + 2) sd py) in *.
  set (gz sd := g_factor 1 (d + 2) sd pz) in *.
  assert (∀ sd, 0 ≤ qx sd ≤ Z.of_nat (h + 2) - 1)%Z as Rx
    by (intros; apply q_corner_range; lia).
  assert (∀ sd, 0 ≤ qy sd ≤ Z.of_nat (w + 2) - 1)%Z as Ry
    by (intros; apply q_corner_range; lia).
  assert (∀ sd, 0 ≤ qz sd ≤ Z.of_nat (d + 2) - 1)%Z as Rz
    by (intros; apply q_corner_range; lia).
  assert (∀ sx sy sz, ∃ v,
            _get_x_q xp' bi ci (qx sx) (qy sy) (qz sz) = Some v ∧
            get xp' [bi; ci; Z.to_nat (qx sx); Z.to_nat (qy sy); Z.to_nat (qz sz)]
            = Some v) as Hcorner.
  { intros sx sy sz.
    destruct (_get_x_q_Some xp' b c (h + 2) (w + 2) (d + 2) bi ci
                (qx sx) (qy sy) (qz sz) Hwp Hsp Hb Hc (Rx sx) (Ry sy) (Rz sz))
      as [Eq [v Ev]].
    exists v. split; [done|]. unfold get. rewrite Hsp, <- Eq. done. }
  assert ((gx large == 0)%Q ∨ Z.to_nat (qx large) = h + 1) as Bx.
  { destruct (decide (Z.of_nat (i * stride + a0) < Z.of_nat (h + 2) - 1)%Z);
      [by left|right]. unfold qx. rewrite Hlx. lia. }
  assert ((gy large == 0)%Q ∨ Z.to_nat (qy large) = w + 1) as By.
  { destruct (decide (Z.of_nat (j * stride + a1) < Z.of_nat (w + 2) - 1)%Z);
      [by left|right]. unfold qy. rewrite Hly. lia. }
  assert ((gz large == 0)%Q ∨ Z.to_nat (qz large) = d + 1) as Bz.
  { destruct (decide (Z.of_nat (k * stride + a2) < Z.of_nat (d + 2) - 1)%Z);
      [by left|right]. unfold qz. rewrite Hlz. lia. }
  assert (∀ sx sy sz v,
            sx = large ∨ sy = large ∨ sz = large →
            get xp' [bi; ci; Z.to_nat (qx sx); Z.to_nat (qy sy); Z.to_nat (qz sz)]
            = Some v →
            (gx sx * gy sy * gz sz * v == 0)%Q) as Hzero.
  { intros sx sy sz v Hl Gv.
    rewrite Hget in Gv by (first [done | pose proof (Rx sx); pose proof (Ry sy);
                                  pose proof (Rz sz); lia]).
    destruct Hl as [-> | [-> | ->]].
    - destruct Bx as [Hg | Hq]; [setoid_rewrite Hg; ring|].
      rewrite decide_False in Gv by lia. injection Gv as <-. ring.
    - destruct By as [Hg | Hq]; [setoid_rewrite Hg; ring|].
      rewrite decide_False in Gv by lia. injection Gv as <-. ring.
    - destruct Bz as [Hg | Hq]; [setoid_rewrite Hg; ring|].
      rewrite decide_False in Gv by lia. injection Gv as <-. ring. }
  change (q_corner (h + 2) small px) with (qx small).
  change (q_corner (h + 2) large px) with (qx large).
  change (q_corner (w + 2) small py) with (qy small).
  change (q_corner (w + 2) large py) with (qy large).
  change (q_corner (d + 2) small pz) with (qz small).
  change (q_corner (d + 2) large pz) with (qz large).
  change (g_factor 1 (h + 2) small px) with (gx small).
  change (g_factor 1 (h + 2) large px) with (gx large).
  change (g_factor 1 (w + 2) small py) with (gy small).
  change (g_factor 1 (w + 2) large py) with (gy large).
  change (g_factor 1 (d + 2) small pz) with (gz small).
  change (g_factor 1 (d + 2) large pz) with (gz large).
  destruct (Hcorner small small small) as (v0 & -> & G0).
  destruct (Hcorner large large large) as (v1 & -> & G1).
  destruct (Hcorner small small large) as (v2 & -> & G2).
  destruct (Hcorner small large small) as (v3 & -> & G3).
  destruct (Hcorner small large large) as (v4 & -> & G4).
  destruct (Hcorner large small small) as (v5 & -> & G5).
  destruct (Hcorner large small large) as (v6 & -> & G6).
  destruct (Hcorner large large small) as (v7 & -> & G7).
  cbn [mbind option_bind].
  eexists _, v0. split; [reflexivity|]. split.
  - unfold qx, qy, qz in G0. rewrite Hsx, Hsy, Hsz, !Nat2Z.id in G0. done.
  - setoid_rewrite (Hzero large large large v1 ltac:(auto) G1).
    setoid_rewrite (Hzero small small large v2 ltac:(auto) G2).
    setoid_rewrite (Hzero small large small v3 ltac:(auto) G3).
    setoid_rewrite (Hzero small large large v4 ltac:(auto) G4).
    setoid_rewrite (Hzero large small small v5 ltac:(auto) G5).
    setoid_rewrite (Hzero large small large v6 ltac:(auto) G6).
    setoid_rewrite (Hzero large large small v7 ltac:(auto) G7).
    subst gx gy gz. cbv beta.
    setoid_rewrite Hgsx. setoid_rewrite Hgsy. setoid_rewrite Hgsz. ring.
Qed.

(** *** The channel layout of the interpolated samples *)

Lemma offset_reshape_perm b c h w d N bi ci n i j k :
  offset (select [0; 1; 5; 2; 3; 4] (strides [b; c; h; w; d; N])) [bi; ci; n; i; j; k]
  = ravel [b; c; h; w; d; N] [bi; ci; i; j; k; n].
Proof. simpl. lia. Qed.

Lemma _reshape_x_offset_Some (x_offset : tensor Q) b c h w d N :
  wf x_offset → shape x_offset = [b; c; h; w; d; N] →
  ∃ t, _reshape_x_offset x_offset = Some t ∧
       shape t = [b; c * N; h; w; d] ∧ wf t ∧
       ∀ bi ci n i j k, bi < b → ci < c → n < N → i < h → j < w → k < d →
         get t [bi; ci * N + n; i; j; k] = get x_offset [bi; ci; i; j; k; n].
Proof.
  destruct x_offset as [s dat]. unfold wf. cbn [shape data]. intros Hwf ->.
  unfold _reshape_x_offset. cbn [shape].
  destruct (permute_is_Some [0; 1; 5; 2; 3; 4] (Tensor [b; c; h; w; d; N] dat))
    as [x2 Hx2].
  { done. }
  { cbn [shape data]. intros m Hm.
    change (select [0; 1; 5; 2; 3; 4] [b; c; h; w; d; N]) with [b; c; N; h; w; d] in *.
    pose proof (unravel_bounded _ _ Hm) as Hb. forall2_list Hb.
    rewrite offset_reshape_perm, Hwf. apply ravel_bounded. idx_bounded. }
  rewrite Hx2. cbn [mbind option_bind].
  apply permute_Some in Hx2 as (Hs & Hl & Hd). cbn [shape data] in Hs, Hd.
  change (select [0; 1; 5; 2; 3; 4] [b; c; h; w; d; N]) with [b; c; N; h; w; d] in Hs.
  rewrite Hs in Hl, Hd.
  assert (numel [b; c; N; h; w; d] = numel [b; c * N; h; w; d]) as Hnum
    by (cbn [numel foldr]; lia).
  change [Some b; Some (c * N); Some h; Some w; Some d]
    with (Some <$> [b; c * N; h; w; d]).
  rewrite (view_all x2 [b; c * N; h; w; d]) by congruence.
  eexists. split; [reflexivity|]. cbn [shape data]. split; [done|].
  split; [unfold wf; cbn [shape data]; congruence|].
  intros bi ci n i j k ??????. unfold get. cbn [shape data].
  assert (ravel [b; c * N; h; w; d] [bi; ci * N + n; i; j; k]
          = ravel [b; c; N; h; w; d] [bi; ci; n; i; j; k]) as ->
    by (cbn [ravel numel foldr]; lia).
  rewrite Hd by (apply ravel_bounded; idx_bounded).
  rewrite unravel_ravel by idx_bounded.
  by rewrite offset_reshape_perm.
Qed.

(** X6.  [_reshape_x_offset] turns the samples of shape
    [(b, c, h, w, d, N)] into [c * N] channels: channel [ci * N + n]
    holds tap [n] of input channel [ci], at every position. *)
Theorem _reshape_x_offset_channels (x_offset : tensor Q) b c h w d N :
  wf x_offset → shape x_offset = [b; c; h; w; d; N] →
  ∃ t, _reshape_x_offset x_offset = Some t ∧
       shape t = [b; c * N; h; w; d] ∧ wf t ∧
       ∀ bi ci n i j k, bi < b → ci < c → n < N → i < h → j < w → k < d →
         get t [bi; ci * N + n; i; j; k] = get x_offset [bi; ci; i; j; k; n].
Proof. apply _reshape_x_offset_Some. Qed.

(** *** The projection respects the value of its inputs *)

Lemma dot_Qeq w xs ys : Forall2 Qeq xs ys → (dot w xs == dot w ys)%Q.
Proof.
  intros H. revert w. induction H as [|x y xs ys Hxy _ IH]; intros w.
  - by destruct w.
  - destruct w as [|a w]; [done|]. unfold dot in *. cbn [zip_with foldr].
    rewrite (IH w). setoid_rewrite Hxy. reflexivity.
Qed.

Lemma conv1x1x1_at_Qeq weight bias o xs ys :
  Forall2 Qeq xs ys →
  option_Forall2 Qeq (conv1x1x1_at weight bias o xs) (conv1x1x1_at weight bias o ys).
Proof.
  intros H. unfold conv1x1x1_at.
  destruct (weight !! o) as [w|]; [|constructor]. cbn [mbind option_bind].
  destruct (match bias with Some bs => bs !! o | None => Some 0%Q end) as [b0|];
    [|constructor].
  cbn [mbind option_bind]. rewrite <- (Forall2_length _ _ _ H).
  case_decide; constructor. by rewrite (dot_Qeq w xs ys H).
Qed.

Lemma strided_position n stride i :
  0 < stride → i < (n + stride - 1) / stride → i * stride < n.
Proof.
  intros Hs Hi. pose proof (Nat.Div0.mul_div_le (n + stride - 1) stride). nia.
Qed.

Lemma strided_extent n stride :
  0 < stride → 0 < n → (n + stride - 1) / stride = (n + 2 * 1 - 3) / stride + 1.
Proof.
  intros Hs Hn. replace (n + stride - 1) with ((n + 2 * 1 - 3) + 1 * stride) by lia.
  rewrite Nat.div_add by lia. done.
Qed.

(** X3.  In regular mode, a layer with a 3x3x3 kernel and padding 1 computes
    the dense zero-padded convolution of the squeezed input whose
    coefficients are the rows of the final projection: the same shape,
    the same entries, and the same failures. *)
Theorem regular_mode_standard_convolution
    (stride : nat) (conv_se offset_conv_kernel att : tensor Q → option (tensor Q))
    (weight : list (list Q)) (bias : option (list Q)) (x x' : tensor Q)
    (b c h w d : nat) :
  0 < stride → conv_se x = Some x' → wf x' → shape x' = [b; c; h; w; d] →
  0 < b → 0 < c → 0 < h → 0 < w → 0 < d →
  option_Forall2 tensor_Qeq
    (AttDeformConv3d_forward 3 stride 1 conv_se offset_conv_kernel att
                             weight bias regular x)
    (conv3d 3 stride 1 weight bias x').
Proof.
  intros Hst Hse Hwf Hs Hb Hc Hh Hw Hd.
  unfold AttDeformConv3d_forward. rewrite Hse. cbn [mbind option_bind].
  rewrite Hs. cbn [mbind option_bind]. rewrite decide_False by done.
  destruct (zero_padding_Some 1 x' b c h w d Hwf Hs) as (xp & Hzp & Hsp & Hwp & Hget).
  rewrite Hzp. cbn [mbind option_bind].
  change (3 * 3 ^ 3) with 81.
  set (offset := Tensor [b; 81; h; w; d] (replicate (numel [b; 81; h; w; d]) 0%Q)).
  unfold sample, conv3d. rewrite Hsp, Hs, Hzp. cbn [shape offset mbind option_bind].
  rewrite !decide_False by lia. change (81 / 3) with 27. change (3 ^ 3) with 27.
  rewrite <- !strided_extent by done.
  set (sh := (h + stride - 1) / stride).
  set (sw := (w + stride - 1) / stride).
  set (sd := (d + stride - 1) / stride).
  (* the flattening of the padded volume *)
  assert (view xp [Some b; Some c; None]
          = Some (Tensor ([b; c] ++ [(h + 2 * 1) * (w + 2 * 1) * (d + 2 * 1)]) (data xp)))
    as ->.
  { apply (view_infer_last xp [b; c]).
    - cbn [numel foldr]. nia.
    - rewrite Hwp, Hsp. cbn [numel foldr]. lia. }
  cbn [mbind option_bind].
  (* the interpolated samples *)
  match goal with |- context [tabulate [b; c; sh; sw; sd; 27] ?f] =>
    set (F := f); destruct (tabulate_is_Some [b; c; sh; sw; sd; 27] F) as [xo Hxo] end.
  { intros m Hm. apply unravel_bounded in Hm. forall2_list Hm. unfold F.
    assert (Forall2 lt (unravel [3; 3; 3] i4) [3; 3; 3]) as Hu
      by (apply unravel_bounded; cbn; lia).
    pose proof (ravel_unravel [3; 3; 3] i4 ltac:(cbn; lia)) as Hr.
    forall2_list Hu. rewrite <- Hr.
    destruct (x_offset_at_regular stride x' xp b c h w d i i0 i1 i2 i3 i5 i6 i7)
      as (v & v' & Ev & _); try done; try (apply strided_position; done).
    cbv zeta in Ev. fold offset in Ev.
    replace (ravel [3; 3; 3] [i5; i6; i7]) with ((i5 * 3 + i6) * 3 + i7)
      by (cbn [ravel numel foldr]; lia).
    by rewrite Ev. }
  rewrite Hxo. cbn [mbind option_bind].
  destruct (tabulate_wf _ _ _ Hxo) as [Hsxo Hwxo].
  destruct (_reshape_x_offset_Some xo b c sh sw sd 27 Hwxo Hsxo)
    as (t & -> & Hst' & Hwt & Hgt).
  cbn [mbind option_bind]. unfold conv1x1x1. rewrite Hst'.
  apply tabulate_rel. intros idx Hidx. forall2_list Hidx.
  match goal with |- option_Forall2 _ (mapM ?f ?l ≫= _) (mapM ?g _ ≫= _) =>
    destruct (mapM_rel Qeq f g l) as [xs ys Hxy|] end.
  - intros m Hm%elem_of_seq.
    assert (m < numel [c; 3; 3; 3]) as Hm' by (cbn [numel foldr]; lia).
    pose proof (unravel_bounded _ _ Hm') as Hu.
    pose proof (ravel_unravel _ _ Hm') as Hr.
    forall2_list Hu.
    destruct (x_offset_at_regular stride x' xp b c h w d i i4 i1 i2 i3 i5 i6 i7)
      as (v & v' & Ev & Ev' & Hvv'); try done; try (apply strided_position; done).
    cbv zeta in Ev. fold offset in Ev.
    rewrite Ev'.
    assert (m = i4 * 27 + ((i5 * 3 + i6) * 3 + i7)) as ->
      by (rewrite <- Hr; cbn [ravel numel foldr]; lia).
    rewrite Hgt by lia.
    rewrite (tabulate_get _ _ _ _ Hxo) by idx_bounded.
    unfold F. rewrite Ev. by constructor.
  - cbn [mbind option_bind]. by apply conv1x1x1_at_Qeq.
  - constructor.
Qed.

(** *** Sampling is defined for every offset field *)

Lemma three_div n : 3 * n / 3 = n.
Proof. rewrite (Nat.mul_comm 3). by apply Nat.div_mul. Qed.

Lemma _get_p_Some kernel_size (offset : tensor Q) b h w d bi ch i j k :
  wf offset → shape offset = [b; 3 * kernel_size ^ 3; h; w; d] →
  bi < b → ch < 3 * kernel_size ^ 3 → i < h → j < w → k < d →
  is_Some (_get_p kernel_size offset bi ch i j k).
Proof.
  intros Hwf Hs Hb Hch Hi Hj Hk. unfold _get_p. rewrite Hs, three_div.
  rewrite decide_True by (rewrite length__get_p_n; lia).
  destruct (lookup_lt_is_Some_2 (_get_p_n kernel_size) ch) as [pn ->];
    [rewrite length__get_p_n; lia|].
  destruct (get_is_Some offset [bi; ch; i; j; k] Hwf) as [o ->];
    [rewrite Hs; idx_bounded; lia|].
  done.
Qed.

Lemma conv1x1x1_at_Some weight bias o xs :
  o < length weight → Forall (λ r, length r = length xs) weight →
  match bias with Some bs => length weight ≤ length bs | None => True end →
  is_Some (conv1x1x1_at weight bias o xs).
Proof.
  intros Ho Hw Hb. unfold conv1x1x1_at.
  destruct (lookup_lt_is_Some_2 weight o Ho) as [r Hr]. rewrite Hr.
  cbn [mbind option_bind].
  assert (is_Some (match bias with Some bs => bs !! o | None => Some 0%Q end)) as [b0 ->].
  { destruct bias as [bs|]; [|done]. apply lookup_lt_is_Some_2. lia. }
  cbn [mbind option_bind].
  rewrite decide_True; [done|].
  by apply (Forall_lookup_1 _ _ _ _ Hw Hr).
Qed.

Lemma sample_total_helper (kernel_size stride padding : nat)
    (weight : list (list Q)) (bias : option (list Q)) (offset x : tensor Q)
    (b c h w d ph pw pd : nat) :
  0 < stride →
  wf offset → shape offset = [b; 3 * kernel_size ^ 3; h; w; d] →
  wf x → shape x = [b; c; ph; pw; pd] →
  0 < b → 0 < c → 0 < ph → 0 < pw → 0 < pd →
  Forall (λ r, length r = c * kernel_size ^ 3) weight →
  match bias with Some bs => length weight ≤ length bs | None => True end →
  ∃ out,
    sample kernel_size stride padding weight bias offset x = Some out ∧
    shape out = [b; length weight; (h + stride - 1) / stride;
                 (w + stride - 1) / stride; (d + stride - 1) / stride] ∧
    wf out.
Proof.
  intros Hst Hwo Hso Hwx Hsx Hb Hc Hph Hpw Hpd Hweight Hbias.
  unfold sample. rewrite Hso, Hsx. rewrite decide_False by lia.
  rewrite three_div.
  set (N := kernel_size ^ 3) in *.
  set (sh := (h + stride - 1) / stride).
  set (sw := (w + stride - 1) / stride).
  set (sd := (d + stride - 1) / stride).
  assert (view x [Some b; Some c; None]
          = Some (Tensor ([b; c] ++ [ph * pw * pd]) (data x))) as ->.
  { apply (view_infer_last x [b; c]).
    - cbn [numel foldr]. nia.
    - rewrite Hwx, Hsx. cbn [numel foldr]. lia. }
  cbn [mbind option_bind].
  match goal with |- context [tabulate [b; c; sh; sw; sd; N] ?f] =>
    set (F := f); destruct (tabulate_is_Some [b; c; sh; sw; sd; N] F) as [xo Hxo] end.
  { intros m Hm. apply unravel_bounded in Hm. forall2_list Hm. unfold F.
    pose proof (strided_position h stride i1 Hst ltac:(done)).
    pose proof (strided_position w stride i2 Hst ltac:(done)).
    pose proof (strided_position d stride i3 Hst ltac:(done)).
    eapply (x_offset_at_Some kernel_size stride padding offset x); try done.
    - apply (_get_p_Some kernel_size offset b h w d); try done. fold N. lia.
    - rewrite three_div.
      apply (_get_p_Some kernel_size offset b h w d); try done. fold N. lia.
    - rewrite three_div.
      apply (_get_p_Some kernel_size offset b h w d); try done. fold N. lia. }
  rewrite Hxo. cbn [mbind option_bind].
  destruct (tabulate_wf _ _ _ Hxo) as [Hsxo Hwxo].
  destruct (_reshape_x_offset_Some xo b c sh sw sd N Hwxo Hsxo)
    as (t & -> & Hst' & Hwt & Hgt).
  cbn [mbind option_bind]. unfold conv1x1x1. rewrite Hst'.
  match goal with |- context [tabulate ?s ?f] =>
    destruct (tabulate_is_Some s f) as [out Hout] end.
  { intros m Hm. apply unravel_bounded in Hm. forall2_list Hm.
    match goal with |- is_Some (mapM ?f ?l ≫= _) =>
      destruct (mapM_is_Some_2 f l) as [xs Hxs] end.
    { apply Forall_forall. intros ch Hch%elem_of_seq.
      apply get_is_Some; [done|]. rewrite Hst'. idx_bounded. }
    rewrite Hxs. cbn [mbind option_bind].
    apply length_mapM in Hxs. rewrite length_seq in Hxs.
    apply conv1x1x1_at_Some; [done| |done].
    rewrite <- Hxs. done. }
  exists out. destruct (tabulate_wf _ _ _ Hout) as [? ?]. done.
Qed.

(** X2.  For every offset field, whatever its values, the sampling stage
    returns a tensor over the strided grid: no gather reads outside the
    padded volume. *)
Theorem sample_defined (kernel_size stride padding : nat)
    (weight : list (list Q)) (bias : option (list Q)) (offset x : tensor Q)
    (b c h w d ph pw pd : nat) :
  0 < stride →
  wf offset → shape offset = [b; 3 * kernel_size ^ 3; h; w; d] →
  wf x → shape x = [b; c; ph; pw; pd] →
  0 < b → 0 < c → 0 < ph → 0 < pw → 0 < pd →
  Forall (λ r, length r = c * kernel_size ^ 3) weight →
  match bias with Some bs => length weight ≤ length bs | None => True end →
  ∃ out,
    sample kernel_size stride padding weight bias offset x = Some out ∧
    shape out = [b; length weight; (h + stride - 1) / stride;
                 (w + stride - 1) / stride; (d + stride - 1) / stride] ∧
    wf out.
Proof. apply sample_total_helper. Qed.

(** *** Instances *)

Lemma gather_index_in_bounds_witness :
  let offset := Tensor [1; 3; 1; 1; 1] [(7 # 2)%Q; (-3)%Q; (1 # 3)%Q] in
  let x := Tensor [1; 1; 2; 2; 2] (inject_Z <$> [1; 2; 3; 4; 5; 6; 7; 8]%Z) in
  (∀ px py pz sx sy sz,
     let qx := q_corner 2 sx px in
     let qy := q_corner 2 sy py in
     let qz := q_corner 2 sz pz in
     (0 ≤ _get_x_q_index 2 2 qx qy qz < Z.of_nat (2 * 2 * 2))%Z
     ∧ is_Some (_get_x_q x 0 0 qx qy qz))
  ∧ (is_Some (_get_p 1 offset 0 0 (0 * 1) (0 * 1) (0 * 1)) →
     is_Some (_get_p 1 offset 0 (3 / 3 + 0) (0 * 1) (0 * 1) (0 * 1)) →
     is_Some (_get_p 1 offset 0 (2 * (3 / 3) + 0) (0 * 1) (0 * 1) (0 * 1)) →
     is_Some (x_offset_at 1 1 0 offset x 0 0 0 0 0 0)).
Proof.
  apply (gather_index_in_bounds 1 1 0
           (Tensor [1; 3; 1; 1; 1] [(7 # 2)%Q; (-3)%Q; (1 # 3)%Q])
           (Tensor [1; 1; 2; 2; 2] (inject_Z <$> [1; 2; 3; 4; 5; 6; 7; 8]%Z))
           1 1 2 2 2 1 3 1 1 1 0 0 0 0 0 0);
    try reflexivity; lia.
Defined.


Lemma _get_p_n_layout_witness :
  let N := 3 ^ 3 in
  let n := (2 * 3 + 0) * 3 + 1 in
  let lo := (- (Z.of_nat 3 - 1) / 2)%Z in
  length (_get_p_n 3) = 3 * N ∧ n < N ∧
  _get_p_n 3 !! n = Some (lo + Z.of_nat 2)%Z ∧
  _get_p_n 3 !! (N + n) = Some (lo + Z.of_nat 0)%Z ∧
  _get_p_n 3 !! (2 * N + n) = Some (lo + Z.of_nat 1)%Z.
Proof. apply (_get_p_n_layout 3 2 0 1); lia. Defined.

Lemma regular_mode_standard_convolution_witness :
  let x := Tensor [1; 1; 2; 2; 3] ((λ n, inject_Z (Z.of_nat n)) <$> seq 1 12) in
  let weight := [(λ n, inject_Z (Z.of_nat n)) <$> seq 1 27] in
  option_Forall2 tensor_Qeq
    (AttDeformConv3d_forward 3 2 1 Some Some Some weight None regular x)
    (conv3d 3 2 1 weight None x).
Proof.
  apply (regular_mode_standard_convolution 2 Some Some Some
           [(λ n, inject_Z (Z.of_nat n)) <$> seq 1 27] None
           (Tensor [1; 1; 2; 2; 3] ((λ n, inject_Z (Z.of_nat n)) <$> seq 1 12))
           (Tensor [1; 1; 2; 2; 3] ((λ n, inject_Z (Z.of_nat n)) <$> seq 1 12))
           1 1 2 2 3); try reflexivity; lia.
Defined.

Lemma sample_defined_witness :
  let offset := Tensor [1; 3; 1; 1; 2]
                  [(7 # 2)%Q; (-3)%Q; (1 # 3)%Q; 100%Q; (-1 # 7)%Q; 0%Q] in
  let x := Tensor [1; 1; 2; 2; 2] (inject_Z <$> [1; 2; 3; 4; 5; 6; 7; 8]%Z) in
  ∃ out,
    sample 1 1 0 [[2%Q]] None offset x = Some out ∧
    shape out = [1; length [[2%Q]]; (1 + 1 - 1) / 1; (1 + 1 - 1) / 1; (2 + 1 - 1) / 1] ∧
    wf out.
Proof.
  apply (sample_defined 1 1 0 [[2%Q]] None
           (Tensor [1; 3; 1; 1; 2]
              [(7 # 2)%Q; (-3)%Q; (1 # 3)%Q; 100%Q; (-1 # 7)%Q; 0%Q])
           (Tensor [1; 1; 2; 2; 2] (inject_Z <$> [1; 2; 3; 4; 5; 6; 7; 8]%Z))
           1 1 1 1 2 2 2 2); try reflexivity; try lia; repeat constructor.
Defined.

Lemma _reshape_x_offset_channels_witness :
  let x_offset := Tensor [1; 2; 1; 1; 2; 3] (inject_Z <$> [0; 1; 2; 3; 4; 5; 6; 7; 8; 9; 10; 11]%Z) in
  ∃ t, _reshape_x_offset x_offset = Some t ∧
       shape t = [1; 2 * 3; 1; 1; 2] ∧ wf t ∧
       ∀ bi ci n i j k, bi < 1 → ci < 2 → n < 3 → i < 1 → j < 1 → k < 2 →
         get t [bi; ci * 3 + n; i; j; k] = get x_offset [bi; ci; i; j; k; n].
Proof.
  apply (_reshape_x_offset_channels
           (Tensor [1; 2; 1; 1; 2; 3]
              (inject_Z <$> [0; 1; 2; 3; 4; 5; 6; 7; 8; 9; 10; 11]%Z))
           1 2 1 1 2 3); reflexivity.
Defined.

(** ** The geometry of a transformer block *)

Lemma tensor_ext {A} (t1 t2 : tensor A) :
  wf t1 → wf t2 → shape t1 = shape t2 →
  (∀ idx, Forall2 lt idx (shape t1) → get t1 idx = get t2 idx) →
  t1 = t2.
Proof.
  destruct t1 as [s1 d1], t2 as [s2 d2]. unfold wf, get. cbn [shape data].
  intros H1 H2 <- Hget. f_equal. apply list_eq. intros j.
  destruct (decide (j < numel s1)) as [Hj|Hj].
  - specialize (Hget (unravel s1 j) (unravel_bounded _ _ Hj)).
    by rewrite ravel_unravel in Hget.
  - rewrite !lookup_ge_None_2 by lia. done.
Qed.

Lemma get_tabulate_ext {A} s (f : list nat → option A) (t x : tensor A) :
  tabulate s f = Some t → wf x → shape x = s →
  (∀ idx, Forall2 lt idx s → f idx = get x idx) → t = x.
Proof.
  intros Ht Hwf Hs Hf. destruct (tabulate_wf _ _ _ Ht) as [Hst Hwt].
  apply tensor_ext; [done|done|congruence|].
  intros idx Hidx. rewrite Hst in Hidx.
  rewrite (tabulate_get _ _ _ _ Ht) by done. by apply Hf.
Qed.

Lemma F_pad_Some (x : tensor Q) B D H W C pad_r pad_b pad_d1 :
  wf x → shape x = [B; D; H; W; C] →
  ∃ xp, F_pad x 0 pad_r 0 pad_b 0 pad_d1 = Some xp ∧
        shape xp = [B; D + pad_d1; H + pad_b; W + pad_r; C] ∧ wf xp ∧
        ∀ b i j k c, b < B → i < D + pad_d1 → j < H + pad_b → k < W + pad_r → c < C →
          get xp [b; i; j; k; c]
          = if decide (i < D ∧ j < H ∧ k < W) then get x [b; i; j; k; c] else Some 0%Q.
Proof.
  intros Hwf Hs. unfold F_pad. rewrite Hs. cbn [Nat.add].
  match goal with |- context [tabulate ?s ?f] =>
    destruct (tabulate_is_Some s f) as [xp Hxp] end.
  { intros m Hm. apply unravel_bounded in Hm. forall2_list Hm.
    case_decide; [|done]. apply get_is_Some; [done|].
    rewrite Hs. idx_bounded. }
  exists xp. destruct (tabulate_wf _ _ _ Hxp) as [Hsp Hwp].
  split_and!; [done..|].
  intros b i j k c ?????. rewrite (tabulate_get _ _ _ _ Hxp) by idx_bounded.
  rewrite !Nat.sub_0_r. repeat case_decide; try done; lia.
Qed.

Lemma roll_axis_lt n shift i : i < n → roll_axis n shift i < n.
Proof.
  intros Hi. unfold roll_axis.
  pose proof (Z.mod_pos_bound (Z.of_nat i - shift) (Z.of_nat n) ltac:(lia)). lia.
Qed.

Lemma roll_axis_inverse n shift i :
  i < n → roll_axis n (- shift) (roll_axis n shift i) = i.
Proof.
  intros Hi. unfold roll_axis.
  pose proof (Z.mod_pos_bound (Z.of_nat i - shift) (Z.of_nat n) ltac:(lia)).
  rewrite Z2Nat.id by lia.
  replace ((Z.of_nat i - shift) `mod` Z.of_nat n - - shift)%Z
    with ((Z.of_nat i - shift) `mod` Z.of_nat n + shift)%Z by lia.
  rewrite Zplus_mod_idemp_l.
  replace (Z.of_nat i - shift + shift)%Z with (Z.of_nat i) by lia.
  rewrite Z.mod_small by lia. apply Nat2Z.id.
Qed.

Lemma roll_Some (x : tensor Q) B D H W C s0 s1 s2 :
  wf x → shape x = [B; D; H; W; C] →
  ∃ xr, roll x s0 s1 s2 = Some xr ∧ shape xr = [B; D; H; W; C] ∧ wf xr ∧
        ∀ b i j k c, b < B → i < D → j < H → k < W → c < C →
          get xr [b; i; j; k; c]
          = get x [b; roll_axis D s0 i; roll_axis H s1 j; roll_axis W s2 k; c].
Proof.
  intros Hwf Hs. unfold roll. rewrite Hs.
  match goal with |- context [tabulate ?s ?f] =>
    destruct (tabulate_is_Some s f) as [xr Hxr] end.
  { intros m Hm. apply unravel_bounded in Hm. forall2_list Hm.
    apply get_is_Some; [done|]. rewrite Hs.
    pose proof (roll_axis_lt D s0 i0). pose proof (roll_axis_lt H s1 i1).
    pose proof (roll_axis_lt W s2 i2). idx_bounded. }
  exists xr. destruct (tabulate_wf _ _ _ Hxr) as [Hsr Hwr].
  split_and!; [done..|].
  intros b i j k c ?????. by rewrite (tabulate_get _ _ _ _ Hxr) by idx_bounded.
Qed.

(** Rolling back by the opposite shifts restores the tensor. *)
Lemma roll_roll (x y : tensor Q) B D H W C s0 s1 s2 :
  wf x → shape x = [B; D; H; W; C] →
  roll x s0 s1 s2 = Some y → roll y (- s0) (- s1) (- s2) = Some x.
Proof.
  intros Hwf Hs Hy.
  destruct (roll_Some x B D H W C s0 s1 s2 Hwf Hs) as (y' & E & Hsy & Hwy & Hgy).
  rewrite E in Hy. injection Hy as <-.
  destruct (roll_Some y' B D H W C (- s0) (- s1) (- s2) Hwy Hsy)
    as (z & Ez & Hsz & Hwz & Hgz).
  rewrite Ez. f_equal. apply tensor_ext; [done|done|congruence|].
  intros idx Hidx. rewrite Hsz in Hidx. forall2_list Hidx.
  rewrite Hgz by done.
  pose proof (roll_axis_lt D (- s0) i0 ltac:(done)).
  pose proof (roll_axis_lt H (- s1) i1 ltac:(done)).
  pose proof (roll_axis_lt W (- s2) i2 ltac:(done)).
  rewrite Hgy by done.
  rewrite <- (Z.opp_involutive s0) at 1. rewrite <- (Z.opp_involutive s1) at 1.
  rewrite <- (Z.opp_involutive s2) at 1.
  by rewrite !roll_axis_inverse.
Qed.

(** Cropping a tensor padded at the far ends restores it. *)
Lemma crop_F_pad (x xp : tensor Q) B D H W C pad_r pad_b pad_d1 :
  wf x → shape x = [B; D; H; W; C] →
  F_pad x 0 pad_r 0 pad_b 0 pad_d1 = Some xp → crop xp D H W = Some x.
Proof.
  intros Hwf Hs Hxp.
  destruct (F_pad_Some x B D H W C pad_r pad_b pad_d1 Hwf Hs)
    as (xp' & E & Hsp & Hwp & Hgp).
  rewrite E in Hxp. injection Hxp as <-.
  unfold crop. rewrite Hsp. rewrite !Nat.min_l by lia.
  match goal with |- context [tabulate ?s ?f] =>
    destruct (tabulate_is_Some s f) as [z Hz] end.
  { intros m Hm. apply unravel_bounded in Hm. forall2_list Hm.
    apply get_is_Some; [done|]. rewrite Hsp. idx_bounded. }
  rewrite Hz. f_equal. apply (get_tabulate_ext _ _ _ _ Hz); [done|done|].
  intros idx Hidx. forall2_list Hidx.
  rewrite Hgp by lia. by rewrite decide_True.
Qed.

Lemma F_pad_nothing (x : tensor Q) B D H W C :
  wf x → shape x = [B; D; H; W; C] → F_pad x 0 0 0 0 0 0 = Some x.
Proof.
  intros Hwf Hs.
  destruct (F_pad_Some x B D H W C 0 0 0 Hwf Hs) as (xp & E & Hsp & Hwp & Hgp).
  rewrite E. f_equal. rewrite !Nat.add_0_r in *.
  apply tensor_ext; [done|done|congruence|].
  intros idx Hidx. rewrite Hsp in Hidx. forall2_list Hidx.
  rewrite Hgp by done. by rewrite decide_True.
Qed.

Lemma pad_to_multiple D w :
  0 < w →
  let pad := (w - D mod w) mod w in
  pad < w ∧ D + pad = (D + pad) / w * w ∧ (0 < D → 0 < (D + pad) / w)
  ∧ (pad = 0 ↔ D mod w = 0).
Proof.
  intros Hw pad.
  pose proof (Nat.div_mod_eq D w) as HD.
  pose proof (Nat.mod_upper_bound D w ltac:(lia)) as Hm.
  assert (pad < w) as Hp by (apply Nat.mod_upper_bound; lia).
  assert (D + pad = (D / w + (if decide (D mod w = 0) then 0 else 1)) * w) as E.
  { unfold pad. case_decide as Hz.
    - rewrite Hz, Nat.sub_0_r, Nat.Div0.mod_same. lia.
    - rewrite Nat.mod_small by lia. lia. }
  assert ((D + pad) / w = D / w + (if decide (D mod w = 0) then 0 else 1)) as Ediv
    by (rewrite E; apply Nat.div_mul; lia).
  split_and!.
  - done.
  - rewrite Ediv. done.
  - intros HD0. rewrite Ediv. case_decide; [|lia].
    assert (D / w ≠ 0); [|lia]. intros Hq. rewrite Hq in HD. lia.
  - unfold pad. split.
    + intros Hz. destruct (decide (D mod w = 0)) as [|Hn]; [done|].
      rewrite Nat.mod_small in Hz by lia. lia.
    + intros ->. by rewrite Nat.sub_0_r, Nat.Div0.mod_same.
Qed.

Lemma get_window_size_three (x0 x1 x2 w0 w1 w2 s0 s1 s2 : nat) :
  get_window_size [x0; x1; x2] [w0; w1; w2] [s0; s1; s2]
  = Some ([if decide (x0 ≤ w0) then x0 else w0; if decide (x1 ≤ w1) then x1 else w1;
           if decide (x2 ≤ w2) then x2 else w2],
          [if decide (x0 ≤ w0) then 0 else s0; if decide (x1 ≤ w1) then 0 else s1;
           if decide (x2 ≤ w2) then 0 else s2]).
Proof.
  unfold get_window_size, get_window_size_step. simpl.
  repeat case_decide; simpl; try done; lia.
Qed.

Lemma window_reverse_data {A} (s1 s2 : list nat) (dat : list A) ws B D H W :
  window_reverse (Tensor s1 dat) ws B D H W = window_reverse (Tensor s2 dat) ws B D H W.
Proof. done. Qed.

(** X7.  The geometry of [forward_part1] loses nothing: with a
    normalisation and an attention that return their input, padding to
    multiples of the effective window, the cyclic shift, the partition
    into windows, the merge, the reverse shift and the crop give back
    the input, for every non-empty input and positive window. *)
Theorem forward_part1_geometry {mask : Type} (W0 W1 W2 S0 S1 S2 : nat)
    (x : tensor Q) (mask_matrix : mask) (B D H W C : nat) :
  wf x → shape x = [B; D; H; W; C] →
  0 < B → 0 < D → 0 < H → 0 < W → 0 < C → 0 < W0 → 0 < W1 → 0 < W2 →
  BottleneckBlock3D_forward_part1 [W0; W1; W2] [S0; S1; S2]
    Some (λ windows _, Some windows) x mask_matrix
  = Some x.
Proof.
  intros Hwf Hs HB HD HH HW HC HW0 HW1 HW2.
  unfold BottleneckBlock3D_forward_part1.
  rewrite Hs, get_window_size_three. cbn [mbind option_bind].
  set (w0 := if decide (D ≤ W0) then D else W0).
  set (w1 := if decide (H ≤ W1) then H else W1).
  set (w2 := if decide (W ≤ W2) then W else W2).
  set (s0 := if decide (D ≤ W0) then 0 else S0).
  set (s1 := if decide (H ≤ W1) then 0 else S1).
  set (s2 := if decide (W ≤ W2) then 0 else S2).
  assert (0 < w0) as Hw0 by (unfold w0; case_decide; lia).
  assert (0 < w1) as Hw1 by (unfold w1; case_decide; lia).
  assert (0 < w2) as Hw2 by (unfold w2; case_decide; lia).
  unfold pymod.
  do 2 (rewrite (decide_False (P := w0 = 0)) by lia; cbn [mbind option_bind]).
  do 2 (rewrite (decide_False (P := w1 = 0)) by lia; cbn [mbind option_bind]).
  do 2 (rewrite (decide_False (P := w2 = 0)) by lia; cbn [mbind option_bind]).
  destruct (pad_to_multiple D w0 Hw0) as (_ & ED & HnD & HzD).
  destruct (pad_to_multiple H w1 Hw1) as (_ & EH & HnH & HzH).
  destruct (pad_to_multiple W w2 Hw2) as (_ & EW & HnW & HzW).
  cbv zeta in *.
  set (pad_d1 := (w0 - D mod w0) mod w0) in *.
  set (pad_b := (w1 - H mod w1) mod w1) in *.
  set (pad_r := (w2 - W mod w2) mod w2) in *.
  set (nd := (D + pad_d1) / w0) in *.
  set (nh := (H + pad_b) / w1) in *.
  set (nw := (W + pad_r) / w2) in *.
  destruct (F_pad_Some x B D H W C pad_r pad_b pad_d1 Hwf Hs)
    as (xp & Hxp & Hsp & Hwp & _).
  rewrite Hxp. cbn [mbind option_bind]. rewrite Hsp.
  set (shifted := existsb (λ i, bool_decide (0 < i)) [s0; s1; s2]).
  assert (∃ xr,
            (if shifted
             then roll xp (- Z.of_nat s0) (- Z.of_nat s1) (- Z.of_nat s2)
             else Some xp) = Some xr ∧
            wf xr ∧ shape xr = [B; nd * w0; nh * w1; nw * w2; C] ∧
            (if shifted
             then roll xr (Z.of_nat s0) (Z.of_nat s1) (Z.of_nat s2)
             else Some xr) = Some xp) as (xr & -> & Hwr & Hsr & Hback).
  { rewrite ED, EH, EW in Hsp. destruct shifted.
    - destruct (roll_Some xp _ _ _ _ _ (- Z.of_nat s0) (- Z.of_nat s1) (- Z.of_nat s2)
                  Hwp Hsp) as (xr & Hxr & Hsr & Hwr & _).
      exists xr. split_and!; [done..|].
      pose proof (roll_roll xp xr _ _ _ _ _ _ _ _ Hwp Hsp Hxr) as Hrr.
      by rewrite !Z.opp_involutive in Hrr.
    - by exists xp. }
  cbn [mbind option_bind].
  destruct (window_partition_Some xr B nd nh nw C w0 w1 w2 Hwr Hsr Hw0 Hw1 Hw2 HC)
    as (d' & Hpart & Hlen & _).
  pose proof (window_reverse_partition_mult xr B nd nh nw C w0 w1 w2 Hwr Hsr HB
                ltac:(auto) ltac:(auto) ltac:(auto) HC Hw0 Hw1 Hw2) as Hround.
  rewrite Hpart in Hround |- *. cbn [mbind option_bind] in Hround |- *.
  change (None :: (Some <$> [w0; w1; w2]) ++ [Some C])
    with (None :: (Some <$> [w0; w1; w2; C])).
  rewrite (view_infer_first _ [w0; w1; w2; C] (B * nd * nh * nw)).
  2: { cbn [numel foldr]. nia. }
  2: { cbn [data numel foldr]. rewrite Hlen, Hwr, Hsr. cbn [numel foldr]. lia. }
  cbn [mbind option_bind data].
  rewrite <- ED, <- EH, <- EW in Hround.
  rewrite (window_reverse_data _ [B * nd * nh * nw; w0 * w1 * w2; C]), Hround.
  cbn [mbind option_bind]. rewrite Hback. cbn [mbind option_bind].
  case_decide as Hpad.
  - by apply (crop_F_pad x xp B D H W C pad_r pad_b pad_d1).
  - assert (pad_d1 = 0 ∧ pad_r = 0 ∧ pad_b = 0) as (E1 & E2 & E3) by lia.
    rewrite E1, E2, E3 in Hxp.
    rewrite (F_pad_nothing x B D H W C Hwf Hs) in Hxp. done.
Qed.

Lemma forward_part1_geometry_witness :
  let x := Tensor [1; 3; 2; 5; 1] ((λ n, inject_Z (Z.of_nat n)) <$> seq 0 30) in
  BottleneckBlock3D_forward_part1 [2; 2; 2] [1; 1; 1]
    Some (λ windows _, Some windows) x tt
  = Some x.
Proof.
  apply (forward_part1_geometry 2 2 2 1 1 1
           (Tensor [1; 3; 2; 5; 1] ((λ n, inject_Z (Z.of_nat n)) <$> seq 0 30))
           tt 1 3 2 5 1); try reflexivity; lia.
Defined.

Lemma window_reverse_Some {A} (windows : tensor A) B nd nh nw C w0 w1 w2 :
  length (data windows) = numel [B; nd; nh; nw; w0; w1; w2; C] →
  0 < B → 0 < nd → 0 < nh → 0 < nw → 0 < w0 → 0 < w1 → 0 < w2 →
  ∃ y, window_reverse windows [w0; w1; w2] B (nd * w0) (nh * w1) (nw * w2) = Some y ∧
       shape y = [B; nd * w0; nh * w1; nw * w2; C] ∧ wf y ∧
       ∀ j, j < numel [B; nd; w0; nh; w1; nw; w2; C] →
         data y !! j
         = data windows !! offset (select [0; 1; 4; 2; 5; 3; 6; 7]
                                     (strides [B; nd; nh; nw; w0; w1; w2; C]))
                                  (unravel [B; nd; w0; nh; w1; nw; w2; C] j).
Proof.
  intros Hlen HB Hnd Hnh Hnw H0 H1 H2.
  destruct windows as [s d']. cbn [data] in Hlen.
  unfold window_reverse, floordiv.
  rewrite !decide_False by lia. cbn [mbind option_bind]. rewrite !Nat.div_mul by lia.
  assert (Hn : 0 < B * nd * nh * nw * w0 * w1 * w2)
    by (repeat apply Nat.mul_pos_pos; done).
  assert (Hv : view (Tensor s d')
                 [Some B; Some nd; Some nh; Some nw; Some w0; Some w1; Some w2; None]
               = Some (Tensor [B; nd; nh; nw; w0; w1; w2; C] d')).
  { refine (view_infer_last (Tensor _ d') [B; nd; nh; nw; w0; w1; w2] C _ _);
      cbn [data numel foldr] in *; lia. }
  rewrite Hv. cbn [mbind option_bind].
  destruct (permute_is_Some [0; 1; 4; 2; 5; 3; 6; 7]
              (Tensor [B; nd; nh; nw; w0; w1; w2; C] d')) as [x3 Hx3].
  { done. }
  { cbn [shape data]. intros j Hj. rewrite Hlen.
    by apply reverse_source_bounded. }
  rewrite Hx3. cbn [mbind option_bind].
  apply permute_Some in Hx3 as (Hs3 & Hl3 & Hd3).
  change (shape x3 = [B; nd; w0; nh; w1; nw; w2; C]) in Hs3.
  rewrite Hs3 in Hl3, Hd3. cbn [shape data] in Hd3.
  assert (Hv3 : view x3 [Some B; Some (nd * w0); Some (nh * w1); Some (nw * w2); None]
                = Some (Tensor [B; nd * w0; nh * w1; nw * w2; C] (data x3))).
  { refine (view_infer_last x3 [B; nd * w0; nh * w1; nw * w2] C _ _);
      cbn [numel foldr] in *; lia. }
  rewrite Hv3. eexists. split; [done|]. split; [done|]. split.
  - unfold wf. cbn [shape data numel foldr] in *. lia.
  - cbn [data]. exact Hd3.
Qed.

(** X8.  [forward_part1] keeps the shape of its input for every
    normalisation and attention that keep the shape of theirs: the
    windows cover the padded volume exactly and the crop removes the
    padding again. *)
Theorem forward_part1_shape {mask : Type} (W0 W1 W2 S0 S1 S2 : nat)
    (norm_1 : tensor Q → option (tensor Q))
    (self_attn_x : tensor Q → option mask → option (tensor Q))
    (x : tensor Q) (mask_matrix : mask) (B D H W C : nat) :
  (∀ t, wf t → ∃ t', norm_1 t = Some t' ∧ shape t' = shape t ∧ wf t') →
  (∀ t m, wf t → ∃ t', self_attn_x t m = Some t' ∧ shape t' = shape t ∧ wf t') →
  wf x → shape x = [B; D; H; W; C] →
  0 < B → 0 < D → 0 < H → 0 < W → 0 < C → 0 < W0 → 0 < W1 → 0 < W2 →
  ∃ y, BottleneckBlock3D_forward_part1 [W0; W1; W2] [S0; S1; S2]
         norm_1 self_attn_x x mask_matrix = Some y ∧
       shape y = [B; D; H; W; C] ∧ wf y.
Proof.
  intros Hnorm Hattn Hwf Hs HB HD HH HW HC HW0 HW1 HW2.
  unfold BottleneckBlock3D_forward_part1.
  rewrite Hs, get_window_size_three. cbn [mbind option_bind].
  set (w0 := if decide (D ≤ W0) then D else W0).
  set (w1 := if decide (H ≤ W1) then H else W1).
  set (w2 := if decide (W ≤ W2) then W else W2).
  set (s0 := if decide (D ≤ W0) then 0 else S0).
  set (s1 := if decide (H ≤ W1) then 0 else S1).
  set (s2 := if decide (W ≤ W2) then 0 else S2).
  assert (0 < w0) as Hw0 by (unfold w0; case_decide; lia).
  assert (0 < w1) as Hw1 by (unfold w1; case_decide; lia).
  assert (0 < w2) as Hw2 by (unfold w2; case_decide; lia).
  destruct (Hnorm x Hwf) as (xn & -> & Hsn & Hwn). rewrite Hs in Hsn.
  cbn [mbind option_bind].
  unfold pymod.
  do 2 (rewrite (decide_False (P := w0 = 0)) by lia; cbn [mbind option_bind]).
  do 2 (rewrite (decide_False (P := w1 = 0)) by lia; cbn [mbind option_bind]).
  do 2 (rewrite (decide_False (P := w2 = 0)) by lia; cbn [mbind option_bind]).
  destruct (pad_to_multiple D w0 Hw0) as (_ & ED & HnD & HzD).
  destruct (pad_to_multiple H w1 Hw1) as (_ & EH & HnH & HzH).
  destruct (pad_to_multiple W w2 Hw2) as (_ & EW & HnW & HzW).
  cbv zeta in *.
  set (pad_d1 := (w0 - D mod w0) mod w0) in *.
  set (pad_b := (w1 - H mod w1) mod w1) in *.
  set (pad_r := (w2 - W mod w2) mod w2) in *.
  set (nd := (D + pad_d1) / w0) in *.
  set (nh := (H + pad_b) / w1) in *.
  set (nw := (W + pad_r) / w2) in *.
  destruct (F_pad_Some xn B D H W C pad_r pad_b pad_d1 Hwn Hsn)
    as (xp & Hxp & Hsp & Hwp & _).
  rewrite Hxp. cbn [mbind option_bind]. rewrite Hsp.
  set (shifted := existsb (λ i, bool_decide (0 < i)) [s0; s1; s2]).
  rewrite ED, EH, EW in Hsp.
  assert (∃ xr,
            (if shifted
             then roll xp (- Z.of_nat s0) (- Z.of_nat s1) (- Z.of_nat s2)
             else Some xp) = Some xr ∧
            wf xr ∧ shape xr = [B; nd * w0; nh * w1; nw * w2; C])
    as (xr & -> & Hwr & Hsr).
  { destruct shifted; [|by exists xp].
    destruct (roll_Some xp _ _ _ _ _ (- Z.of_nat s0) (- Z.of_nat s1) (- Z.of_nat s2)
                Hwp Hsp) as (xr & Hxr & Hsr & Hwr & _).
    by exists xr. }
  cbn [mbind option_bind].
  destruct (window_partition_Some xr B nd nh nw C w0 w1 w2 Hwr Hsr Hw0 Hw1 Hw2 HC)
    as (d' & -> & Hlen & _).
  cbn [mbind option_bind].
  match goal with |- context [self_attn_x ?t ?m] =>
    destruct (Hattn t m) as (aw & -> & Hsa & Hwa) end.
  { unfold wf. cbn [shape data]. rewrite Hlen, Hwr, Hsr. cbn [numel foldr]. lia. }
  cbn [mbind option_bind shape] in *.
  assert (length (data aw) = numel [B; nd; nh; nw; w0; w1; w2; C]) as Hla
    by (rewrite Hwa, Hsa; cbn [numel foldr]; lia).
  change (None :: (Some <$> [w0; w1; w2]) ++ [Some C])
    with (None :: (Some <$> [w0; w1; w2; C])).
  rewrite (view_infer_first _ [w0; w1; w2; C] (B * nd * nh * nw)).
  2: { cbn [numel foldr]. nia. }
  2: { rewrite Hla. cbn [numel foldr]. lia. }
  cbn [mbind option_bind].
  rewrite ED, EH, EW.
  destruct (window_reverse_Some (Tensor (B * nd * nh * nw :: [w0; w1; w2; C]) (data aw))
              B nd nh nw C w0 w1 w2 Hla HB ltac:(auto) ltac:(auto) ltac:(auto)
              Hw0 Hw1 Hw2) as (y & -> & Hsy & Hwy & _).
  cbn [mbind option_bind].
  assert (∃ z, (if shifted
                then roll y (Z.of_nat s0) (Z.of_nat s1) (Z.of_nat s2)
                else Some y) = Some z ∧
               wf z ∧ shape z = [B; nd * w0; nh * w1; nw * w2; C])
    as (z & -> & Hwz & Hsz).
  { destruct shifted; [|by exists y].
    destruct (roll_Some y _ _ _ _ _ (Z.of_nat s0) (Z.of_nat s1) (Z.of_nat s2)
                Hwy Hsy) as (z & Hz & Hsz & Hwz & _).
    by exists z. }
  cbn [mbind option_bind].
  case_decide as Hpad.
  - unfold crop. rewrite Hsz.
    match goal with |- context [tabulate ?s ?f] =>
      destruct (tabulate_is_Some s f) as [r Hr] end.
    { intros m Hm. apply unravel_bounded in Hm. forall2_list Hm.
      apply get_is_Some; [done|]. rewrite Hsz. idx_bounded. }
    exists r. destruct (tabulate_wf _ _ _ Hr) as [Hsr' Hwr'].
    split_and!; [done| |done].
    rewrite Hsr'. rewrite <- ED, <- EH, <- EW. by rewrite !Nat.min_l by lia.
  - exists z. split_and!; [done| |done].
    rewrite Hsz, <- ED, <- EH, <- EW.
    assert (pad_d1 = 0 ∧ pad_r = 0 ∧ pad_b = 0) as (-> & -> & ->) by lia.
    by rewrite !Nat.add_0_r.
Qed.

Lemma forward_part1_shape_witness :
  let x := Tensor [1; 3; 2; 5; 1] ((λ n, inject_Z (Z.of_nat n)) <$> seq 0 30) in
  ∃ y, BottleneckBlock3D_forward_part1 [2; 2; 2] [1; 1; 1]
         Some (λ windows _, Some windows) x tt = Some y ∧
       shape y = [1; 3; 2; 5; 1] ∧ wf y.
Proof.
  apply (forward_part1_shape 2 2 2 1 1 1 Some (λ windows _, Some windows)
           (Tensor [1; 3; 2; 5; 1] ((λ n, inject_Z (Z.of_nat n)) <$> seq 0 30))
           tt 1 3 2 5 1); try reflexivity; try lia.
  - intros t Ht. by exists t.
  - intros t m Ht. by exists t.
Defined.


(** ** More on the attention mask *)

(** X10.  Every token may attend to itself: on extents that are
    multiples of the window, each diagonal entry of every window's mask
    is 0, whatever the shift. *)
Theorem compute_mask_diagonal D H W w0 w1 w2 s0 s1 s2 dev :
  0 < w0 → 0 < w1 → 0 < w2 →
  D mod w0 = 0 → H mod w1 = 0 → W mod w2 = 0 →
  ∃ mask,
    compute_mask D H W [w0; w1; w2] [s0; s1; s2] dev = Some mask ∧
    ∀ n i, n < D / w0 * (H / w1) * (W / w2) → i < w0 * w1 * w2 →
      get mask [n; i; i] = Some 0%Z.
Proof.
  intros H0 H1 H2 Hd Hh Hw.
  apply Nat.Div0.div_exact in Hd, Hh, Hw.
  rewrite (Nat.mul_comm w0) in Hd. rewrite (Nat.mul_comm w1) in Hh.
  rewrite (Nat.mul_comm w2) in Hw.
  destruct (compute_mask_mult (D / w0) (H / w1) (W / w2) w0 w1 w2 s0 s1 s2 dev
              H0 H1 H2) as (mask & labels & Hm & _ & _ & _ & _ & Hent & _).
  rewrite <- Hd, <- Hh, <- Hw in Hm.
  exists mask. split; [done|]. intros n i Hn Hi.
  destruct (Hent n i i Hn Hi Hi) as (a & b & Ha & Hb & ->).
  rewrite Ha in Hb. injection Hb as <-. by rewrite decide_True.
Qed.

Lemma compute_mask_diagonal_witness :
  ∃ mask,
    compute_mask 4 4 2 [2; 2; 1] [1; 1; 0] cpu = Some mask ∧
    ∀ n i, n < 4 / 2 * (4 / 2) * (2 / 1) → i < 2 * 2 * 1 →
      get mask [n; i; i] = Some 0%Z.
Proof.
  exact (compute_mask_diagonal 4 4 2 2 2 1 1 1 0 cpu
           ltac:(lia) ltac:(lia) ltac:(lia) eq_refl eq_refl eq_refl).
Defined.

Lemma in_slice_from_start len i :
  i < len → in_slice (Some (- Z.of_nat 0)%Z, None) len i = true.
Proof.
  intros Hi. unfold in_slice, slice_bounds, slice_adjust.
  cbn [fst snd fmap option_fmap option_map default Z.of_nat Z.opp].
  rewrite decide_False by lia. apply bool_decide_eq_true. unfold id. lia.
Qed.

(** Without a shift the last of the 27 assignments covers the whole
    volume: every voxel carries the last label. *)
Lemma label_regions_unshifted img w0 w1 w2 D H W :
  shape img = [1; D; H; W; 1] → length (data img) = numel [1; D; H; W; 1] →
  data (label_regions img (axis_slices w0 0) (axis_slices w1 0) (axis_slices w2 0)).1
  = replicate (length (data img)) 26%Z.
Proof.
  intros Hs Hl. unfold label_regions, axis_slices. cbn [foldl fst].
  match goal with |- data (assign_region ?X ?d ?h ?w ?v) = _ =>
    assert (shape X = [1; D; H; W; 1]) as HsX by (by rewrite !assign_region_shape);
    assert (length (data X) = length (data img)) as HlX
      by (by rewrite !assign_region_length);
    change v with 26%Z; generalize dependent X end.
  intros X HsX HlX. unfold assign_region. cbn [data]. rewrite HsX.
  apply list_eq. intros j. rewrite list_lookup_imap.
  destruct (decide (j < length (data img))) as [Hj|Hj].
  - rewrite lookup_replicate_2 by done.
    destruct (lookup_lt_is_Some_2 (data X) j) as [old ->]; [lia|].
    cbn [fmap option_fmap option_map]. f_equal.
    assert (j < numel [1; D; H; W; 1]) as Hj' by lia.
    pose proof (unravel_bounded _ _ Hj') as Hb. forall2_list Hb.
    by rewrite !in_slice_from_start.
  - rewrite lookup_ge_None_2 by lia. cbn [fmap option_fmap option_map].
    symmetry. apply lookup_replicate_None. lia.
Qed.

(** X11.  Without a shift there is nothing to mask: on extents that are
    multiples of the window, every entry of the mask computed for the
    shift [(0, 0, 0)] is 0. *)
Theorem compute_mask_unshifted D H W w0 w1 w2 dev :
  0 < w0 → 0 < w1 → 0 < w2 →
  D mod w0 = 0 → H mod w1 = 0 → W mod w2 = 0 →
  ∃ mask,
    compute_mask D H W [w0; w1; w2] [0; 0; 0] dev = Some mask ∧
    shape mask = [D / w0 * (H / w1) * (W / w2); w0 * w1 * w2; w0 * w1 * w2] ∧
    Forall (λ v, v = 0%Z) (data mask).
Proof.
  intros H0 H1 H2 Hd Hh Hw.
  apply Nat.Div0.div_exact in Hd, Hh, Hw.
  rewrite (Nat.mul_comm w0) in Hd. rewrite (Nat.mul_comm w1) in Hh.
  rewrite (Nat.mul_comm w2) in Hw.
  set (nd := D / w0) in *. set (nh := H / w1) in *. set (nw := W / w2) in *.
  destruct (compute_mask_mult nd nh nw w0 w1 w2 0 0 0 dev H0 H1 H2)
    as (mask & labels & Hm & Hp & Hsm & Hwm & _ & Hent & _).
  rewrite <- Hd, <- Hh, <- Hw in Hm, Hp.
  exists mask. split; [done|]. split; [done|].
  destruct (label_regions_shape (zeros [1; D; H; W; 1])
              (axis_slices w0 0) (axis_slices w1 0) (axis_slices w2 0)) as [HsL HlL].
  pose proof (label_regions_unshifted (zeros [1; D; H; W; 1]) w0 w1 w2 D H W
                eq_refl ltac:(apply length_replicate)) as HdL.
  remember (label_regions (zeros [1; D; H; W; 1])
              (axis_slices w0 0) (axis_slices w1 0) (axis_slices w2 0)).1
    as L eqn:EL.
  clear EL. cbn [zeros shape data] in HsL, HlL, HdL.
  assert (wf L) as HwL by (unfold wf; by rewrite HlL, HsL, length_replicate).
  rewrite Hd, Hh, Hw in HsL.
  destruct (window_partition_Some L 1 nd nh nw 1 w0 w1 w2 HwL HsL H0 H1 H2 Nat.lt_0_1)
    as (d' & Hp' & Hld & Hd').
  rewrite Hp' in Hp. injection Hp as <-.
  assert (∀ idx a, get (Tensor [1 * nd * nh * nw; w0 * w1 * w2; 1] d') idx = Some a →
                   a = 26%Z) as Hlab.
  { intros idx a. unfold get. cbn [shape data]. intros Ha.
    pose proof (lookup_lt_Some _ _ _ Ha) as Hlt.
    rewrite Hd', HdL in Ha by done.
    by apply lookup_replicate_1 in Ha as [-> _]. }
  apply Forall_lookup. intros f v Hv.
  assert (f < nd * nh * nw * (w0 * w1 * w2) * (w0 * w1 * w2)) as Hf.
  { apply lookup_lt_Some in Hv. rewrite Hwm, Hsm in Hv. cbn [numel foldr] in Hv. lia. }
  destruct (unravel3 _ _ f Hf) as (n & i & j & _ & Hn & Hi & Hj & ->).
  destruct (Hent n i j Hn Hi Hj) as (a & b & Ha & Hb & E).
  apply Hlab in Ha, Hb. subst a b.
  unfold get in E. rewrite Hsm in E. cbn [ravel numel foldr] in E.
  rewrite decide_True in E by done.
  replace (n * (w0 * w1 * w2 * (w0 * w1 * w2 * 1)) + (i * (w0 * w1 * w2 * 1) + (j * 1 + 0)))
    with (n * (w0 * w1 * w2 * (w0 * w1 * w2)) + i * (w0 * w1 * w2) + j) in E by lia.
  congruence.
Qed.

Lemma compute_mask_unshifted_witness :
  ∃ mask,
    compute_mask 4 4 2 [2; 2; 1] [0; 0; 0] cpu = Some mask ∧
    shape mask = [4 / 2 * (4 / 2) * (2 / 1); 2 * 2 * 1; 2 * 2 * 1] ∧
    Forall (λ v, v = 0%Z) (data mask).
Proof.
  exact (compute_mask_unshifted 4 4 2 2 2 1 cpu
           ltac:(lia) ltac:(lia) ltac:(lia) eq_refl eq_refl eq_refl).
Defined.

(** ** More on the partition into windows *)

Lemma window_partition_divisible {A} (x : tensor A) B D H W C w0 w1 w2 :
  wf x → shape x = [B; D; H; W; C] →
  0 < w0 → 0 < w1 → 0 < w2 → 0 < C →
  D mod w0 = 0 → H mod w1 = 0 → W mod w2 = 0 →
  ∃ windows,
    window_partition x [w0; w1; w2] = Some windows ∧
    shape windows = [B * (D / w0) * (H / w1) * (W / w2); w0 * w1 * w2; C] ∧
    wf windows ∧
    ∀ b id ih iw a bb cc ch,
      b < B → id < D / w0 → ih < H / w1 → iw < W / w2 →
      a < w0 → bb < w1 → cc < w2 → ch < C →
      get windows [((b * (D / w0) + id) * (H / w1) + ih) * (W / w2) + iw;
                   (a * w1 + bb) * w2 + cc; ch]
      = get x [b; id * w0 + a; ih * w1 + bb; iw * w2 + cc; ch].
Proof.
  intros Hwf Hs H0 H1 H2 HC Hd Hh Hw.
  apply Nat.Div0.div_exact in Hd, Hh, Hw.
  rewrite (Nat.mul_comm w0) in Hd. rewrite (Nat.mul_comm w1) in Hh.
  rewrite (Nat.mul_comm w2) in Hw.
  set (nd := D / w0) in *. set (nh := H / w1) in *. set (nw := W / w2) in *.
  rewrite Hd, Hh, Hw in Hs.
  destruct (window_partition_Some x B nd nh nw C w0 w1 w2 Hwf Hs H0 H1 H2 HC)
    as (d' & Hp & Hl & Hd').
  eexists. split; [exact Hp|]. split; [done|].
  assert (length d' = numel [B; nd; nh; nw; w0; w1; w2; C]) as Hlen
    by (rewrite Hl, Hwf, Hs; cbn [numel foldr]; lia).
  split; [unfold wf; cbn [shape data]; rewrite Hlen; cbn [numel foldr]; lia|].
  intros b id ih iw a bb cc ch ????????.
  unfold get. cbn [shape data]. rewrite Hs.
  assert (Forall2 lt [b; id; ih; iw; a; bb; cc; ch] [B; nd; nh; nw; w0; w1; w2; C])
    as Hidx by idx_bounded.
  assert (ravel [B * nd * nh * nw; w0 * w1 * w2; C]
                [((b * nd + id) * nh + ih) * nw + iw; (a * w1 + bb) * w2 + cc; ch]
          = ravel [B; nd; nh; nw; w0; w1; w2; C] [b; id; ih; iw; a; bb; cc; ch]) as ->
    by (cbn [ravel numel foldr]; lia).
  rewrite Hd' by (rewrite Hlen; by apply ravel_bounded).
  rewrite unravel_ravel by done. rewrite offset_partition_perm.
  f_equal. cbn [ravel numel foldr]. lia.
Qed.

(** X12.  [window_partition] puts voxel [(id * w0 + a, ih * w1 + bb,
    iw * w2 + cc)] of batch element [b] at position
    [(a * w1 + bb) * w2 + cc] of window [((b * nd + id) * nh + ih) * nw + iw],
    where [nd], [nh], [nw] count the windows along each axis; the
    result has shape [(B * nd * nh * nw, w0 * w1 * w2, C)]. *)
Theorem window_partition_entries {A} (x : tensor A) B D H W C w0 w1 w2 :
  wf x → shape x = [B; D; H; W; C] →
  0 < w0 → 0 < w1 → 0 < w2 → 0 < C →
  D mod w0 = 0 → H mod w1 = 0 → W mod w2 = 0 →
  ∃ windows,
    window_partition x [w0; w1; w2] = Some windows ∧
    shape windows = [B * (D / w0) * (H / w1) * (W / w2); w0 * w1 * w2; C] ∧
    wf windows ∧
    ∀ b id ih iw a bb cc ch,
      b < B → id < D / w0 → ih < H / w1 → iw < W / w2 →
      a < w0 → bb < w1 → cc < w2 → ch < C →
      get windows [((b * (D / w0) + id) * (H / w1) + ih) * (W / w2) + iw;
                   (a * w1 + bb) * w2 + cc; ch]
      = get x [b; id * w0 + a; ih * w1 + bb; iw * w2 + cc; ch].
Proof. apply window_partition_divisible. Qed.

Lemma window_partition_entries_witness :
  let x := Tensor [1; 2; 4; 2; 1] (seq 0 16) in
  ∃ windows,
    window_partition x [2; 2; 1] = Some windows ∧
    shape windows = [1 * (2 / 2) * (4 / 2) * (2 / 1); 2 * 2 * 1; 1] ∧
    wf windows ∧
    ∀ b id ih iw a bb cc ch,
      b < 1 → id < 2 / 2 → ih < 4 / 2 → iw < 2 / 1 →
      a < 2 → bb < 2 → cc < 1 → ch < 1 →
      get windows [((b * (2 / 2) + id) * (4 / 2) + ih) * (2 / 1) + iw;
                   (a * 2 + bb) * 1 + cc; ch]
      = get x [b; id * 2 + a; ih * 2 + bb; iw * 1 + cc; ch].
Proof.
  apply (window_partition_entries (Tensor [1; 2; 4; 2; 1] (seq 0 16))
           1 2 4 2 1 2 2 1); try reflexivity; lia.
Defined.

Lemma product_shrinks a b c a' b' c' :
  a' ≤ a → b' ≤ b → c' ≤ c → 0 < a → 0 < b → 0 < c →
  a' < a ∨ b' < b ∨ c' < c → a' * b' * c' < a * b * c.
Proof.
  intros Ha Hb Hc Ha0 Hb0 Hc0 Hlt.
  assert (a' * b' ≤ a * b) as Hab by (by apply Nat.mul_le_mono).
  assert (a' * b' * c' ≤ a * b * c) as Habc by (by apply Nat.mul_le_mono).
  destruct Hlt as [Hlt | [Hlt | Hlt]].
  - assert (a' * b' < a * b) by nia. nia.
  - assert (a' * b' < a * b) by nia. nia.
  - assert (0 < a * b) by nia. nia.
Qed.

(** X13.  On a non-empty tensor [window_partition] is defined exactly
    when each of the three extents is a multiple of its window; with an
    extent that is not, the first [view] raises. *)
Theorem window_partition_defined_iff {A} (x : tensor A) B D H W C w0 w1 w2 :
  wf x → shape x = [B; D; H; W; C] →
  0 < B → 0 < D → 0 < H → 0 < W → 0 < C → 0 < w0 → 0 < w1 → 0 < w2 →
  is_Some (window_partition x [w0; w1; w2])
  ↔ D mod w0 = 0 ∧ H mod w1 = 0 ∧ W mod w2 = 0.
Proof.
  intros Hwf Hs HB HD HH HW HC H0 H1 H2. split.
  - intros Hsome.
    destruct (decide (D mod w0 = 0 ∧ H mod w1 = 0 ∧ W mod w2 = 0)) as [|Hn]; [done|].
    exfalso. unfold window_partition, floordiv in Hsome. rewrite Hs in Hsome.
    rewrite !decide_False in Hsome by lia. cbn [mbind option_bind] in Hsome.
    change [Some B; Some (D / w0); Some w0; Some (H / w1); Some w1; Some (W / w2);
            Some w2; Some C]
      with (Some <$> [B; D / w0; w0; H / w1; w1; W / w2; w2; C]) in Hsome.
    unfold view in Hsome. rewrite infer_size_given, decide_False in Hsome;
      [by destruct Hsome|].
    rewrite Hwf, Hs. cbn [numel foldr].
    pose proof (Nat.Div0.mul_div_le D w0). pose proof (Nat.Div0.mul_div_le H w1).
    pose proof (Nat.Div0.mul_div_le W w2).
    pose proof (Nat.div_mod_eq D w0). pose proof (Nat.div_mod_eq H w1).
    pose proof (Nat.div_mod_eq W w2).
    assert (D / w0 * w0 * (H / w1 * w1) * (W / w2 * w2) < D * H * W) as Hlt.
    { apply product_shrinks; try lia. }
    nia.
  - intros (Hd & Hh & Hw).
    destruct (window_partition_divisible x B D H W C w0 w1 w2) as (ws & -> & _);
      done.
Qed.

Lemma window_partition_defined_iff_witness :
  is_Some (window_partition (Tensor [1; 3; 4; 2; 1] (seq 0 24)) [2; 2; 1])
  ↔ 3 mod 2 = 0 ∧ 4 mod 2 = 0 ∧ 2 mod 1 = 0.
Proof.
  apply (window_partition_defined_iff (Tensor [1; 3; 4; 2; 1] (seq 0 24))
           1 3 4 2 1 2 2 1); try reflexivity; lia.
Defined.

(** ** Channels first and channels last *)

Lemma permute_channels_first {A} (x : tensor A) B D H W C :
  wf x → shape x = [B; D; H; W; C] →
  ∃ y, permute [0; 4; 1; 2; 3] x = Some y ∧ shape y = [B; C; D; H; W] ∧ wf y ∧
       ∀ b c d h w, b < B → c < C → d < D → h < H → w < W →
         get y [b; c; d; h; w] = get x [b; d; h; w; c].
Proof.
  intros Hwf Hs.
  assert (∀ b c d h w,
            offset (select [0; 4; 1; 2; 3] (strides [B; D; H; W; C])) [b; c; d; h; w]
            = ravel [B; D; H; W; C] [b; d; h; w; c]) as Hoff
    by (intros; simpl; lia).
  destruct (permute_is_Some [0; 4; 1; 2; 3] x) as [y Hy].
  { by rewrite Hs. }
  { rewrite Hs. intros j Hj.
    change (select [0; 4; 1; 2; 3] [B; D; H; W; C]) with [B; C; D; H; W] in *.
    pose proof (unravel_bounded _ _ Hj) as Hb. forall2_list Hb.
    rewrite Hoff, Hwf, Hs. apply ravel_bounded. idx_bounded. }
  exists y. split; [done|].
  apply permute_Some in Hy as (Hsy & Hly & Hdy). rewrite Hs in Hsy, Hdy.
  change (select [0; 4; 1; 2; 3] [B; D; H; W; C]) with [B; C; D; H; W] in Hsy.
  rewrite Hsy in Hly, Hdy.
  split; [done|]. split; [unfold wf; by rewrite Hsy|].
  intros b c d h w ?????. unfold get. rewrite Hsy, Hs.
  rewrite Hdy by (apply ravel_bounded; idx_bounded).
  rewrite unravel_ravel by idx_bounded. by rewrite Hoff.
Qed.

Lemma permute_channels_last {A} (x : tensor A) B C D H W :
  wf x → shape x = [B; C; D; H; W] →
  ∃ y, permute [0; 2; 3; 4; 1] x = Some y ∧ shape y = [B; D; H; W; C] ∧ wf y ∧
       ∀ b c d h w, b < B → c < C → d < D → h < H → w < W →
         get y [b; d; h; w; c] = get x [b; c; d; h; w].
Proof.
  intros Hwf Hs.
  assert (∀ b c d h w,
            offset (select [0; 2; 3; 4; 1] (strides [B; C; D; H; W])) [b; d; h; w; c]
            = ravel [B; C; D; H; W] [b; c; d; h; w]) as Hoff
    by (intros; simpl; lia).
  destruct (permute_is_Some [0; 2; 3; 4; 1] x) as [y Hy].
  { by rewrite Hs. }
  { rewrite Hs. intros j Hj.
    change (select [0; 2; 3; 4; 1] [B; C; D; H; W]) with [B; D; H; W; C] in *.
    pose proof (unravel_bounded _ _ Hj) as Hb. forall2_list Hb.
    rewrite Hoff, Hwf, Hs. apply ravel_bounded. idx_bounded. }
  exists y. split; [done|].
  apply permute_Some in Hy as (Hsy & Hly & Hdy). rewrite Hs in Hsy, Hdy.
  change (select [0; 2; 3; 4; 1] [B; C; D; H; W]) with [B; D; H; W; C] in Hsy.
  rewrite Hsy in Hly, Hdy.
  split; [done|]. split; [unfold wf; by rewrite Hsy|].
  intros b c d h w ?????. unfold get. rewrite Hsy, Hs.
  rewrite Hdy by (apply ravel_bounded; idx_bounded).
  rewrite unravel_ravel by idx_bounded. by rewrite Hoff.
Qed.

(** X14.  The two axis permutations that move the channels of a
    five-dimensional tensor to the front ([permute(0, 4, 1, 2, 3)],
    ['b d h w c -> b c d h w']) and to the back ([permute(0, 2, 3, 4, 1)],
    ['b c d h w -> b d h w c']) undo each other, in either order, and
    the first one reads [y[b, c, d, h, w] = x[b, d, h, w, c]]. *)
Theorem channel_permutations_inverse {A} (x : tensor A) (s0 s1 s2 s3 s4 : nat) :
  wf x → shape x = [s0; s1; s2; s3; s4] →
  (permute [0; 4; 1; 2; 3] x ≫= permute [0; 2; 3; 4; 1]) = Some x ∧
  (permute [0; 2; 3; 4; 1] x ≫= permute [0; 4; 1; 2; 3]) = Some x ∧
  ∃ y, permute [0; 4; 1; 2; 3] x = Some y ∧ shape y = [s0; s4; s1; s2; s3] ∧
       ∀ b c d h w, b < s0 → c < s4 → d < s1 → h < s2 → w < s3 →
         get y [b; c; d; h; w] = get x [b; d; h; w; c].
Proof.
  intros Hwf Hs.
  destruct (permute_channels_first x s0 s1 s2 s3 s4 Hwf Hs)
    as (y & Hy & Hsy & Hwy & Hgy).
  destruct (permute_channels_last y s0 s4 s1 s2 s3 Hwy Hsy)
    as (z & Hz & Hsz & Hwz & Hgz).
  destruct (permute_channels_last x s0 s1 s2 s3 s4 Hwf Hs)
    as (y' & Hy' & Hsy' & Hwy' & Hgy').
  destruct (permute_channels_first y' s0 s2 s3 s4 s1 Hwy' Hsy')
    as (z' & Hz' & Hsz' & Hwz' & Hgz').
  split_and!.
  - rewrite Hy. cbn [mbind option_bind]. rewrite Hz. f_equal.
    apply tensor_ext; [done|done|congruence|].
    intros idx Hidx. rewrite Hsz in Hidx. forall2_list Hidx.
    rewrite Hgz, Hgy by done. done.
  - rewrite Hy'. cbn [mbind option_bind]. rewrite Hz'. f_equal.
    apply tensor_ext; [done|done|congruence|].
    intros idx Hidx. rewrite Hsz' in Hidx. forall2_list Hidx.
    rewrite Hgz', Hgy' by done. done.
  - exists y. split_and!; [done..|]. intros. by apply Hgy.
Qed.

Lemma channel_permutations_inverse_witness :
  let x := Tensor [1; 2; 1; 3; 2] (seq 0 12) in
  (permute [0; 4; 1; 2; 3] x ≫= permute [0; 2; 3; 4; 1]) = Some x ∧
  (permute [0; 2; 3; 4; 1] x ≫= permute [0; 4; 1; 2; 3]) = Some x ∧
  ∃ y, permute [0; 4; 1; 2; 3] x = Some y ∧ shape y = [1; 2; 2; 1; 3] ∧
       ∀ b c d h w, b < 1 → c < 2 → d < 2 → h < 1 → w < 3 →
         get y [b; c; d; h; w] = get x [b; d; h; w; c].
Proof.
  apply (channel_permutations_inverse (Tensor [1; 2; 1; 3; 2] (seq 0 12)) 1 2 1 3 2);
    reflexivity.
Defined.

(** ** Construction of the blocks of a stage *)

Lemma is_Some_guard (P : Prop) `{Decision P} :
  is_Some (if decide P then Some () else None) ↔ P.
Proof. case_decide; split; try done; intros []; done. Qed.

(** X15.  A block of a stage passes the three assertions of its
    constructor exactly when the three window extents are positive:
    the shift of an even block is [(0, 0, 0)] and that of an odd block
    is [w // 2], which lies in [[0, w)] for positive [w] only. *)
Theorem block_init_asserts_iff (w0 w1 w2 : Z) (i : nat) :
  is_Some (block_init_asserts [w0; w1; w2] (BasicLayer_block_shift [w0; w1; w2] i))
  ↔ (0 < w0)%Z ∧ (0 < w1)%Z ∧ (0 < w2)%Z.
Proof.
  unfold block_init_asserts, BasicLayer_block_shift.
  destruct (decide (i mod 2 = 0)); cbn [fmap list_fmap]; rewrite is_Some_guard.
  - lia.
  - Z.div_mod_to_equations. lia.
Qed.

Lemma get_window_size_shift_lt (x w s : nat) :
  0 < x → s < w →
  (if decide (x ≤ w) then 0 else s) < (if decide (x ≤ w) then x else w).
Proof. intros. case_decide; lia. Qed.

(** X16.  [get_window_size] keeps the invariant the constructors
    assert: for positive extents and shifts below the configured
    windows, each effective shift is below the effective window, and the
    effective window is positive and at most the extent. *)
Theorem get_window_size_invariant (x0 x1 x2 w0 w1 w2 s0 s1 s2 : nat) :
  0 < x0 → 0 < x1 → 0 < x2 → s0 < w0 → s1 < w1 → s2 < w2 →
  ∃ u0 u1 u2 t0 t1 t2,
    get_window_size [x0; x1; x2] [w0; w1; w2] [s0; s1; s2]
    = Some ([u0; u1; u2], [t0; t1; t2]) ∧
    t0 < u0 ∧ t1 < u1 ∧ t2 < u2 ∧
    0 < u0 ≤ x0 ∧ 0 < u1 ≤ x1 ∧ 0 < u2 ≤ x2 ∧
    u0 ≤ w0 ∧ u1 ≤ w1 ∧ u2 ≤ w2.
Proof.
  intros. rewrite get_window_size_three.
  do 6 eexists. split; [reflexivity|].
  pose proof (get_window_size_shift_lt x0 w0 s0).
  pose proof (get_window_size_shift_lt x1 w1 s1).
  pose proof (get_window_size_shift_lt x2 w2 s2).
  repeat case_decide; lia.
Qed.

Lemma get_window_size_invariant_witness :
  ∃ u0 u1 u2 t0 t1 t2,
    get_window_size [4; 9; 8] [7; 7; 7] [3; 3; 3]
    = Some ([u0; u1; u2], [t0; t1; t2]) ∧
    t0 < u0 ∧ t1 < u1 ∧ t2 < u2 ∧
    0 < u0 ≤ 4 ∧ 0 < u1 ≤ 9 ∧ 0 < u2 ≤ 8 ∧
    u0 ≤ 7 ∧ u1 ≤ 7 ∧ u2 ≤ 7.
Proof. apply (get_window_size_invariant 4 9 8 7 7 7 3 3 3); lia. Defined.

(** ** The positional encoding *)


(** ** The patch embedding *)

Lemma pad_to_patch_Some n p n' :
  pad_to_patch n p = Some n' →
  0 < p ∧ n ≤ n' < n + p ∧ n' mod p = 0 ∧ ∀ m, n ≤ m → m mod p = 0 → n' ≤ m.
Proof.
  unfold pad_to_patch, pymod. destruct (decide (p = 0)) as [|Hp]; [done|].
  cbn [mbind option_bind].
  pose proof (Nat.div_mod_eq n p) as Hdm.
  pose proof (Nat.mod_upper_bound n p Hp) as Hub.
  intros Hn'.
  assert (n' = if decide (n mod p ≠ 0) then n + (p - n mod p) else n) as ->
    by (case_decide; congruence).
  clear Hn'. split; [lia|]. split; [case_decide; lia|]. split.
  - case_decide as Hr; [|lia].
    replace (n + (p - n mod p)) with ((n / p + 1) * p) by lia.
    apply Nat.Div0.mod_mul.
  - intros m Hm Hmod. case_decide as Hr; [|lia].
    apply Nat.Lcm0.mod_divide in Hmod as [k Hk].
    assert (n / p < k) by nia. nia.
Qed.

(** X18.  [PatchEmbed3D.forward] pads each of the three extents up to
    the next multiple of the patch size before the projection: the
    projection sees extents that are multiples of the patch size, at
    least the input's and less than one patch larger.  A patch size of
    zero raises. *)
Theorem PatchEmbed3D_pads_to_patches (p0 p1 p2 : nat) (proj : list nat → option (list nat))
    (has_norm : bool) (embed_dim B C D H W : nat) :
  (p0 = 0 ∨ p1 = 0 ∨ p2 = 0 →
   PatchEmbed3D_forward_shape [p0; p1; p2] proj has_norm embed_dim [B; C; D; H; W] = None)
  ∧ (0 < p0 → 0 < p1 → 0 < p2 →
     ∃ D' H' W',
       PatchEmbed3D_forward_shape [p0; p1; p2] proj has_norm embed_dim [B; C; D; H; W]
       = PatchEmbed3D_forward_shape [1; 1; 1] proj has_norm embed_dim [B; C; D'; H'; W']
       ∧ D ≤ D' < D + p0 ∧ H ≤ H' < H + p1 ∧ W ≤ W' < W + p2
       ∧ D' mod p0 = 0 ∧ H' mod p1 = 0 ∧ W' mod p2 = 0).
Proof.
  split.
  - intros Hz. unfold PatchEmbed3D_forward_shape.
    cbn [lookup list_lookup mbind option_bind].
    destruct (pad_to_patch W p2) as [W'|] eqn:EW; [|done].
    cbn [mbind option_bind].
    destruct (pad_to_patch H p1) as [H'|] eqn:EH; [|done].
    cbn [mbind option_bind].
    destruct (pad_to_patch D p0) as [D'|] eqn:ED; [|done].
    apply pad_to_patch_Some in EW, EH, ED. lia.
  - intros H0 H1 H2.
    assert (∀ n p, 0 < p → ∃ n', pad_to_patch n p = Some n') as Hpad.
    { intros n p Hp. unfold pad_to_patch, pymod. rewrite decide_False by lia.
      cbn [mbind option_bind]. case_decide; eauto. }
    destruct (Hpad W p2 H2) as [W' EW]. destruct (Hpad H p1 H1) as [H' EH].
    destruct (Hpad D p0 H0) as [D' ED].
    exists D', H', W'. unfold PatchEmbed3D_forward_shape.
    cbn [lookup list_lookup mbind option_bind].
    rewrite EW, EH, ED. cbn [mbind option_bind].
    apply pad_to_patch_Some in EW as (_ & ? & ? & _), EH as (_ & ? & ? & _),
      ED as (_ & ? & ? & _).
    unfold pad_to_patch, pymod. rewrite !decide_False by lia.
    cbn [mbind option_bind]. rewrite !Nat.mod_1_r.
    rewrite !decide_False by lia. cbn [mbind option_bind].
    split_and!; first [done | lia].
Qed.

(** X19.  [PatchEmbed3D.forward] unpacks the single tensor its
    projection returns into two names.  For a projection that maps
    five-dimensional tensors to five-dimensional tensors, as a
    [Conv_Stem] does, the module with a normalisation layer raises for
    every input, and the module without one returns only when the
    projected batch has extent 2, and then the two slices of that
    batch. *)
Theorem PatchEmbed3D_forward_unpack (patch_size : list nat)
    (proj : list nat → option (list nat)) (embed_dim : nat) (x : list nat) :
  (∀ s s', length s = 5 → proj s = Some s' → length s' = 5) →
  PatchEmbed3D_forward_shape patch_size proj true embed_dim x = None
  ∧ ∀ r, PatchEmbed3D_forward_shape patch_size proj false embed_dim x = Some r →
      ∃ s rest, length s = 5 ∧ proj s = Some (2 :: rest) ∧ length rest = 4
                ∧ r = (rest, rest).
Proof.
  intros Hproj. unfold PatchEmbed3D_forward_shape.
  destruct x as [|B [|C [|D [|H [|W [|? ?]]]]]]; try done.
  destruct (patch_size !! 2) as [p2|]; [|done]. cbn [mbind option_bind].
  destruct (pad_to_patch W p2) as [W'|]; [|done]. cbn [mbind option_bind].
  destruct (patch_size !! 1) as [p1|]; [|done]. cbn [mbind option_bind].
  destruct (pad_to_patch H p1) as [H'|]; [|done]. cbn [mbind option_bind].
  destruct (patch_size !! 0) as [p0|]; [|done]. cbn [mbind option_bind].
  destruct (pad_to_patch D p0) as [D'|]; [|done]. cbn [mbind option_bind].
  destruct (proj [B; C; D'; H'; W']) as [y|] eqn:Ey; [|done].
  cbn [mbind option_bind].
  pose proof (Hproj [B; C; D'; H'; W'] y eq_refl Ey) as Hy.
  unfold unpack2.
  destruct y as [|[|[|[|n]]] rest]; try done.
  cbn [mbind option_bind]. cbn [length] in Hy.
  destruct rest as [|a [|b [|c [|d [|? ?]]]]]; try done.
  split; [done|]. intros r [= <-].
  exists [B; C; D'; H'; W'], [a; b; c; d]. done.
Qed.

Lemma PatchEmbed3D_forward_unpack_witness :
  PatchEmbed3D_forward_shape [4; 4; 4] Some true 64 [2; 1; 6; 8; 9] = None
  ∧ ∀ r, PatchEmbed3D_forward_shape [4; 4; 4] Some false 64 [2; 1; 6; 8; 9] = Some r →
      ∃ s rest, length s = 5 ∧ Some s = Some (2 :: rest) ∧ length rest = 4
                ∧ r = (rest, rest).
Proof.
  apply (PatchEmbed3D_forward_unpack [4; 4; 4] Some 64 [2; 1; 6; 8; 9]).
  intros s s' Hs [= <-]. exact Hs.
Defined.

(** ** The cache is transparent *)

Section lru_cache_transparency.
Context {K V : Type} `{EqDecision K}.
Variable f : K → option V.
Variable maxsize : nat.




End lru_cache_transparency.


(** ** The stochastic-depth schedule *)

Lemma layer_drop_path_S {A} d (depths : list nat) (dpr : list A) i :
  layer_drop_path (d :: depths) dpr (S i) = layer_drop_path depths (drop d dpr) i.
Proof.
  unfold layer_drop_path, py_slice. simpl.
  rewrite drop_drop. f_equal. lia.
Qed.

Lemma layer_drop_path_0 {A} d (depths : list nat) (dpr : list A) :
  layer_drop_path (d :: depths) dpr 0 = take d dpr.
Proof.
  unfold layer_drop_path, py_slice. simpl. rewrite drop_0. f_equal. lia.
Qed.

(** X21.  The slices of the drop-path schedule that [Encoder.__init__]
    hands to its stages partition the schedule: stage [i] receives
    exactly [depths[i]] rates, its [j]-th rate is entry
    [sum(depths[:i]) + j] of the schedule, and the slices of all stages
    concatenated are the whole schedule. *)
Theorem layer_drop_path_partition {A} (depths : list nat) (dpr : list A) :
  length dpr = sum_list depths →
  (∀ i d, depths !! i = Some d →
     length (layer_drop_path depths dpr i) = d ∧
     ∀ j, j < d →
       layer_drop_path depths dpr i !! j = dpr !! (sum_list (take i depths) + j))
  ∧ concat (layer_drop_path depths dpr <$> seq 0 (length depths)) = dpr.
Proof.
  revert dpr. induction depths as [|d depths IH]; intros dpr Hlen.
  - split; [done|]. cbn in *. by destruct dpr.
  - simpl in Hlen.
    destruct (IH (drop d dpr)) as [IH1 IH2]; [rewrite length_drop; lia|].
    split.
    + intros [|i] d' Hd'.
      * injection Hd' as <-. rewrite layer_drop_path_0.
        rewrite length_take. split; [lia|]. intros j Hj.
        by rewrite lookup_take_lt.
      * cbn [lookup list_lookup] in Hd'. rewrite layer_drop_path_S.
        destruct (IH1 i d' Hd') as [Hl Hj]. split; [done|].
        intros j Hjd. rewrite Hj by done. rewrite lookup_drop.
        simpl. f_equal. lia.
    + cbn [length seq fmap list_fmap concat]. rewrite layer_drop_path_0.
      rewrite <- fmap_S_seq, <- list_fmap_compose.
      rewrite (list_fmap_ext (layer_drop_path (d :: depths) dpr ∘ S)
                             (layer_drop_path depths (drop d dpr))
                             (seq 0 (length depths))).
      * rewrite IH2. apply take_drop.
      * intros k x _. apply layer_drop_path_S.
Qed.

Lemma layer_drop_path_partition_witness :
  (∀ i d, [2; 2; 2] !! i = Some d →
     length (layer_drop_path [2; 2; 2] (seq 10 6) i) = d ∧
     ∀ j, j < d →
       layer_drop_path [2; 2; 2] (seq 10 6) i !! j
       = seq 10 6 !! (sum_list (take i [2; 2; 2]) + j))
  ∧ concat (layer_drop_path [2; 2; 2] (seq 10 6) <$> seq 0 (length [2; 2; 2]))
    = seq 10 6.
Proof. apply (layer_drop_path_partition [2; 2; 2] (seq 10 6)). reflexivity. Defined.

(** ** The mask and the windows it is added to *)

(** X22.  The mask computed for a padded volume fits the windows the
    volume is partitioned into: for extents that are multiples of the
    window, [compute_mask] returns a mask of shape [(nW, N, N)] and
    [window_partition] returns [B * nW] windows of [N] tokens each. *)
Theorem mask_matches_windows {A} (x : tensor A) B D H W C w0 w1 w2 s0 s1 s2 dev :
  wf x → shape x = [B; D; H; W; C] →
  0 < w0 → 0 < w1 → 0 < w2 → 0 < C →
  D mod w0 = 0 → H mod w1 = 0 → W mod w2 = 0 →
  ∃ mask windows,
    compute_mask D H W [w0; w1; w2] [s0; s1; s2] dev = Some mask ∧
    window_partition x [w0; w1; w2] = Some windows ∧
    let nW := D / w0 * (H / w1) * (W / w2) in
    let N := w0 * w1 * w2 in
    shape mask = [nW; N; N] ∧ shape windows = [B * nW; N; C].
Proof.
  intros Hwf Hs H0 H1 H2 HC Hd Hh Hw.
  destruct (window_partition_divisible x B D H W C w0 w1 w2 Hwf Hs H0 H1 H2 HC Hd Hh Hw)
    as (windows & Hp & Hsw & _).
  apply Nat.Div0.div_exact in Hd, Hh, Hw.
  rewrite (Nat.mul_comm w0) in Hd. rewrite (Nat.mul_comm w1) in Hh.
  rewrite (Nat.mul_comm w2) in Hw.
  destruct (compute_mask_mult (D / w0) (H / w1) (W / w2) w0 w1 w2 s0 s1 s2 dev
              H0 H1 H2) as (mask & labels & Hm & _ & Hsm & _).
  rewrite <- Hd, <- Hh, <- Hw in Hm.
  exists mask, windows. split_and!; [done..|]. cbv zeta. split; [done|].
  rewrite Hsw. f_equal. lia.
Qed.

Lemma mask_matches_windows_witness :
  ∃ mask windows,
    compute_mask 4 4 2 [2; 2; 1] [1; 1; 0] cpu = Some mask ∧
    window_partition (Tensor [3; 4; 4; 2; 1] (seq 0 96)) [2; 2; 1] = Some windows ∧
    let nW := 4 / 2 * (4 / 2) * (2 / 1) in
    let N := 2 * 2 * 1 in
    shape mask = [nW; N; N] ∧ shape windows = [3 * nW; N; 1].
Proof.
  apply (mask_matches_windows (Tensor [3; 4; 4; 2; 1] (seq 0 96))
           3 4 4 2 1 2 2 1 1 1 0 cpu); try reflexivity; lia.
Defined.

(** ** The mask inside windowed attention *)

Lemma broadcast_shape_mask q nW nH N :
  broadcast_shape [q; nW; nH; N; N] [1; nW; 1; N; N] = Some [q; nW; nH; N; N].
Proof.
  unfold broadcast_shape. rewrite decide_True by done.
  cbn [zip zip_with mapM mbind option_bind mret option_ret].
  rewrite (decide_True (P := nW = nW)), (decide_True (P := N = N)) by done.
  destruct (decide (q = 1)) as [->|]; destruct (decide (nH = 1)) as [->|];
    cbn [mbind option_bind]; repeat case_decide; try done; congruence.
Qed.

(** X23.  In the masked branch of windowed attention the scores of
    [B_] windows are regrouped as [B_ // nW] groups of [nW] windows to
    meet the mask of shape [(nW, N, N)]: on non-empty scores this works
    exactly when [nW] divides [B_], and the scores keep their shape
    [(B_, num_heads, N, N)]; otherwise the first [view] raises. *)
Theorem masked_attn_shape_iff (num_heads B_ N nW : nat) :
  0 < num_heads → 0 < B_ → 0 < N → 0 < nW →
  masked_attn_shape num_heads B_ N [nW; N; N]
  = if decide (B_ mod nW = 0) then Some [B_; num_heads; N; N] else None.
Proof.
  intros HnH HB HN HnW. unfold masked_attn_shape, floordiv.
  cbn [lookup list_lookup mbind option_bind].
  rewrite decide_False by lia. cbn [mbind option_bind].
  rewrite infer_size_given.
  pose proof (Nat.div_mod_eq B_ nW) as Hdm.
  set (q := B_ / nW) in *.
  destruct (decide (B_ mod nW = 0)) as [Hmod|Hmod].
  - assert (q * nW = B_) as Hq by lia.
    rewrite decide_True by (cbn [numel foldr]; rewrite <- Hq; lia).
    cbn [mbind option_bind take drop app]. unfold broadcast_shapes.
    cbn [length Nat.max Nat.sub replicate app].
    rewrite broadcast_shape_mask. cbn [mbind option_bind].
    unfold infer_size.
    change (given [None; Some num_heads; Some N; Some N]) with [num_heads; N; N].
    cbn [length Nat.sub].
    assert (numel [q; nW; num_heads; N; N] = B_ * numel [num_heads; N; N]) as ->
      by (cbn [numel foldr]; rewrite <- Hq; lia).
    assert (0 < numel [num_heads; N; N]) as Hpos by (cbn [numel foldr]; nia).
    rewrite decide_True by (split; [done|apply Nat.Div0.mod_mul]).
    cbn [map default]. rewrite Nat.div_mul by lia. done.
  - rewrite decide_False; [done|]. cbn [numel foldr].
    assert (q * nW < B_) as Hlt by lia.
    assert (0 < num_heads * (N * (N * 1))) as Hpos by nia.
    nia.
Qed.

Lemma masked_attn_shape_iff_witness :
  masked_attn_shape 4 24 8 [8; 8; 8]
  = if decide (24 mod 8 = 0) then Some [24; 4; 8; 8] else None.
Proof. apply (masked_attn_shape_iff 4 24 8 8); lia. Defined.

(** ** Partition after reverse *)

Lemma partition_after_reverse s0 s1 s2 s3 s4 s5 s6 s7 m :
  m < numel [s0; s1; s2; s3; s4; s5; s6; s7] →
  offset (select [0; 1; 4; 2; 5; 3; 6; 7] (strides [s0; s1; s2; s3; s4; s5; s6; s7]))
    (unravel [s0; s1; s4; s2; s5; s3; s6; s7]
       (offset (select [0; 1; 3; 5; 2; 4; 6; 7]
                  (strides [s0; s1; s4; s2; s5; s3; s6; s7]))
               (unravel [s0; s1; s2; s3; s4; s5; s6; s7] m)))
  = m.
Proof.
  intros Hm. pose proof (unravel_bounded _ _ Hm) as Hb.
  pose proof (ravel_unravel _ _ Hm) as Hr.
  list8 Hb i0 i1 i2 i3 i4 i5 i6 i7.
  rewrite offset_partition_perm, unravel_ravel.
  - by rewrite offset_reverse_perm.
  - forall2_inv Hb. repeat (apply Forall2_cons_2; [done|]). apply Forall2_nil_2.
Qed.

(** X24.  [window_partition] undoes [window_reverse]: merging the
    windows of a non-empty batch into a volume and partitioning the
    volume again returns the windows. *)
Theorem window_partition_reverse {A} (windows : tensor A) B nd nh nw C w0 w1 w2 :
  wf windows → shape windows = [B * nd * nh * nw; w0 * w1 * w2; C] →
  0 < B → 0 < nd → 0 < nh → 0 < nw → 0 < C → 0 < w0 → 0 < w1 → 0 < w2 →
  window_reverse windows [w0; w1; w2] B (nd * w0) (nh * w1) (nw * w2)
    ≫= (λ x, window_partition x [w0; w1; w2])
  = Some windows.
Proof.
  intros Hwf Hs HB Hnd Hnh Hnw HC H0 H1 H2.
  assert (length (data windows) = numel [B; nd; nh; nw; w0; w1; w2; C]) as Hlen
    by (rewrite Hwf, Hs; cbn [numel foldr]; lia).
  destruct (window_reverse_Some windows B nd nh nw C w0 w1 w2 Hlen HB Hnd Hnh Hnw
              H0 H1 H2) as (y & -> & Hsy & Hwy & Hdy).
  cbn [mbind option_bind].
  destruct (window_partition_Some y B nd nh nw C w0 w1 w2 Hwy Hsy H0 H1 H2 HC)
    as (d' & -> & Hl & Hd').
  destruct windows as [s d]. cbn [shape data] in *. subst s. f_equal. f_equal.
  assert (length d' = numel [B; nd; nh; nw; w0; w1; w2; C]) as Hl'
    by (rewrite Hl, Hwy, Hsy; cbn [numel foldr]; lia).
  apply list_eq. intros m.
  destruct (decide (m < numel [B; nd; nh; nw; w0; w1; w2; C])) as [Hm|Hm].
  - rewrite Hd' by lia. rewrite Hdy.
    + by rewrite partition_after_reverse.
    + by apply partition_source_bounded.
  - rewrite !lookup_ge_None_2; [done|lia|lia].
Qed.

Lemma window_partition_reverse_witness :
  let windows := Tensor [1 * 1 * 2 * 2; 2 * 2 * 1; 1] (seq 0 16) in
  window_reverse windows [2; 2; 1] 1 (1 * 2) (2 * 2) (2 * 1)
    ≫= (λ x, window_partition x [2; 2; 1])
  = Some windows.
Proof.
  apply (window_partition_reverse (Tensor [1 * 1 * 2 * 2; 2 * 2 * 1; 1] (seq 0 16))
           1 1 2 2 1 2 2 1); try reflexivity; lia.
Defined.

(** ** The four modalities *)

Lemma select_channel_Some {A} (x : tensor A) B C D H W k :
  wf x → shape x = [B; C; D; H; W] → k < C →
  ∃ t, select_channel x k = Some t ∧ shape t = [B; D; H; W] ∧ wf t ∧
       ∀ b d h w, b < B → d < D → h < H → w < W →
         get t [b; d; h; w] = get x [b; k; d; h; w].
Proof.
  intros Hwf Hs Hk. unfold select_channel. rewrite Hs, decide_True by done.
  match goal with |- context [tabulate ?s ?f] =>
    destruct (tabulate_is_Some s f) as [t Ht] end.
  { intros m Hm. apply unravel_bounded in Hm. forall2_list Hm.
    apply get_is_Some; [done|]. rewrite Hs. idx_bounded. }
  exists t. destruct (tabulate_wf _ _ _ Ht) as [Hst Hwt].
  split_and!; [done..|].
  intros b d h w ????. by rewrite (tabulate_get _ _ _ _ Ht) by idx_bounded.
Qed.

Lemma unsqueeze_1_get {A} (t : tensor A) B D H W b d h w :
  shape t = [B; D; H; W] →
  unsqueeze 1 t = Tensor [B; 1; D; H; W] (data t) ∧
  get (Tensor [B; 1; D; H; W] (data t)) [b; 0; d; h; w] = get t [b; d; h; w].
Proof.
  intros Hs. unfold unsqueeze, get. rewrite Hs. split; [done|].
  cbn [shape data]. f_equal. cbn [ravel numel foldr]. lia.
Qed.

(** X25.  [extract.forward] splits its input into the four modalities
    and returns, besides the encoder's features, their concatenation
    [z0]: an input with fewer than four channels raises; otherwise [z0]
    has four channels that are the first four channels of the input,
    and it is the input itself when the input has exactly four
    channels.  The encoder receives four single-channel tensors. *)
Theorem extract_forward_z0 {A R : Type}
    (encoder : tensor A → tensor A → tensor A → tensor A → option R)
    (inputs : tensor A) (B C D H W : nat) :
  wf inputs → shape inputs = [B; C; D; H; W] →
  (C < 4 → extract_forward encoder inputs = None) ∧
  (4 ≤ C →
   ∃ t1 t1ce t2 flair z0,
     extract_forward encoder inputs
     = (z ← encoder t1 t1ce t2 flair; Some (z0, z)) ∧
     Forall (λ t, shape t = [B; 1; D; H; W] ∧ wf t) [t1; t1ce; t2; flair] ∧
     shape z0 = [B; 4; D; H; W] ∧ wf z0 ∧
     (∀ b k d h w, b < B → k < 4 → d < D → h < H → w < W →
        get z0 [b; k; d; h; w] = get inputs [b; k; d; h; w]) ∧
     (C = 4 → z0 = inputs)).
Proof.
  intros Hwf Hs. split.
  - intros HC. unfold extract_forward.
    assert (select_channel inputs 3 = None) as E3
      by (unfold select_channel; rewrite Hs; by rewrite decide_False by lia).
    destruct (select_channel inputs 0);
      cbn [fmap option_fmap option_map mbind option_bind]; [|done].
    destruct (select_channel inputs 1);
      cbn [fmap option_fmap option_map mbind option_bind]; [|done].
    destruct (select_channel inputs 2);
      cbn [fmap option_fmap option_map mbind option_bind]; [|done].
    by rewrite E3.
  - intros HC.
    destruct (select_channel_Some inputs B C D H W 0 Hwf Hs ltac:(lia))
      as (c0 & E0 & Hs0 & Hw0 & Hg0).
    destruct (select_channel_Some inputs B C D H W 1 Hwf Hs ltac:(lia))
      as (c1 & E1 & Hs1 & Hw1 & Hg1).
    destruct (select_channel_Some inputs B C D H W 2 Hwf Hs ltac:(lia))
      as (c2 & E2 & Hs2 & Hw2 & Hg2).
    destruct (select_channel_Some inputs B C D H W 3 Hwf Hs ltac:(lia))
      as (c3 & E3 & Hs3 & Hw3 & Hg3).
    destruct (unsqueeze_1_get c0 B D H W 0 0 0 0 Hs0) as [U0 _].
    destruct (unsqueeze_1_get c1 B D H W 0 0 0 0 Hs1) as [U1 _].
    destruct (unsqueeze_1_get c2 B D H W 0 0 0 0 Hs2) as [U2 _].
    destruct (unsqueeze_1_get c3 B D H W 0 0 0 0 Hs3) as [U3 _].
    unfold extract_forward. rewrite E0, E1, E2, E3.
    cbn [fmap option_fmap option_map mbind option_bind]. rewrite U0, U1, U2, U3.
    set (t1 := Tensor [B; 1; D; H; W] (data c0)).
    set (t1ce := Tensor [B; 1; D; H; W] (data c1)).
    set (t2 := Tensor [B; 1; D; H; W] (data c2)).
    set (flair := Tensor [B; 1; D; H; W] (data c3)).
    assert (∀ c : tensor A, shape c = [B; D; H; W] → wf c →
                 wf (Tensor [B; 1; D; H; W] (data c))) as Hwfu.
    { intros c Hsc Hwc. unfold wf in *. cbn [shape data]. rewrite Hwc, Hsc.
      cbn [numel foldr]. lia. }
    assert (∀ k b d h w, b < B → k < 4 → d < D → h < H → w < W →
              cat1_get [t1; t1ce; t2; flair] b k [d; h; w]
              = get inputs [b; k; d; h; w]) as Hcat.
    { intros k b d h w Hb Hk Hd Hh Hw'. unfold t1, t1ce, t2, flair.
      cbn [cat1_get shape].
      destruct k as [|[|[|[|k]]]]; [| | | |lia].
      - rewrite decide_True by lia.
        rewrite (proj2 (unsqueeze_1_get c0 B D H W b d h w Hs0)). by apply Hg0.
      - rewrite decide_False by lia. cbn [Nat.sub]. rewrite decide_True by lia.
        rewrite (proj2 (unsqueeze_1_get c1 B D H W b d h w Hs1)). by apply Hg1.
      - do 2 (rewrite decide_False by lia; cbn [Nat.sub]). rewrite decide_True by lia.
        rewrite (proj2 (unsqueeze_1_get c2 B D H W b d h w Hs2)). by apply Hg2.
      - do 3 (rewrite decide_False by lia; cbn [Nat.sub]). rewrite decide_True by lia.
        rewrite (proj2 (unsqueeze_1_get c3 B D H W b d h w Hs3)). by apply Hg3. }
    assert (∃ z0, torch_cat1 [t1; t1ce; t2; flair] = Some z0 ∧
                  shape z0 = [B; 4; D; H; W] ∧ wf z0 ∧
                  ∀ b k d h w, b < B → k < 4 → d < D → h < H → w < W →
                    get z0 [b; k; d; h; w] = get inputs [b; k; d; h; w])
      as (z0 & Ez & Hsz & Hwz & Hgz).
    { unfold torch_cat1. unfold t1, t1ce, t2, flair in Hcat |- *.
      cbn [shape forallb take drop length].
      rewrite !bool_decide_eq_true_2 by (split_and!; [done|done|lia]).
      cbn [andb].
      match goal with |- context [tabulate (B :: ?c :: _) _] => change c with 4 end.
      match goal with |- context [tabulate ?s ?f] =>
        destruct (tabulate_is_Some s f) as [z0 Hz0] end.
      { intros m Hm. apply unravel_bounded in Hm. forall2_list Hm.
        rewrite Hcat by done. apply get_is_Some; [done|]. rewrite Hs. idx_bounded. }
      exists z0. destruct (tabulate_wf _ _ _ Hz0) as [Hsz Hwz].
      split_and!; [done..|].
      intros b k d h w ?????.
      rewrite (tabulate_get _ _ _ _ Hz0) by idx_bounded. by apply Hcat. }
    exists t1, t1ce, t2, flair, z0. split_and!.
    + destruct (encoder t1 t1ce t2 flair); cbn [mbind option_bind]; [|done].
      by rewrite Ez.
    + repeat constructor; by apply Hwfu.
    + done.
    + done.
    + done.
    + intros ->. apply tensor_ext; [done|done|congruence|].
      intros idx Hidx. rewrite Hsz in Hidx. forall2_list Hidx. by apply Hgz.
Qed.

Lemma extract_forward_z0_witness :
  let inputs := Tensor [1; 4; 1; 2; 1] (seq 0 8) in
  let encoder (a b c d : tensor nat) := Some (shape a) in
  (4 < 4 → extract_forward encoder inputs = None) ∧
  (4 ≤ 4 →
   ∃ t1 t1ce t2 flair z0,
     extract_forward encoder inputs
     = (z ← encoder t1 t1ce t2 flair; Some (z0, z)) ∧
     Forall (λ t, shape t = [1; 1; 1; 2; 1] ∧ wf t) [t1; t1ce; t2; flair] ∧
     shape z0 = [1; 4; 1; 2; 1] ∧ wf z0 ∧
     (∀ b k d h w, b < 1 → k < 4 → d < 1 → h < 2 → w < 1 →
        get z0 [b; k; d; h; w] = get inputs [b; k; d; h; w]) ∧
     (4 = 4 → z0 = inputs)).
Proof.
  apply (extract_forward_z0 (λ a b c d : tensor nat, Some (shape a))
           (Tensor [1; 4; 1; 2; 1] (seq 0 8)) 1 4 1 2 1); reflexivity.
Defined.

(** ** The deformable mode *)

Lemma broadcast_mul_gate (offset a : tensor Q) b c3 h w d :
  wf offset → shape offset = [b; c3; h; w; d] →
  wf a → shape a = [b; 1; h; w; d] →
  ∃ t, broadcast_mul offset a = Some t ∧ shape t = [b; c3; h; w; d] ∧ wf t.
Proof.
  intros Hwo Hso Hwa Hsa. unfold broadcast_mul. rewrite Hso, Hsa.
  assert (broadcast_shape [b; c3; h; w; d] [b; 1; h; w; d] = Some [b; c3; h; w; d])
    as ->.
  { unfold broadcast_shape. rewrite decide_True by done.
    cbn [zip zip_with mapM mbind option_bind mret option_ret].
    rewrite (decide_True (P := b = b)), (decide_True (P := h = h)),
      (decide_True (P := w = w)), (decide_True (P := d = d)) by done.
    cbn [mbind option_bind].
    destruct (decide (c3 = 1)) as [->|]; [done|].
    by rewrite decide_True by done. }
  cbn [mbind option_bind].
  match goal with |- context [tabulate ?s ?f] =>
    destruct (tabulate_is_Some s f) as [t Ht] end.
  { intros m Hm. apply unravel_bounded in Hm. forall2_list Hm.
    destruct (get_is_Some offset (broadcast_index [b; c3; h; w; d] [i; i0; i1; i2; i3]) Hwo)
      as [x ->].
    { rewrite Hso. unfold broadcast_index. cbn [zip_with].
      idx_bounded; case_decide; lia. }
    destruct (get_is_Some a (broadcast_index [b; 1; h; w; d] [i; i0; i1; i2; i3]) Hwa)
      as [y ->].
    { rewrite Hsa. unfold broadcast_index. cbn [zip_with].
      idx_bounded; case_decide; lia. }
    done. }
  exists t. destruct (tabulate_wf _ _ _ Ht) as [? ?]. done.
Qed.

(** X26.  In deformable mode the layer is defined for every value of
    the learned offsets: if the squeeze, the offset convolution and the
    attention gate return well-formed tensors of the shapes such layers
    return (the squeeze [(b, c, h, w, d)], the offsets
    [(b, 3 * ks ^ 3, h', w', d')], the gate [(b, 1, h', w', d')]),
    the forward pass returns a tensor over the strided offset grid. *)
Theorem forward_deformable_defined (kernel_size stride padding : nat)
    (conv_se offset_conv_kernel att : tensor Q → option (tensor Q))
    (weight : list (list Q)) (bias : option (list Q))
    (x x' offset a : tensor Q) (b c h w d h' w' d' : nat) :
  0 < stride → 0 < b → 0 < c → 0 < h → 0 < w → 0 < d →
  conv_se x = Some x' → wf x' → shape x' = [b; c; h; w; d] →
  offset_conv_kernel x' = Some offset → wf offset →
  shape offset = [b; 3 * kernel_size ^ 3; h'; w'; d'] →
  att offset = Some a → wf a → shape a = [b; 1; h'; w'; d'] →
  Forall (λ r, length r = c * kernel_size ^ 3) weight →
  match bias with Some bs => length weight ≤ length bs | None => True end →
  ∃ out,
    AttDeformConv3d_forward kernel_size stride padding conv_se offset_conv_kernel att
                            weight bias deformable x = Some out ∧
    shape out = [b; length weight; (h' + stride - 1) / stride;
                 (w' + stride - 1) / stride; (d' + stride - 1) / stride] ∧
    wf out.
Proof.
  intros Hst Hb Hc Hh Hw Hd Hse Hwx Hsx Hoff Hwo Hso Hatt Hwa Hsa Hweight Hbias.
  unfold AttDeformConv3d_forward. rewrite Hse. cbn [mbind option_bind].
  rewrite Hoff. cbn [mbind option_bind]. rewrite Hatt. cbn [mbind option_bind].
  destruct (broadcast_mul_gate offset a _ _ _ _ _ Hwo Hso Hwa Hsa)
    as (gated & -> & Hsg & Hwg).
  cbn [mbind option_bind].
  destruct (decide (padding = 0)) as [->|Hp]; cbn [mbind option_bind].
  - apply (sample_total_helper kernel_size stride 0 weight bias gated x'
             b c h' w' d' h w d); done.
  - destruct (zero_padding_Some padding x' b c h w d Hwx Hsx)
      as (xp & -> & Hsp & Hwp & _).
    cbn [mbind option_bind].
    apply (sample_total_helper kernel_size stride padding weight bias gated xp
             b c h' w' d' (h + 2 * padding) (w + 2 * padding) (d + 2 * padding));
      try done; lia.
Qed.

Lemma forward_deformable_defined_witness :
  let x := Tensor [1; 1; 2; 2; 2] (inject_Z <$> [1; 2; 3; 4; 5; 6; 7; 8]%Z) in
  let offset := Tensor [1; 3; 1; 1; 2]
                  [(7 # 2)%Q; (-3)%Q; (1 # 3)%Q; 100%Q; (-1 # 7)%Q; 0%Q] in
  let a := Tensor [1; 1; 1; 1; 2] [(1 # 2)%Q; (1 # 3)%Q] in
  ∃ out,
    AttDeformConv3d_forward 1 1 1 Some (λ _, Some offset) (λ _, Some a)
                            [[2%Q]] None deformable x = Some out ∧
    shape out = [1; length [[2%Q]]; (1 + 1 - 1) / 1; (1 + 1 - 1) / 1; (2 + 1 - 1) / 1] ∧
    wf out.
Proof.
  apply (forward_deformable_defined 1 1 1 Some
           (λ _, Some (Tensor [1; 3; 1; 1; 2]
              [(7 # 2)%Q; (-3)%Q; (1 # 3)%Q; 100%Q; (-1 # 7)%Q; 0%Q]))
           (λ _, Some (Tensor [1; 1; 1; 1; 2] [(1 # 2)%Q; (1 # 3)%Q]))
           [[2%Q]] None
           (Tensor [1; 1; 2; 2; 2] (inject_Z <$> [1; 2; 3; 4; 5; 6; 7; 8]%Z))
           (Tensor [1; 1; 2; 2; 2] (inject_Z <$> [1; 2; 3; 4; 5; 6; 7; 8]%Z))
           (Tensor [1; 3; 1; 1; 2]
              [(7 # 2)%Q; (-3)%Q; (1 # 3)%Q; 100%Q; (-1 # 7)%Q; 0%Q])
           (Tensor [1; 1; 1; 1; 2] [(1 # 2)%Q; (1 # 3)%Q])
           1 1 2 2 2 1 1 2); try reflexivity; try lia; repeat constructor.
Defined.

(** ** The four streams of the multi-modal block *)

Lemma F_pad_shape (x xp : tensor Q) B D H W C l r t b d0 d1 :
  shape x = [B; D; H; W; C] → F_pad x l r t b d0 d1 = Some xp →
  shape xp = [B; d0 + D + d1; t + H + b; l + W + r; C].
Proof.
  intros Hs. unfold F_pad. rewrite Hs. intros Hp.
  by destruct (tabulate_wf _ _ _ Hp).
Qed.

Ltac stream_step :=
  match goal with
  | |- context [decide ?P] => destruct (decide P)
  | H : ?o = _ |- context [mbind _ ?o] => rewrite H
  | |- context [mbind _ ?o] =>
      lazymatch o with
      | Some _ => fail
      | None => fail
      | _ => destruct o eqn:?
      end
  end; cbn [mbind option_bind].

(** X27.  Without cross attention the four streams of the multi-modal
    block do not interact, and each one goes through the statements of
    [BottleneckBlock3D.forward_part1]: for four inputs of one shape and
    normalisations that keep the shape, [forward_part1] with
    [cross = False] returns, or raises, exactly as the four
    single-stream calls with the stream's own normalisation and
    self-attention do. *)
Theorem streams_independent_without_cross {mask : Type}
    (ws ss : list nat)
    (norm_t1_1 norm_t1ce_1 norm_t2_1 norm_flair_1 : tensor Q → option (tensor Q))
    (self : @block_modules (option (tensor Q)) mask)
    (add : option (tensor Q) → option (tensor Q) → option (tensor Q))
    (t1 t1ce t2 flair : tensor Q) (mask_matrix : mask) :
  shape t1ce = shape t1 → shape t2 = shape t1 → shape flair = shape t1 →
  (∀ x y, norm_t1_1 x = Some y → shape y = shape x) →
  (∀ x y, norm_t1ce_1 x = Some y → shape y = shape x) →
  (∀ x y, norm_t2_1 x = Some y → shape y = shape x) →
  (∀ x y, norm_flair_1 x = Some y → shape y = shape x) →
  SwinTransformerBlock3D_forward_part1 ws ss norm_t1_1 norm_t1ce_1 norm_t2_1 norm_flair_1
    self add t1 t1ce t2 flair mask_matrix false
  = (a ← BottleneckBlock3D_forward_part1 ws ss norm_t1_1
           (λ w, self_attn_t1 self (Some w)) t1 mask_matrix;
     b ← BottleneckBlock3D_forward_part1 ws ss norm_t1ce_1
           (λ w, self_attn_t1ce self (Some w)) t1ce mask_matrix;
     c ← BottleneckBlock3D_forward_part1 ws ss norm_t2_1
           (λ w, self_attn_t2 self (Some w)) t2 mask_matrix;
     d ← BottleneckBlock3D_forward_part1 ws ss norm_flair_1
           (λ w, self_attn_flair self (Some w)) flair mask_matrix;
     Some (a, b, c, d)).
Proof.
  intros H2 H3 H4 N1 N2 N3 N4.
  unfold SwinTransformerBlock3D_forward_part1, BottleneckBlock3D_forward_part1.
  rewrite H2, H3, H4.
  destruct (shape t1) as [|B [|D [|H [|W [|C [|]]]]]] eqn:Hs; try done.
  destruct (get_window_size [D; H; W] ws ss) as [[window_size shift_size]|];
    cbn [mbind option_bind]; [|done].
  destruct window_size as [|w0 [|w1 [|w2 ?]]]; try done.
  destruct shift_size as [|s0 [|s1 [|s2 ?]]]; try done.
  destruct (norm_t1_1 t1) as [n1|] eqn:E1; cbn [mbind option_bind]; [|done].
  destruct (norm_t1ce_1 t1ce) as [n2|] eqn:E2; cbn [mbind option_bind];
    [|repeat stream_step; congruence].
  destruct (norm_t2_1 t2) as [n3|] eqn:E3; cbn [mbind option_bind];
    [|repeat stream_step; congruence].
  destruct (norm_flair_1 flair) as [n4|] eqn:E4; cbn [mbind option_bind];
    [|repeat stream_step; congruence].
  apply N1 in E1. apply N2 in E2. apply N3 in E3. apply N4 in E4.
  rewrite Hs in E1. rewrite H2 in E2. rewrite H3 in E3. rewrite H4 in E4.
  do 6 (stream_step; [|done]).
  destruct (F_pad n1 _ _ _ _ _ _) as [p1|] eqn:P1; cbn [mbind option_bind]; [|done].
  rewrite (F_pad_shape _ _ _ _ _ _ _ _ _ _ _ _ _ E1 P1).
  destruct (F_pad n2 _ _ _ _ _ _) as [p2|] eqn:P2; cbn [mbind option_bind];
    [|repeat stream_step; congruence].
  rewrite (F_pad_shape _ _ _ _ _ _ _ _ _ _ _ _ _ E2 P2).
  destruct (F_pad n3 _ _ _ _ _ _) as [p3|] eqn:P3; cbn [mbind option_bind];
    [|repeat stream_step; congruence].
  rewrite (F_pad_shape _ _ _ _ _ _ _ _ _ _ _ _ _ E3 P3).
  destruct (F_pad n4 _ _ _ _ _ _) as [p4|] eqn:P4; cbn [mbind option_bind];
    [|repeat stream_step; congruence].
  rewrite (F_pad_shape _ _ _ _ _ _ _ _ _ _ _ _ _ E4 P4).
  unfold attention_stage. cbn [negb].
  destruct (existsb _ _) eqn:Hshift.

  all: repeat stream_step; congruence.
Qed.

Ltac stream_step_in H :=
  match type of H with
  | context [decide ?P] => destruct (decide P)
  | context [shape ?t] =>
      first [ match goal with E : shape t = _ |- _ => rewrite E in H end
            | match goal with
              | P : F_pad ?x _ _ _ _ _ _ = Some t, E : shape ?x = _ |- _ =>
                  rewrite (F_pad_shape _ _ _ _ _ _ _ _ _ _ _ _ _ E P) in H
              end
            | destruct (shape t) as [|? [|? [|? [|? [|? [|]]]]]] eqn:? ]
  | context [mbind _ ?o] =>
      lazymatch o with
      | Some _ => fail
      | None => fail
      | _ =>
          first [ match goal with E : o = _ |- _ => rewrite E in H end
                | destruct o eqn:? ]
      end
  end; cbn [mbind option_bind] in H; try discriminate H.

(** X28.  The block never mixes the two pairs of modalities: with or
    without cross attention, the T1 and T1ce outputs of [forward_part1]
    are the same for every T2 and FLAIR input for which the call
    returns. *)
Theorem pairs_do_not_mix {mask : Type}
    (ws ss : list nat)
    (norm_t1_1 norm_t1ce_1 norm_t2_1 norm_flair_1 : tensor Q → option (tensor Q))
    (self : @block_modules (option (tensor Q)) mask)
    (add : option (tensor Q) → option (tensor Q) → option (tensor Q))
    (t1 t1ce t2 flair t2' flair' : tensor Q) (mask_matrix : mask) (cross : bool)
    (a b c d a' b' c' d' : tensor Q) :
  SwinTransformerBlock3D_forward_part1 ws ss norm_t1_1 norm_t1ce_1 norm_t2_1 norm_flair_1
    self add t1 t1ce t2 flair mask_matrix cross = Some (a, b, c, d) →
  SwinTransformerBlock3D_forward_part1 ws ss norm_t1_1 norm_t1ce_1 norm_t2_1 norm_flair_1
    self add t1 t1ce t2' flair' mask_matrix cross = Some (a', b', c', d') →
  a' = a ∧ b' = b.
Proof.
  unfold SwinTransformerBlock3D_forward_part1. intros Ha Hb.
  destruct (shape t1) as [|B [|D [|H [|W [|C [|]]]]]] eqn:Hs; try done.
  destruct (get_window_size [D; H; W] ws ss) as [[window_size shift_size]|];
    cbn [mbind option_bind] in Ha, Hb; [|done].
  destruct window_size as [|w0 [|w1 [|w2 ?]]]; try done.
  destruct shift_size as [|s0 [|s1 [|s2 ?]]]; try done.
  unfold attention_stage in Ha, Hb.
  set (shifted := existsb _ _) in *. clearbody shifted.
  destruct shifted, cross; cbn [negb] in Ha, Hb.
  all: repeat stream_step_in Ha; repeat stream_step_in Hb.
  all: split; congruence.
Qed.

(** X29.  The T2 and FLAIR outputs of [forward_part1] depend on T1
    only through its shape (from which the window, the paddings and the
    crop are taken) and not on T1ce at all: replacing T1 by a tensor of
    the same shape and T1ce by any tensor leaves them unchanged, when
    the normalisation of T1 keeps the shape and both calls return. *)
Theorem second_pair_sees_shape_of_t1 {mask : Type}
    (ws ss : list nat)
    (norm_t1_1 norm_t1ce_1 norm_t2_1 norm_flair_1 : tensor Q → option (tensor Q))
    (self : @block_modules (option (tensor Q)) mask)
    (add : option (tensor Q) → option (tensor Q) → option (tensor Q))
    (t1 t1ce t2 flair t1' t1ce' : tensor Q) (mask_matrix : mask) (cross : bool)
    (a b c d a' b' c' d' : tensor Q) :
  shape t1' = shape t1 →
  (∀ x y, norm_t1_1 x = Some y → shape y = shape x) →
  SwinTransformerBlock3D_forward_part1 ws ss norm_t1_1 norm_t1ce_1 norm_t2_1 norm_flair_1
    self add t1 t1ce t2 flair mask_matrix cross = Some (a, b, c, d) →
  SwinTransformerBlock3D_forward_part1 ws ss norm_t1_1 norm_t1ce_1 norm_t2_1 norm_flair_1
    self add t1' t1ce' t2 flair mask_matrix cross = Some (a', b', c', d') →
  c' = c ∧ d' = d.
Proof.
  unfold SwinTransformerBlock3D_forward_part1. intros Hs' N1 Ha Hb.
  rewrite Hs' in Hb.
  destruct (shape t1) as [|B [|D [|H [|W [|C [|]]]]]] eqn:Hs; try done.
  destruct (get_window_size [D; H; W] ws ss) as [[window_size shift_size]|];
    cbn [mbind option_bind] in Ha, Hb; [|done].
  destruct window_size as [|w0 [|w1 [|w2 ?]]]; try done.
  destruct shift_size as [|s0 [|s1 [|s2 ?]]]; try done.
  destruct (norm_t1_1 t1) as [n1|] eqn:E1; [|done].
  destruct (norm_t1_1 t1') as [n1'|] eqn:E1'; [|done].
  cbn [mbind option_bind] in Ha, Hb.
  apply N1 in E1, E1'. rewrite Hs in E1. rewrite Hs' in E1'.
  unfold attention_stage in Ha, Hb.
  set (shifted := existsb _ _) in *. clearbody shifted.
  destruct shifted, cross; cbn [negb] in Ha, Hb.
  all: repeat stream_step_in Ha; repeat stream_step_in Hb.
  all: split; congruence.
Qed.

Lemma streams_independent_without_cross_witness :
  let x := Tensor [1; 3; 2; 2; 1] (inject_Z <$> [1; 2; 3; 4; 5; 6; 7; 8; 9; 10; 11; 12]%Z) in
  let self := @BlockModules (option (tensor Q)) unit
                (λ w _, w) (λ w _, w) (λ w _, w) (λ w _, w) (λ _ kv _, kv) (λ _ kv _, kv) in
  SwinTransformerBlock3D_forward_part1 [2; 2; 2] [1; 0; 0] Some Some Some Some
    self (λ _ b, b) x x x x tt false
  = (a ← BottleneckBlock3D_forward_part1 [2; 2; 2] [1; 0; 0] Some
           (λ w, self_attn_t1 self (Some w)) x tt;
     b ← BottleneckBlock3D_forward_part1 [2; 2; 2] [1; 0; 0] Some
           (λ w, self_attn_t1ce self (Some w)) x tt;
     c ← BottleneckBlock3D_forward_part1 [2; 2; 2] [1; 0; 0] Some
           (λ w, self_attn_t2 self (Some w)) x tt;
     d ← BottleneckBlock3D_forward_part1 [2; 2; 2] [1; 0; 0] Some
           (λ w, self_attn_flair self (Some w)) x tt;
     Some (a, b, c, d)).
Proof.
  apply (streams_independent_without_cross [2; 2; 2] [1; 0; 0] Some Some Some Some
           (@BlockModules (option (tensor Q)) unit (λ w _, w) (λ w _, w) (λ w _, w) (λ w _, w) (λ _ kv _, kv) (λ _ kv _, kv))
           (λ _ b, b)
           (Tensor [1; 3; 2; 2; 1] (inject_Z <$> [1; 2; 3; 4; 5; 6; 7; 8; 9; 10; 11; 12]%Z)) (Tensor [1; 3; 2; 2; 1] (inject_Z <$> [1; 2; 3; 4; 5; 6; 7; 8; 9; 10; 11; 12]%Z)) (Tensor [1; 3; 2; 2; 1] (inject_Z <$> [1; 2; 3; 4; 5; 6; 7; 8; 9; 10; 11; 12]%Z)) (Tensor [1; 3; 2; 2; 1] (inject_Z <$> [1; 2; 3; 4; 5; 6; 7; 8; 9; 10; 11; 12]%Z)) tt);
    try reflexivity; by intros x y [= <-].
Defined.

Lemma pairs_do_not_mix_witness :
  let self := @BlockModules (option (tensor Q)) unit
                (λ w _, w) (λ w _, w) (λ w _, w) (λ w _, w) (λ _ kv _, kv) (λ _ kv _, kv) in
  SwinTransformerBlock3D_forward_part1 [2; 2; 2] [0; 0; 0] Some Some Some Some
    self (λ _ b, b)
    (Tensor [1; 2; 2; 2; 1] (inject_Z <$> [1; 2; 3; 4; 5; 6; 7; 8]%Z)) (Tensor [1; 2; 2; 2; 1] (inject_Z <$> [11; 12; 13; 14; 15; 16; 17; 18]%Z))
    (Tensor [1; 2; 2; 2; 1] (inject_Z <$> [21; 22; 23; 24; 25; 26; 27; 28]%Z)) (Tensor [1; 2; 2; 2; 1] (inject_Z <$> [31; 32; 33; 34; 35; 36; 37; 38]%Z)) tt true
  = Some ((Tensor [1; 2; 2; 2; 1] (inject_Z <$> [11; 12; 13; 14; 15; 16; 17; 18]%Z)), (Tensor [1; 2; 2; 2; 1] (inject_Z <$> [1; 2; 3; 4; 5; 6; 7; 8]%Z)),
          (Tensor [1; 2; 2; 2; 1] (inject_Z <$> [31; 32; 33; 34; 35; 36; 37; 38]%Z)), (Tensor [1; 2; 2; 2; 1] (inject_Z <$> [21; 22; 23; 24; 25; 26; 27; 28]%Z)))
  ∧ SwinTransformerBlock3D_forward_part1 [2; 2; 2] [0; 0; 0] Some Some Some Some
    self (λ _ b, b)
    (Tensor [1; 2; 2; 2; 1] (inject_Z <$> [1; 2; 3; 4; 5; 6; 7; 8]%Z)) (Tensor [1; 2; 2; 2; 1] (inject_Z <$> [11; 12; 13; 14; 15; 16; 17; 18]%Z))
    (Tensor [1; 2; 2; 2; 1] (inject_Z <$> [41; 42; 43; 44; 45; 46; 47; 48]%Z)) (Tensor [1; 2; 2; 2; 1] (inject_Z <$> [51; 52; 53; 54; 55; 56; 57; 58]%Z)) tt true
  = Some ((Tensor [1; 2; 2; 2; 1] (inject_Z <$> [11; 12; 13; 14; 15; 16; 17; 18]%Z)), (Tensor [1; 2; 2; 2; 1] (inject_Z <$> [1; 2; 3; 4; 5; 6; 7; 8]%Z)),
          (Tensor [1; 2; 2; 2; 1] (inject_Z <$> [51; 52; 53; 54; 55; 56; 57; 58]%Z)), (Tensor [1; 2; 2; 2; 1] (inject_Z <$> [41; 42; 43; 44; 45; 46; 47; 48]%Z)))
  ∧ ((Tensor [1; 2; 2; 2; 1] (inject_Z <$> [11; 12; 13; 14; 15; 16; 17; 18]%Z)) = (Tensor [1; 2; 2; 2; 1] (inject_Z <$> [11; 12; 13; 14; 15; 16; 17; 18]%Z))
     ∧ (Tensor [1; 2; 2; 2; 1] (inject_Z <$> [1; 2; 3; 4; 5; 6; 7; 8]%Z)) = (Tensor [1; 2; 2; 2; 1] (inject_Z <$> [1; 2; 3; 4; 5; 6; 7; 8]%Z))).
Proof.
  split; [reflexivity|]. split; [reflexivity|].
  apply (pairs_do_not_mix [2; 2; 2] [0; 0; 0] Some Some Some Some
           (@BlockModules (option (tensor Q)) unit (λ w _, w) (λ w _, w) (λ w _, w) (λ w _, w) (λ _ kv _, kv) (λ _ kv _, kv))
           (λ _ b, b)
           (Tensor [1; 2; 2; 2; 1] (inject_Z <$> [1; 2; 3; 4; 5; 6; 7; 8]%Z)) (Tensor [1; 2; 2; 2; 1] (inject_Z <$> [11; 12; 13; 14; 15; 16; 17; 18]%Z))
           (Tensor [1; 2; 2; 2; 1] (inject_Z <$> [21; 22; 23; 24; 25; 26; 27; 28]%Z)) (Tensor [1; 2; 2; 2; 1] (inject_Z <$> [31; 32; 33; 34; 35; 36; 37; 38]%Z))
           (Tensor [1; 2; 2; 2; 1] (inject_Z <$> [41; 42; 43; 44; 45; 46; 47; 48]%Z)) (Tensor [1; 2; 2; 2; 1] (inject_Z <$> [51; 52; 53; 54; 55; 56; 57; 58]%Z)) tt true
           (Tensor [1; 2; 2; 2; 1] (inject_Z <$> [11; 12; 13; 14; 15; 16; 17; 18]%Z)) (Tensor [1; 2; 2; 2; 1] (inject_Z <$> [1; 2; 3; 4; 5; 6; 7; 8]%Z))
           (Tensor [1; 2; 2; 2; 1] (inject_Z <$> [31; 32; 33; 34; 35; 36; 37; 38]%Z)) (Tensor [1; 2; 2; 2; 1] (inject_Z <$> [21; 22; 23; 24; 25; 26; 27; 28]%Z))
           (Tensor [1; 2; 2; 2; 1] (inject_Z <$> [11; 12; 13; 14; 15; 16; 17; 18]%Z)) (Tensor [1; 2; 2; 2; 1] (inject_Z <$> [1; 2; 3; 4; 5; 6; 7; 8]%Z))
           (Tensor [1; 2; 2; 2; 1] (inject_Z <$> [51; 52; 53; 54; 55; 56; 57; 58]%Z)) (Tensor [1; 2; 2; 2; 1] (inject_Z <$> [41; 42; 43; 44; 45; 46; 47; 48]%Z)));
    reflexivity.
Defined.

Lemma second_pair_sees_shape_of_t1_witness :
  let self := @BlockModules (option (tensor Q)) unit
                (λ w _, w) (λ w _, w) (λ w _, w) (λ w _, w) (λ _ kv _, kv) (λ _ kv _, kv) in
  SwinTransformerBlock3D_forward_part1 [2; 2; 2] [0; 0; 0] Some Some Some Some
    self (λ _ b, b)
    (Tensor [1; 2; 2; 2; 1] (inject_Z <$> [1; 2; 3; 4; 5; 6; 7; 8]%Z)) (Tensor [1; 2; 2; 2; 1] (inject_Z <$> [11; 12; 13; 14; 15; 16; 17; 18]%Z))
    (Tensor [1; 2; 2; 2; 1] (inject_Z <$> [21; 22; 23; 24; 25; 26; 27; 28]%Z)) (Tensor [1; 2; 2; 2; 1] (inject_Z <$> [31; 32; 33; 34; 35; 36; 37; 38]%Z)) tt true
  = Some ((Tensor [1; 2; 2; 2; 1] (inject_Z <$> [11; 12; 13; 14; 15; 16; 17; 18]%Z)), (Tensor [1; 2; 2; 2; 1] (inject_Z <$> [1; 2; 3; 4; 5; 6; 7; 8]%Z)),
          (Tensor [1; 2; 2; 2; 1] (inject_Z <$> [31; 32; 33; 34; 35; 36; 37; 38]%Z)), (Tensor [1; 2; 2; 2; 1] (inject_Z <$> [21; 22; 23; 24; 25; 26; 27; 28]%Z)))
  ∧ SwinTransformerBlock3D_forward_part1 [2; 2; 2] [0; 0; 0] Some Some Some Some
    self (λ _ b, b)
    (Tensor [1; 2; 2; 2; 1] (inject_Z <$> [61; 62; 63; 64; 65; 66; 67; 68]%Z)) (Tensor [1; 2; 2; 2; 1] (inject_Z <$> [71; 72; 73; 74; 75; 76; 77; 78]%Z))
    (Tensor [1; 2; 2; 2; 1] (inject_Z <$> [21; 22; 23; 24; 25; 26; 27; 28]%Z)) (Tensor [1; 2; 2; 2; 1] (inject_Z <$> [31; 32; 33; 34; 35; 36; 37; 38]%Z)) tt true
  = Some ((Tensor [1; 2; 2; 2; 1] (inject_Z <$> [71; 72; 73; 74; 75; 76; 77; 78]%Z)), (Tensor [1; 2; 2; 2; 1] (inject_Z <$> [61; 62; 63; 64; 65; 66; 67; 68]%Z)),
          (Tensor [1; 2; 2; 2; 1] (inject_Z <$> [31; 32; 33; 34; 35; 36; 37; 38]%Z)), (Tensor [1; 2; 2; 2; 1] (inject_Z <$> [21; 22; 23; 24; 25; 26; 27; 28]%Z)))
  ∧ ((Tensor [1; 2; 2; 2; 1] (inject_Z <$> [31; 32; 33; 34; 35; 36; 37; 38]%Z)) = (Tensor [1; 2; 2; 2; 1] (inject_Z <$> [31; 32; 33; 34; 35; 36; 37; 38]%Z))
     ∧ (Tensor [1; 2; 2; 2; 1] (inject_Z <$> [21; 22; 23; 24; 25; 26; 27; 28]%Z)) = (Tensor [1; 2; 2; 2; 1] (inject_Z <$> [21; 22; 23; 24; 25; 26; 27; 28]%Z))).
Proof.
  split; [reflexivity|]. split; [reflexivity|].
  apply (second_pair_sees_shape_of_t1 [2; 2; 2] [0; 0; 0] Some Some Some Some
           (@BlockModules (option (tensor Q)) unit (λ w _, w) (λ w _, w) (λ w _, w) (λ w _, w) (λ _ kv _, kv) (λ _ kv _, kv))
           (λ _ b, b)
           (Tensor [1; 2; 2; 2; 1] (inject_Z <$> [1; 2; 3; 4; 5; 6; 7; 8]%Z)) (Tensor [1; 2; 2; 2; 1] (inject_Z <$> [11; 12; 13; 14; 15; 16; 17; 18]%Z))
           (Tensor [1; 2; 2; 2; 1] (inject_Z <$> [21; 22; 23; 24; 25; 26; 27; 28]%Z)) (Tensor [1; 2; 2; 2; 1] (inject_Z <$> [31; 32; 33; 34; 35; 36; 37; 38]%Z))
           (Tensor [1; 2; 2; 2; 1] (inject_Z <$> [61; 62; 63; 64; 65; 66; 67; 68]%Z)) (Tensor [1; 2; 2; 2; 1] (inject_Z <$> [71; 72; 73; 74; 75; 76; 77; 78]%Z)) tt true
           (Tensor [1; 2; 2; 2; 1] (inject_Z <$> [11; 12; 13; 14; 15; 16; 17; 18]%Z)) (Tensor [1; 2; 2; 2; 1] (inject_Z <$> [1; 2; 3; 4; 5; 6; 7; 8]%Z))
           (Tensor [1; 2; 2; 2; 1] (inject_Z <$> [31; 32; 33; 34; 35; 36; 37; 38]%Z)) (Tensor [1; 2; 2; 2; 1] (inject_Z <$> [21; 22; 23; 24; 25; 26; 27; 28]%Z))
           (Tensor [1; 2; 2; 2; 1] (inject_Z <$> [71; 72; 73; 74; 75; 76; 77; 78]%Z)) (Tensor [1; 2; 2; 2; 1] (inject_Z <$> [61; 62; 63; 64; 65; 66; 67; 68]%Z))
           (Tensor [1; 2; 2; 2; 1] (inject_Z <$> [31; 32; 33; 34; 35; 36; 37; 38]%Z)) (Tensor [1; 2; 2; 2; 1] (inject_Z <$> [21; 22; 23; 24; 25; 26; 27; 28]%Z)));
    try reflexivity; by intros x y [= <-].
Defined.
